(** * AdditiveManufacturing: the puzzle decomposition pipeline of backend.py

    A shallow embedding of [make_interlock_hybrid] and
    [generate_puzzle_from_stl] (src/backend.py, src/backend2.py).

    Conventions of the embedding:
    - Python floats are idealised as exact rationals ([Q]); Python ints are [Z].
    - trimesh, numpy, matplotlib, the [random] module and the file system are
      external collaborators.  They are interfaces (type classes) here; a call
      that may raise returns [option] (or [bool] for a call without result),
      [None]/[false] standing for "an exception was raised".
    - The module-level generator of [random] is global mutable state: it is
      threaded explicitly through the pipeline ([rng]).
    - [update_progress] calls are recorded in a log; every [center] list the
      pipeline builds is recorded in [centers] (an observation of the run, it
      never influences control flow). *)

From Stdlib Require Import ZArith QArith Ascii String List Bool Lia Lqa DecimalString.
Import ListNotations.

Open Scope Z_scope.

(** ** Python and numpy primitives *)

(** [range(n)]: empty when [n <= 0]. *)
Definition range (n : Z) : list Z := map Z.of_nat (seq 0 (Z.to_nat n)).

(** [l[-1] = v] on a non-empty list; an empty list is left alone (the
    assignment is only made under [num > 1]). *)
Fixpoint set_last {A : Type} (l : list A) (v : A) : list A :=
  match l with
  | [] => []
  | [_] => [v]
  | x :: tl => x :: set_last tl v
  end.

(** [numpy.linspace(start, stop, num)] with the default [endpoint=True]:
    a negative [num] raises [ValueError]; otherwise the samples are
    [arange(0, num) * step + start] with [step = (stop - start) / (num - 1)],
    and the last sample is overwritten with [stop] when [num > 1]. *)
Definition linspace (start stop : Q) (num : Z) : option (list Q) :=
  if num <? 0 then None
  else
    let div := num - 1 in
    let step := ((stop - start) / inject_Z div)%Q in
    let y := map (fun t => (inject_Z t * step + start)%Q) (range num) in
    Some (if 1 <? num then set_last y stop else y).

(** [str(z)] for an int. *)
Definition str (z : Z) : string := NilZero.string_of_int (Z.to_int z).

(** [os.path.join(a, b)] on a POSIX system, for two components. *)
Definition ends_with_slash (a : string) : bool :=
  match rev (list_ascii_of_string a) with
  | c :: _ => Ascii.eqb c "/"%char
  | [] => false
  end.

Definition os_path_join (a b : string) : string :=
  match b with
  | String c _ =>
      if Ascii.eqb c "/"%char then b
      else if (a =? "")%string || ends_with_slash a then (a ++ b)%string
      else (a ++ "/" ++ b)%string
  | EmptyString =>
      if (a =? "")%string || ends_with_slash a then a else (a ++ "/")%string
  end.

(** Strictly increasing sequences of rationals. *)
Fixpoint strictly_increasing (l : list Q) : Prop :=
  match l with
  | [] => True
  | x :: tl =>
      match tl with
      | [] => True
      | y :: _ => (x < y)%Q /\ strictly_increasing tl
      end
  end.

(** ** Data *)

(** A point or vector [[x, y, z]]. *)
Definition Vec3 : Type := (Q * Q * Q)%type.

(** The only rotation the code builds:
    [trimesh.transformations.rotation_matrix(np.pi / 2, direction)]. *)
Inductive Matrix : Type :=
| rotation_matrix_half_pi (direction : Vec3).

(** Which side of an interlock a cell gets: the branch taken at
    backend.py lines 179, 212 and 245. *)
Inductive Role : Type := Key | Socket.

Definition Role_eqb (a b : Role) : bool :=
  match a, b with
  | Key, Key | Socket, Socket => true
  | _, _ => false
  end.

(** One [center] built by the pipeline, with the cell, axis and instance it
    was built for and the role chosen for it. *)
Record Placement : Type := mkPlacement {
  pl_cell : Z * Z * Z;
  pl_axis : string;
  pl_n : Z;
  pl_center : Vec3;
  pl_role : Role
}.

(** Exceptions that escape [generate_puzzle_from_stl]. *)
Inductive Exception : Type :=
| OSError          (* os.makedirs *)
| LoadError        (* trimesh.load_mesh *)
| MeshError        (* cleaning or exporting the input mesh *)
| ValueError       (* numpy: negative sample count, seed out of range *)
| TypeError        (* mesh.bounds is None: bounds[0] at line 118 *)
| SavefigError.    (* plt.savefig *)

Inductive Result (A : Type) : Type :=
| Ok (a : A)
| Raise (e : Exception).
Arguments Ok {A} a.
Arguments Raise {A} e.

Definition bind {A B : Type} (r : Result A) (k : A -> Result B) : Result B :=
  match r with
  | Ok a => k a
  | Raise e => Raise e
  end.

(** A call that raises [e] when the collaborator fails. *)
Definition orRaise {A : Type} (o : option A) (e : Exception) : Result A :=
  match o with
  | Some a => Ok a
  | None => Raise e
  end.

Definition check (b : bool) (e : Exception) : Result unit :=
  if b then Ok tt else Raise e.

Declare Scope result_scope.
Delimit Scope result_scope with result.
Notation "x <- e ;; k" := (bind e (fun x => k))
  (at level 61, e at next level, right associativity) : result_scope.
Notation "' pat <- e ;; k" := (bind e (fun x => match x with pat => k end))
  (at level 61, pat pattern, e at next level, right associativity) : result_scope.

(** The body of a [try] whose statements may each raise. *)
Definition obind {A B : Type} (o : option A) (k : A -> option B) : option B :=
  match o with
  | Some a => k a
  | None => None
  end.

(** The arguments of [update_progress]. *)
Inductive StepMsg : Type :=
| LoadingAndCleaningMesh
| FilledMeshHoles
| HoleFillingFailed
| MeshCleaningComplete
| CalculatingGridDivisions
| StartingPuzzlePieceGeneration
| GeneratingPiece (i j k : Z)
| ExportedPuzzlePieces (piece_count : Z)
| Generating3DPreviews
| PreviewsGenerated
| FinalizingOutput.

Inductive InfoMsg : Type :=
| SkippedEmptyIntersection (i j k : Z)
| BooleanError (i j k : Z)
| InterlockError (face : string) (i j k : Z)
| ExportedSuccessfully (i j k : Z)
| ExportFailed (i j k : Z)
| VisualizationWarning (idx : Z)
| SavedView (idx : Z).

Inductive Event : Type :=
| Step (step : StepMsg) (progress : Q)
| PieceInfo (piece_info : InfoMsg).

(** The parameters of [generate_puzzle_from_stl] ([progress_callback] is the
    log). *)
Record Params : Type := mkParams {
  input_stl_path : string;
  divisions : Z * Z * Z;
  locks_per_face : Z;
  cyl_radius : Q;
  cyl_height : Q;
  sphere_radius : Q;
  socket_tolerance : Q;
  seed : Z;
  output_dir : string
}.

(** The value of ["success_rate"]: [Percent1f x] is the string
    [f"{x:.1f}%"], [ZeroPercent] the string ["0%"]. *)
Inductive SuccessRate : Type :=
| Percent1f (x : Q)
| ZeroPercent.

(** The returned dictionaries. *)
Record MeshInfo : Type := mkMeshInfo {
  bounds : Vec3 * Vec3;
  watertight : bool;
  filled_mesh_file : string;
  piece_count : Z;
  total_possible_pieces : Z;
  success_rate : SuccessRate
}.

Record Report : Type := mkReport {
  piece_paths : list string;
  view_image_paths : list string;
  mesh_info : MeshInfo
}.

(** ** Collaborators *)

(** trimesh.  In-place mutators ([apply_translation], [process], ...) return
    the mutated solid.
    [mesh_bounds] is [mesh.bounds]: [None] for a mesh without faces. *)
Class Trimesh : Type := {
  Solid : Type;
  load_mesh : string -> option Solid;
  remove_duplicate_faces : Solid -> option Solid;
  remove_degenerate_faces : Solid -> option Solid;
  fill_holes : Solid -> option Solid;
  process : Solid -> option Solid;
  export : Solid -> string -> bool;
  mesh_bounds : Solid -> option (Vec3 * Vec3);
  is_watertight : Solid -> bool;
  intersection : Solid -> Solid -> option Solid;
  is_empty : Solid -> bool;
  creation_cylinder : Q -> Q -> Z -> Solid;
  creation_icosphere : Z -> Q -> Solid;
  creation_box : Vec3 -> Solid;
  apply_translation : Solid -> Vec3 -> Solid;
  apply_scale : Solid -> Q -> Solid;
  apply_transform : Solid -> Matrix -> Solid;
  boolean_union : list Solid -> option Solid;
  boolean_difference : list Solid -> option Solid;
  util_concatenate : list Solid -> Solid
}.

(** The [random] module ([Gen] is the state of its hidden generator,
    [seed_state] what [random.seed] sets it to, [random] one draw in [0, 1))
    and [numpy.random.seed], which only accepts or rejects its argument: the
    pipeline never draws from numpy's generator. *)
Class PyRandom : Type := {
  Gen : Type;
  seed_state : Z -> Gen;
  random : Gen -> Q * Gen;
  np_random_seed : Z -> bool
}.

(** matplotlib: a colour map sample, drawing one piece
    ([submesh.triangles], [Poly3DCollection], [ax.add_collection3d]) and
    [plt.savefig].  The other pyplot calls are taken to succeed. *)
Class Pyplot `{Trimesh} : Type := {
  Color : Type;
  cm_tab20 : Q -> Color;
  add_collection3d : Solid -> Color -> bool;
  savefig : string -> bool
}.

(** The file system. *)
Class OS : Type := {
  makedirs : string -> bool
}.

(** ** backend.py: [make_interlock_hybrid] (lines 11-60) *)

Section Interlock.
Context `{Trimesh}.
Open Scope Q_scope.

Definition make_interlock_hybrid (center : Vec3) (axis : string)
    (cyl_radius cyl_height sphere_radius : Q)
    (socket : bool) (tolerance : Q) (flip_dir : bool) : Solid :=
  let cyl := creation_cylinder cyl_radius cyl_height 24 in
  let cyl := apply_translation cyl (0, 0, cyl_height / 2) in
  let sphere := creation_icosphere 2 sphere_radius in
  let sphere := apply_translation sphere (0, 0, cyl_height) in
  let hybrid :=
    match boolean_union [cyl; sphere] with
    | Some u => u
    | None => util_concatenate [cyl; sphere]
    end in
  let hybrid := if socket then apply_scale hybrid tolerance else hybrid in
  let hybrid :=
    if (axis =? "x")%string then
      apply_transform hybrid (rotation_matrix_half_pi (0, 1, 0))
    else if (axis =? "y")%string then
      apply_transform hybrid (rotation_matrix_half_pi (1, 0, 0))
    else hybrid in
  let direction := if negb flip_dir then -1 else 1 in
  let offset := cyl_height * 0.8 * direction in
  let hybrid :=
    if (axis =? "x")%string then apply_translation hybrid (offset, 0, 0)
    else if (axis =? "y")%string then apply_translation hybrid (0, offset, 0)
    else if (axis =? "z")%string then apply_translation hybrid (0, 0, offset)
    else hybrid in
  apply_translation hybrid center.

End Interlock.

(** ** backend2.py: [make_interlock_hybrid] (lines 11-60) *)

Module Backend2.
Section Interlock.
Context `{Trimesh}.
Open Scope Q_scope.

Definition make_interlock_hybrid (center : Vec3) (axis : string)
    (cyl_radius cyl_height sphere_radius : Q)
    (socket : bool) (tolerance : Q) (flip_dir : bool) : Solid :=
  let cyl := creation_cylinder cyl_radius cyl_height 24 in
  let cyl := apply_translation cyl (0, 0, cyl_height / 2) in
  let sphere := creation_icosphere 2 sphere_radius in
  let sphere := apply_translation sphere (0, 0, cyl_height) in
  let hybrid :=
    match boolean_union [cyl; sphere] with
    | Some u => u
    | None => util_concatenate [cyl; sphere]
    end in
  let hybrid := if socket then apply_scale hybrid tolerance else hybrid in
  let hybrid :=
    if (axis =? "x")%string then
      apply_transform hybrid (rotation_matrix_half_pi (0, 1, 0))
    else if (axis =? "y")%string then
      apply_transform hybrid (rotation_matrix_half_pi (1, 0, 0))
    else hybrid in
  let direction := if negb flip_dir then -1 else 1 in
  let offset := cyl_height * 0.8 * direction in
  let hybrid :=
    if (axis =? "x")%string then apply_translation hybrid (offset, 0, 0)
    else if (axis =? "y")%string then apply_translation hybrid (0, offset, 0)
    else if (axis =? "z")%string then apply_translation hybrid (0, 0, offset)
    else hybrid in
  apply_translation hybrid center.

End Interlock.
End Backend2.

(** ** FaceRoleAssignment, as the specification words it *)

(** [is_key = ((i+j+k) % 2 == 0) XOR (n % 2 == 1)]. *)
Definition is_key (i j k n : Z) : bool :=
  xorb ((i + j + k) mod 2 =? 0) (n mod 2 =? 1).

Definition role_of (key : bool) : Role := if key then Key else Socket.


(** ** backend.py: [generate_puzzle_from_stl] (lines 63-364) *)

Section Pipeline.
Context `{TM : Trimesh} `{RNG : PyRandom} `{PLT : @Pyplot TM} `{FS : OS}.

(** The variables the piece loop mutates (lines 132-137), the hidden
    generator of [random], the [update_progress] calls made so far, and the
    centers built so far.  The fields carry the prefix [st_] because the
    returned dictionaries use the same names. *)
Record State : Type := mkState {
  st_rng : Gen;
  st_piece_meshes : list Solid;
  st_piece_paths : list string;
  st_piece_count : Z;
  st_completed_pieces : Z;
  st_centers : list Placement;
  st_log : list Event
}.

Definition set_rng (s : State) (g : Gen) : State :=
  mkState g (st_piece_meshes s) (st_piece_paths s) (st_piece_count s)
          (st_completed_pieces s) (st_centers s) (st_log s).

Definition update_progress (s : State) (e : Event) : State :=
  mkState (st_rng s) (st_piece_meshes s) (st_piece_paths s) (st_piece_count s)
          (st_completed_pieces s) (st_centers s) (st_log s ++ [e]).

Definition record_center (s : State) (c : Placement) : State :=
  mkState (st_rng s) (st_piece_meshes s) (st_piece_paths s) (st_piece_count s)
          (st_completed_pieces s) (st_centers s ++ [c]) (st_log s).

(** [completed_pieces += 1] *)
Definition incr_completed (s : State) : State :=
  mkState (st_rng s) (st_piece_meshes s) (st_piece_paths s) (st_piece_count s)
          (st_completed_pieces s + 1) (st_centers s) (st_log s).

(** Lines 277-279: [piece_meshes.append], [piece_paths.append],
    [piece_count += 1]. *)
Definition register_piece (s : State) (submesh : Solid) (filename : string)
  : State :=
  mkState (st_rng s) (st_piece_meshes s ++ [submesh])
          (st_piece_paths s ++ [filename]) (st_piece_count s + 1)
          (st_completed_pieces s) (st_centers s) (st_log s).

(** [random.uniform(a, b)] is [a + (b - a) * random()]. *)
Definition uniform (a b : Q) (g : Gen) : Q * Gen :=
  let (u, g') := random g in ((a + (b - a) * u)%Q, g').

(** [cuts[i]] for an index inside the sequence. *)
Definition getitem (cuts : list Q) (i : Z) : Q := nth (Z.to_nat i) cuts 0%Q.

Section Cell.
Variable p : Params.
Variables i j k : Z.
Variables x0 x1 y0 y1 z0 z1 : Q.
Open Scope Q_scope.

(** Lines 173-200: one instance [n] on the X face. *)
Definition x_interlock (acc : Solid * State) (n : Z) : Solid * State :=
  let (submesh, s) := acc in
  let (cy, g) := uniform (y0 + 0.2 * (y1 - y0)) (y1 - 0.2 * (y1 - y0))
                         (st_rng s) in
  let (cz, g) := uniform (z0 + 0.2 * (z1 - z0)) (z1 - 0.2 * (z1 - z0)) g in
  let center := (x1, cy, cz) in
  let (role, attempt) :=
    if xorb ((i + j + k) mod 2 =? 0)%Z (n mod 2 =? 1)%Z then
      (Key,
       boolean_union
         [submesh;
          make_interlock_hybrid center "x" (cyl_radius p) (cyl_height p)
            (sphere_radius p) false 1.05 false])
    else
      (Socket,
       boolean_difference
         [submesh;
          make_interlock_hybrid center "x" (cyl_radius p) (cyl_height p)
            (sphere_radius p) true (socket_tolerance p) true]) in
  let s := record_center (set_rng s g) (mkPlacement (i, j, k) "x" n center role) in
  match attempt with
  | Some submesh' => (submesh', s)
  | None => (submesh, update_progress s (PieceInfo (InterlockError "X" i j k)))
  end.

(** Lines 206-233: one instance [n] on the Y face. *)
Definition y_interlock (acc : Solid * State) (n : Z) : Solid * State :=
  let (submesh, s) := acc in
  let (cx, g) := uniform (x0 + 0.2 * (x1 - x0)) (x1 - 0.2 * (x1 - x0))
                         (st_rng s) in
  let (cz, g) := uniform (z0 + 0.2 * (z1 - z0)) (z1 - 0.2 * (z1 - z0)) g in
  let center := (cx, y1, cz) in
  let (role, attempt) :=
    if xorb ((i + j + k) mod 2 =? 0)%Z (n mod 2 =? 1)%Z then
      (Key,
       boolean_union
         [submesh;
          make_interlock_hybrid center "y" (cyl_radius p) (cyl_height p)
            (sphere_radius p) false 1.05 false])
    else
      (Socket,
       boolean_difference
         [submesh;
          make_interlock_hybrid center "y" (cyl_radius p) (cyl_height p)
            (sphere_radius p) true (socket_tolerance p) true]) in
  let s := record_center (set_rng s g) (mkPlacement (i, j, k) "y" n center role) in
  match attempt with
  | Some submesh' => (submesh', s)
  | None => (submesh, update_progress s (PieceInfo (InterlockError "Y" i j k)))
  end.

(** Lines 239-266: one instance [n] on the Z face. *)
Definition z_interlock (acc : Solid * State) (n : Z) : Solid * State :=
  let (submesh, s) := acc in
  let (cx, g) := uniform (x0 + 0.2 * (x1 - x0)) (x1 - 0.2 * (x1 - x0))
                         (st_rng s) in
  let (cy, g) := uniform (y0 + 0.2 * (y1 - y0)) (y1 - 0.2 * (y1 - y0)) g in
  let center := (cx, cy, z1) in
  let (role, attempt) :=
    if xorb ((i + j + k) mod 2 =? 0)%Z (n mod 2 =? 1)%Z then
      (Key,
       boolean_union
         [submesh;
          make_interlock_hybrid center "z" (cyl_radius p) (cyl_height p)
            (sphere_radius p) false 1.05 false])
    else
      (Socket,
       boolean_difference
         [submesh;
          make_interlock_hybrid center "z" (cyl_radius p) (cyl_height p)
            (sphere_radius p) true (socket_tolerance p) true]) in
  let s := record_center (set_rng s g) (mkPlacement (i, j, k) "z" n center role) in
  match attempt with
  | Some submesh' => (submesh', s)
  | None => (submesh, update_progress s (PieceInfo (InterlockError "Z" i j k)))
  end.

Variables nx ny nz : Z.

(** Lines 170-172, 203-205, 236-238: the three face loops. *)
Definition x_face (acc : Solid * State) : Solid * State :=
  if (i <? nx - 1)%Z
  then fold_left x_interlock (range (locks_per_face p)) acc
  else acc.

Definition y_face (acc : Solid * State) : Solid * State :=
  if (j <? ny - 1)%Z
  then fold_left y_interlock (range (locks_per_face p)) acc
  else acc.

Definition z_face (acc : Solid * State) : Solid * State :=
  if (k <? nz - 1)%Z
  then fold_left z_interlock (range (locks_per_face p)) acc
  else acc.

(** Lines 272-276, the statements of the export [try] up to the export
    itself: the cleaned solid, or [None] when one of them raises. *)
Definition clean_and_export (submesh : Solid) (filename : string)
  : option Solid :=
  obind (process submesh) (fun submesh =>
  obind (remove_degenerate_faces submesh) (fun submesh =>
  obind (remove_duplicate_faces submesh) (fun submesh =>
  if export submesh filename then Some submesh else None))).

(** Lines 268-282. *)
Definition export_piece (acc : Solid * State) : State :=
  let (submesh, s) := acc in
  let filename :=
    os_path_join (output_dir p)
      ("piece_" ++ str i ++ "_" ++ str j ++ "_" ++ str k ++ ".stl") in
  match clean_and_export submesh filename with
  | Some submesh' =>
      update_progress (register_piece s submesh' filename)
                      (PieceInfo (ExportedSuccessfully i j k))
  | None => update_progress s (PieceInfo (ExportFailed i j k))
  end.

End Cell.

(** Lines 144-284: the body of the innermost loop for cell [(i, j, k)]. *)
Definition process_cell (p : Params) (mesh : Solid)
    (nx ny nz total_pieces : Z) (x_cuts y_cuts z_cuts : list Q)
    (s : State) (i j k : Z) : State :=
  let piece_progress :=
    (25 + (inject_Z (st_completed_pieces s) / inject_Z total_pieces) * 60)%Q in
  let s := update_progress s (Step (GeneratingPiece i j k) piece_progress) in
  let x0 := getitem x_cuts i in
  let x1 := getitem x_cuts (i + 1) in
  let y0 := getitem y_cuts j in
  let y1 := getitem y_cuts (j + 1) in
  let z0 := getitem z_cuts k in
  let z1 := getitem z_cuts (k + 1) in
  let cube := creation_box (x1 - x0, y1 - y0, z1 - z0)%Q in
  let cube :=
    apply_translation cube ((x1 + x0) / 2, (y1 + y0) / 2, (z1 + z0) / 2)%Q in
  match intersection mesh cube with
  | Some submesh =>
      if is_empty submesh then
        update_progress (incr_completed s)
                        (PieceInfo (SkippedEmptyIntersection i j k))
      else
        let acc := x_face p i j k x1 y0 y1 z0 z1 nx (submesh, s) in
        let acc := y_face p i j k x0 x1 y1 z0 z1 ny acc in
        let acc := z_face p i j k x0 x1 y0 y1 z1 nz acc in
        incr_completed (export_piece p i j k acc)
  | None =>
      update_progress (incr_completed s) (PieceInfo (BooleanError i j k))
  end.

(** Lines 141-143: [i], [j], [k] in nested ascending order. *)
Definition piece_loop (p : Params) (mesh : Solid)
    (nx ny nz total_pieces : Z) (x_cuts y_cuts z_cuts : list Q)
    (s : State) : State :=
  fold_left (fun s i =>
    fold_left (fun s j =>
      fold_left (fun s k =>
        process_cell p mesh nx ny nz total_pieces x_cuts y_cuts z_cuts s i j k)
        (range nz) s)
      (range ny) s)
    (range nx) s.

(** [enumerate(l)] *)
Definition enumerate {A : Type} (l : list A) : list (Z * A) :=
  combine (range (Z.of_nat (length l))) l.

(** What has been added to the 3D axes: each collection with its colour. *)
Definition Figure : Type := list (Solid * Color).

(** Lines 298-311: drawing one registered piece; an exception inside the
    [try] (also the [IndexError] of [colors[...]]) is a warning. *)
Definition draw_piece (colors : list Color)
    (acc : Figure * list Event) (it : Z * Solid) : Figure * list Event :=
  let (fig, lg) := acc in
  let (idx, submesh) := it in
  match nth_error colors (Z.to_nat (idx mod Z.of_nat (length colors))) with
  | Some color =>
      if add_collection3d submesh color
      then (fig ++ [(submesh, color)], lg)
      else (fig, lg ++ [PieceInfo (VisualizationWarning idx)])
  | None => (fig, lg ++ [PieceInfo (VisualizationWarning idx)])
  end.

(** Lines 328-334. *)
Definition view_angles : list (Z * Z) :=
  [(20, 30); (90, 0); (0, 0); (0, 90); (45, 45)].

(** Lines 336-344: an exception of [plt.savefig] is not caught. *)
Fixpoint save_views (output_dir : string) (views : list (Z * (Z * Z)))
    (view_image_paths : list string) (lg : list Event)
  : Result (list string * list Event) :=
  match views with
  | [] => Ok (view_image_paths, lg)
  | (idx, (elev, azim)) :: views' =>
      let view_path :=
        os_path_join output_dir
          ("puzzle_view_" ++ str (idx + 1) ++ "_e" ++ str elev
             ++ "_a" ++ str azim ++ ".png") in
      if savefig view_path
      then save_views output_dir views' (view_image_paths ++ [view_path])
                      (lg ++ [PieceInfo (SavedView (idx + 1))])
      else Raise SavefigError
  end.

(** Lines 289-347: the previews; nothing is drawn or saved when no piece
    was registered. *)
Definition render (p : Params) (piece_meshes : list Solid) (lg : list Event)
  : Result (list string * Figure * list Event) :=
  if (0 <? Z.of_nat (length piece_meshes))%Z then
    let lg := lg ++ [Step Generating3DPreviews 90] in
    (samples <- orRaise (linspace 0 1 (Z.max 1 (Z.of_nat (length piece_meshes))))
                        ValueError ;;
     let colors := map cm_tab20 samples in
     let (fig, lg) := fold_left (draw_piece colors) (enumerate piece_meshes)
                                ([], lg) in
     '(view_image_paths, lg) <-
        save_views (output_dir p) (enumerate view_angles) [] lg ;;
     Ok (view_image_paths, fig, lg ++ [Step PreviewsGenerated 95]))%result
  else Ok ([], [], lg).

(** What a run that returns leaves behind: the returned dictionary, the
    generator of [random], the centers built, the registered pieces
    ([piece_meshes]), the collections drawn and the progress log. *)
Record Run : Type := mkRun {
  report : Report;
  final_rng : Gen;
  run_centers : list Placement;
  registered : list Solid;
  figure : Figure;
  run_log : list Event
}.

(** Lines 95-113: the output directory, then loading, cleaning and
    exporting the input mesh.  A failure of [fill_holes] is caught; every
    other failure escapes. *)
Definition load_and_clean (p : Params)
  : Result (Solid * string * list Event) :=
  (_ <- check (makedirs (output_dir p)) OSError ;;
   let lg := [Step LoadingAndCleaningMesh 5] in
   mesh <- orRaise (load_mesh (input_stl_path p)) LoadError ;;
   mesh <- orRaise (remove_duplicate_faces mesh) MeshError ;;
   mesh <- orRaise (remove_degenerate_faces mesh) MeshError ;;
   let (mesh, lg) :=
     match fill_holes mesh with
     | Some filled => (filled, lg ++ [Step FilledMeshHoles 10])
     | None => (mesh, lg ++ [Step HoleFillingFailed 10])
     end in
   mesh <- orRaise (process mesh) MeshError ;;
   let filled_mesh_file := os_path_join (output_dir p) "input_filled.stl" in
   _ <- check (export mesh filled_mesh_file) MeshError ;;
   Ok (mesh, filled_mesh_file, lg ++ [Step MeshCleaningComplete 15]))%result.

(** Lines 117-125: the three cut sequences. *)
Definition grid_cuts (bounds : Vec3 * Vec3) (divisions : Z * Z * Z)
  : Result (list Q * list Q * list Q) :=
  let '((x_min, y_min, z_min), (x_max, y_max, z_max)) := bounds in
  let '(nx, ny, nz) := divisions in
  (x_cuts <- orRaise (linspace x_min x_max (nx + 1)) ValueError ;;
   y_cuts <- orRaise (linspace y_min y_max (ny + 1)) ValueError ;;
   z_cuts <- orRaise (linspace z_min z_max (nz + 1)) ValueError ;;
   Ok (x_cuts, y_cuts, z_cuts))%result.

(** Lines 95-364.  [g0] is the state of the generator of [random] when the
    function is called; line 128 overwrites it. *)
Definition generate_puzzle_from_stl (p : Params) (g0 : Gen) : Result Run :=
  ('(mesh, filled_mesh_file, lg) <- load_and_clean p ;;
   let lg := lg ++ [Step CalculatingGridDivisions 20] in
   bounds <- orRaise (mesh_bounds mesh) TypeError ;;
   let '(nx, ny, nz) := divisions p in
   '(x_cuts, y_cuts, z_cuts) <- grid_cuts bounds (nx, ny, nz) ;;
   let g := seed_state (seed p) in
   _ <- check (np_random_seed (seed p)) ValueError ;;
   let total_pieces := nx * ny * nz in
   let s := mkState g [] [] 0 0 []
              (lg ++ [Step StartingPuzzlePieceGeneration 25]) in
   let s := piece_loop p mesh nx ny nz total_pieces x_cuts y_cuts z_cuts s in
   let lg := st_log s ++ [Step (ExportedPuzzlePieces (st_piece_count s)) 85] in
   '(view_image_paths, fig, lg) <- render p (st_piece_meshes s) lg ;;
   let lg := lg ++ [Step FinalizingOutput 100] in
   let mesh_info :=
     mkMeshInfo bounds (is_watertight mesh) filled_mesh_file
       (st_piece_count s) total_pieces
       (if 0 <? total_pieces
        then Percent1f (inject_Z (st_piece_count s) / inject_Z total_pieces * 100)%Q
        else ZeroPercent) in
   Ok (mkRun (mkReport (st_piece_paths s) view_image_paths mesh_info)
             (st_rng s) (st_centers s) (st_piece_meshes s) fig lg))%result.

(** ** Observations used to state the properties *)

(** [total_pieces] (line 136). *)
Definition total_pieces_of (p : Params) : Z :=
  let '(nx, ny, nz) := divisions p in nx * ny * nz.

(** The state after the piece loop of a run whose input mesh, log and cut
    sequences are given. *)
Definition loop_state (p : Params) (mesh : Solid) (lg : list Event)
    (x_cuts y_cuts z_cuts : list Q) : State :=
  let '(nx, ny, nz) := divisions p in
  piece_loop p mesh nx ny nz (nx * ny * nz) x_cuts y_cuts z_cuts
    (mkState (seed_state (seed p)) [] [] 0 0 []
       ((lg ++ [Step CalculatingGridDivisions 20])
          ++ [Step StartingPuzzlePieceGeneration 25])).

(** The value of ["success_rate"] (line 357). *)
Definition success_rate_of (piece_count total_pieces : Z) : SuccessRate :=
  if 0 <? total_pieces
  then Percent1f (inject_Z piece_count / inject_Z total_pieces * 100)%Q
  else ZeroPercent.

(** What the run returns once the piece loop has left [s] and the previews
    are done. *)
Definition finish (p : Params) (mesh : Solid) (bounds : Vec3 * Vec3)
    (filled_mesh_file : string)
    (s : State) (rendered : list string * Figure * list Event) : Run :=
  let '(view_image_paths, fig, lg) := rendered in
  mkRun
    (mkReport (st_piece_paths s) view_image_paths
       (mkMeshInfo bounds (is_watertight mesh) filled_mesh_file
          (st_piece_count s) (total_pieces_of p)
          (success_rate_of (st_piece_count s) (total_pieces_of p))))
    (st_rng s) (st_centers s) (st_piece_meshes s) fig
    (lg ++ [Step FinalizingOutput 100]).

(** The generator after [n] more draws. *)
Definition advance (n : nat) (g : Gen) : Gen :=
  Nat.iter n (fun g => snd (random g)) g.

(** The boolean application PieceAssembler makes for an interlock
    instance: [union(piece, key)] for a Key, [difference(piece, socket)]
    for a Socket, the socket scaled by the tolerance and flipped. *)
Definition apply_interlock (p : Params) (c : Placement) (piece : Solid)
  : option Solid :=
  match pl_role c with
  | Key =>
      boolean_union
        [piece;
         make_interlock_hybrid (pl_center c) (pl_axis c) (cyl_radius p)
           (cyl_height p) (sphere_radius p) false 1.05%Q false]
  | Socket =>
      boolean_difference
        [piece;
         make_interlock_hybrid (pl_center c) (pl_axis c) (cyl_radius p)
           (cyl_height p) (sphere_radius p) true (socket_tolerance p) true]
  end.

(** What an interlock step returns, given the center [c] it built, the
    generator [g] after its two draws and the face it reports errors for. *)
Definition interlock_outcome (p : Params) (face : string) (i j k : Z)
    (piece : Solid) (s : State) (c : Placement) (g : Gen) : Solid * State :=
  let s := record_center (set_rng s g) c in
  match apply_interlock p c piece with
  | Some result => (result, s)
  | None => (piece, update_progress s (PieceInfo (InterlockError face i j k)))
  end.

(** What one interlock step may do to [(piece, s)]: it builds exactly one
    center [c], for the given cell, face axis and instance; the piece
    becomes the result of the boolean application, or stays as it was when
    the application raises, which is then reported; the generator has made
    two draws; nothing else changes. *)
Definition interlock_step_ok (p : Params) (cell : Z * Z * Z)
    (axis face : string) (n : Z) (before after : Solid * State) : Prop :=
  let (piece, s) := before in
  let (piece', s') := after in
  exists c : Placement,
    st_centers s' = st_centers s ++ [c] /\
    pl_cell c = cell /\ pl_axis c = axis /\ pl_n c = n /\
    st_rng s' = advance 2 (st_rng s) /\
    st_piece_meshes s' = st_piece_meshes s /\
    st_piece_paths s' = st_piece_paths s /\
    st_piece_count s' = st_piece_count s /\
    st_completed_pieces s' = st_completed_pieces s /\
    match apply_interlock p c piece with
    | Some result => piece' = result /\ st_log s' = st_log s
    | None =>
        piece' = piece /\
        st_log s' =
          st_log s ++ [PieceInfo (InterlockError face (fst (fst cell))
                                                 (snd (fst cell)) (snd cell))]
    end.

(** The face and instance of every center a cell builds, in the order of
    the ordering contract: X, then Y, then Z, each only when that neighbour
    exists, instances in increasing [n]. *)
Definition expected_order (p : Params) (nx ny nz i j k : Z)
  : list (string * Z) :=
  (if i <? nx - 1 then map (pair "x"%string) (range (locks_per_face p)) else [])
  ++ (if j <? ny - 1 then map (pair "y"%string) (range (locks_per_face p)) else [])
  ++ (if k <? nz - 1 then map (pair "z"%string) (range (locks_per_face p)) else []).

(** The centers built between two states. *)
Definition placed_since (s s' : State) : list Placement :=
  skipn (length (st_centers s)) (st_centers s').

(** The role of the single center built between [before] and [after]. *)
Definition placed_role (before : State) (after : Solid * State)
  : option Role :=
  match placed_since before (snd after) with
  | [c] => Some (pl_role c)
  | _ => None
  end.

(** Two states with the same registered pieces and counters. *)
Definition same_pieces (s s' : State) : Prop :=
  st_piece_meshes s' = st_piece_meshes s /\
  st_piece_paths s' = st_piece_paths s /\
  st_piece_count s' = st_piece_count s /\
  st_completed_pieces s' = st_completed_pieces s.

(** The face axis and instance of a center. *)
Definition label (c : Placement) : string * Z := (pl_axis c, pl_n c).

(** From [s] to [s'] some centers were built, with two draws each and no
    other draw. *)
Definition two_draws_per_center (s s' : State) : Prop :=
  exists cs : list Placement,
    st_centers s' = st_centers s ++ cs /\
    st_rng s' = advance (2 * length cs) (st_rng s).

(** [piece_count] counts the registered pieces and their paths. *)
Definition counted (s : State) : Prop :=
  Z.of_nat (length (st_piece_meshes s)) = st_piece_count s /\
  length (st_piece_paths s) = length (st_piece_meshes s).

(** The three face loops of one cell. *)
Definition faces (p : Params) (nx ny nz i j k : Z)
    (x0 x1 y0 y1 z0 z1 : Q) (acc : Solid * State) : Solid * State :=
  z_face p i j k x0 x1 y0 y1 z1 nz
    (y_face p i j k x0 x1 y1 z0 z1 ny
       (x_face p i j k x1 y0 y1 z0 z1 nx acc)).

(** The box of cell [(i, j, k)] (lines 147-156). *)
Definition cell_cube (x_cuts y_cuts z_cuts : list Q) (i j k : Z) : Solid :=
  let x0 := getitem x_cuts i in
  let x1 := getitem x_cuts (i + 1) in
  let y0 := getitem y_cuts j in
  let y1 := getitem y_cuts (j + 1) in
  let z0 := getitem z_cuts k in
  let z1 := getitem z_cuts (k + 1) in
  apply_translation
    (creation_box (x1 - x0, y1 - y0, z1 - z0)%Q)
    ((x1 + x0) / 2, (y1 + y0) / 2, (z1 + z0) / 2)%Q.

(** The state in which the face loops of cell [(i, j, k)] start: [s] with
    the progress message of line 145. *)
Definition cell_start (total_pieces : Z) (s : State) (i j k : Z) : State :=
  update_progress s
    (Step (GeneratingPiece i j k)
          (25 + (inject_Z (st_completed_pieces s) / inject_Z total_pieces) * 60)%Q).

(** The face loops of cell [(i, j, k)] on the grid. *)
Definition cell_faces (p : Params) (nx ny nz : Z)
    (x_cuts y_cuts z_cuts : list Q) (i j k : Z) (acc : Solid * State)
  : Solid * State :=
  faces p nx ny nz i j k
    (getitem x_cuts i) (getitem x_cuts (i + 1))
    (getitem y_cuts j) (getitem y_cuts (j + 1))
    (getitem z_cuts k) (getitem z_cuts (k + 1)) acc.

(** The file a piece is exported to. *)
Definition piece_filename (p : Params) (i j k : Z) : string :=
  os_path_join (output_dir p)
    ("piece_" ++ str i ++ "_" ++ str j ++ "_" ++ str k ++ ".stl").


(** The file of view [idx] (lines 338-341). *)
Definition view_path (output_dir : string) (view : Z * (Z * Z)) : string :=
  let '(idx, (elev, azim)) := view in
  os_path_join output_dir
    ("puzzle_view_" ++ str (idx + 1) ++ "_e" ++ str elev
       ++ "_a" ++ str azim ++ ".png").



Definition centers_of (r : Result Run) : option (list Placement) :=
  match r with
  | Ok run => Some (run_centers run)
  | Raise _ => None
  end.

Definition piece_count_of (r : Result Run) : option Z :=
  match r with
  | Ok run => Some (piece_count (mesh_info (report run)))
  | Raise _ => None
  end.

(** A run that raises instead of returning a report. *)
Definition rejected (r : Result Run) : Prop := exists e, r = Raise e.

End Pipeline.

(** ** The statements of the specification that the code is compared with *)

(** GridPartitioner, as specified: for bounds [(min, max)] and [n]
    divisions the cut sequence exists, has [n + 1] entries, is strictly
    increasing and [cuts[t] = min + t * (max - min) / n]. *)
Definition cuts_as_specified (min max : Q) (n : Z) : Prop :=
  exists cuts : list Q,
    linspace min max (n + 1) = Some cuts /\
    length cuts = Z.to_nat (n + 1) /\
    strictly_increasing cuts /\
    forall t : nat, (t <= Z.to_nat n)%nat ->
      (nth t cuts 0 == min + inject_Z (Z.of_nat t) * (max - min) / inject_Z n)%Q.

(** Run statistics, as specified for divisions [(nx, ny, nz)]:
    [total_possible_pieces == nx*ny*nz],
    [0 <= piece_count <= total_possible_pieces] and
    [success_rate == piece_count/total_possible_pieces], reported as [0%]
    when [total_possible_pieces] is 0. *)
Definition statistics_as_specified (divisions : Z * Z * Z) (m : MeshInfo)
  : Prop :=
  let '(nx, ny, nz) := divisions in
  total_possible_pieces m = nx * ny * nz /\
  0 <= piece_count m <= total_possible_pieces m /\
  success_rate m =
    (if total_possible_pieces m =? 0 then ZeroPercent
     else Percent1f (inject_Z (piece_count m)
                     / inject_Z (total_possible_pieces m) * 100)%Q).

(** The declared constraints on the invocation parameters: each division
    count and [locks_per_face] at least 1, [socket_tolerance] above 1.0, a
    non-negative [seed]. *)
Definition within_constraints (p : Params) : Prop :=
  let '(nx, ny, nz) := divisions p in
  1 <= nx /\ 1 <= ny /\ 1 <= nz /\ 1 <= locks_per_face p /\
  (1 < socket_tolerance p)%Q /\ 0 <= seed p.

(** ** A symbolic collaborator

    Solids are the terms of the operations that built them, so that a run
    can be evaluated and its result read back; which calls raise is chosen by
    a [Faults] record.  The generator is a small linear congruential one. *)

Module Symbolic.

#[local] Unset Elimination Schemes.
Inductive Sym : Type :=
| Loaded (path : string)
| Cylinder (radius height : Q) (sections : Z)
| Icosphere (subdivisions : Z) (radius : Q)
| Box (extents : Vec3)
| Translated (s : Sym) (v : Vec3)
| Scaled (s : Sym) (factor : Q)
| Transformed (s : Sym) (m : Matrix)
| Union (l : list Sym)
| Difference (l : list Sym)
| Concatenated (l : list Sym)
| Intersection (a b : Sym)
| Cleaned (s : Sym).
#[local] Set Elimination Schemes.

Record Faults : Type := mkFaults {
  load_raises : string -> bool;
  union_raises : list Sym -> bool;
  difference_raises : list Sym -> bool;
  intersection_raises : Sym -> Sym -> bool;
  intersection_empty : Sym -> bool;
  process_raises : Sym -> bool;
  export_raises : Sym -> string -> bool;
  draw_raises : Sym -> bool;
  savefig_raises : string -> bool;
  loaded_bounds : option (Vec3 * Vec3)
}.

(** No call raises; the input solid is the unit cube. *)
Definition no_faults : Faults :=
  mkFaults (fun _ => false) (fun _ => false) (fun _ => false)
           (fun _ _ => false) (fun _ => false) (fun _ => false)
           (fun _ _ => false) (fun _ => false) (fun _ => false)
           (Some ((0, 0, 0), (1, 1, 1))%Q).

(** Cleaning a piece raises (the input mesh itself is cleaned without
    error). *)
Definition cleanup_raises : Faults :=
  mkFaults (fun _ => false) (fun _ => false) (fun _ => false)
           (fun _ _ => false) (fun _ => false)
           (fun s => match s with
                     | Intersection _ _ | Union _ | Difference _ => true
                     | _ => false
                     end)
           (fun _ _ => false) (fun _ => false) (fun _ => false)
           (Some ((0, 0, 0), (1, 1, 1))%Q).

(** Every boolean union and difference raises. *)
Definition booleans_raise : Faults :=
  mkFaults (fun _ => false) (fun _ => true) (fun _ => true)
           (fun _ _ => false) (fun _ => false) (fun _ => false)
           (fun _ _ => false) (fun _ => false) (fun _ => false)
           (Some ((0, 0, 0), (1, 1, 1))%Q).

Definition guard {A : Type} (raises : bool) (a : A) : option A :=
  if raises then None else Some a.

Definition trimesh (f : Faults) : Trimesh := {|
  Solid := Sym;
  load_mesh := fun path => guard (load_raises f path) (Loaded path);
  remove_duplicate_faces := fun s => Some s;
  remove_degenerate_faces := fun s => Some s;
  fill_holes := fun s => Some s;
  process := fun s => guard (process_raises f s) (Cleaned s);
  export := fun s path => negb (export_raises f s path);
  mesh_bounds := fun _ => loaded_bounds f;
  is_watertight := fun _ => true;
  intersection := fun a b =>
    guard (intersection_raises f a b) (Intersection a b);
  is_empty := fun s => intersection_empty f s;
  creation_cylinder := Cylinder;
  creation_icosphere := Icosphere;
  creation_box := Box;
  apply_translation := Translated;
  apply_scale := Scaled;
  apply_transform := Transformed;
  boolean_union := fun l => guard (union_raises f l) (Union l);
  boolean_difference := fun l => guard (difference_raises f l) (Difference l);
  util_concatenate := Concatenated
|}.

Definition lcg_modulus : Z := 64.

Definition lcg : PyRandom := {|
  Gen := Z;
  seed_state := fun seed => Z.abs seed mod lcg_modulus;
  random := fun g =>
    let g' := (5 * g + 3) mod lcg_modulus in
    (inject_Z g' / inject_Z lcg_modulus, g')%Q;
  np_random_seed := fun seed => (0 <=? seed) && negb (4294967296 <=? seed)
|}.

Definition pyplot (f : Faults) : @Pyplot (trimesh f) :=
  @Build_Pyplot (trimesh f) Q
    (fun sample => sample)
    (fun (s : Sym) _ => negb (draw_raises f s))
    (fun path => negb (savefig_raises f path)).

Definition os : OS := {| makedirs := fun _ => true |}.

(** [generate_puzzle_from_stl] against the symbolic collaborator. *)
Definition run (f : Faults) (p : Params) (g0 : Z)
  : Result (@Run (trimesh f) lcg (pyplot f)) :=
  @generate_puzzle_from_stl (trimesh f) lcg (pyplot f) os p g0.

(** The defaults of the signature (lines 64-72) with a given [divisions]. *)
Definition default_params (divisions : Z * Z * Z) : Params :=
  mkParams "input.stl" divisions 3 0.3 0.5 0.4 1.06 42 "printable_puzzle".

End Symbolic.

(** ** Further observations of the pipeline *)

From Stdlib Require DecimalPos DecimalZ.

Section Placements.
Context `{TM : Trimesh} `{RNG : PyRandom}.

(** The centers the three face steps build from the generator [g]
    (lines 173-177, 206-210, 239-243). *)
Definition x_center (x1 y0 y1 z0 z1 : Q) (g : Gen) : Vec3 :=
  let (cy, g) := uniform (y0 + 0.2 * (y1 - y0)) (y1 - 0.2 * (y1 - y0)) g in
  let (cz, _) := uniform (z0 + 0.2 * (z1 - z0)) (z1 - 0.2 * (z1 - z0)) g in
  (x1, cy, cz).

Definition y_center (x0 x1 y1 z0 z1 : Q) (g : Gen) : Vec3 :=
  let (cx, g) := uniform (x0 + 0.2 * (x1 - x0)) (x1 - 0.2 * (x1 - x0)) g in
  let (cz, _) := uniform (z0 + 0.2 * (z1 - z0)) (z1 - 0.2 * (z1 - z0)) g in
  (cx, y1, cz).

Definition z_center (x0 x1 y0 y1 z1 : Q) (g : Gen) : Vec3 :=
  let (cx, g) := uniform (x0 + 0.2 * (x1 - x0)) (x1 - 0.2 * (x1 - x0)) g in
  let (cy, _) := uniform (y0 + 0.2 * (y1 - y0)) (y1 - 0.2 * (y1 - y0)) g in
  (cx, cy, z1).

(** The generator draws in [0, 1), as [random.random()] does. *)
Definition unit_interval_generator : Prop :=
  forall g : Gen, (0 <= fst (random g) < 1)%Q.

End Placements.

(** A center is on an internal face of the grid: its cell is a grid cell
    that has a neighbour on the +side of the center's axis, its instance
    number is below [locks_per_face], and its role is the one of the parity
    rule. *)
Definition on_internal_face (p : Params) (c : Placement) : Prop :=
  let '(nx, ny, nz) := divisions p in
  let '(i, j, k) := pl_cell c in
  0 <= i < nx /\ 0 <= j < ny /\ 0 <= k < nz /\
  0 <= pl_n c < locks_per_face p /\
  (pl_axis c = "x"%string /\ i < nx - 1 \/
   pl_axis c = "y"%string /\ j < ny - 1 \/
   pl_axis c = "z"%string /\ k < nz - 1) /\
  pl_role c = role_of (is_key i j k (pl_n c)).

(** The cut coordinate [t] of an axis with bounds [(min, max)] and [n]
    divisions. *)
Definition cut (min max : Q) (n t : Z) : Q :=
  (min + inject_Z t * (max - min) / inject_Z n)%Q.

(** [c] is between [lo] and [hi] with a margin of 20% of [hi - lo] on both
    sides. *)
Definition in_margin (lo hi c : Q) : Prop :=
  (lo + 0.2 * (hi - lo) <= c <= hi - 0.2 * (hi - lo))%Q.

(** A center lies on the +face of its cell along its axis and inside the
    margin of that face in the two other directions. *)
Definition on_face_in_margin (bounds : Vec3 * Vec3) (divisions : Z * Z * Z)
    (c : Placement) : Prop :=
  let '((x_min, y_min, z_min), (x_max, y_max, z_max)) := bounds in
  let '(nx, ny, nz) := divisions in
  let '(i, j, k) := pl_cell c in
  let '(cx, cy, cz) := pl_center c in
  let xs := cut x_min x_max nx in
  let ys := cut y_min y_max ny in
  let zs := cut z_min z_max nz in
  if (pl_axis c =? "x")%string then
    Qeq cx (xs (i + 1)) /\ in_margin (ys j) (ys (j + 1)) cy
    /\ in_margin (zs k) (zs (k + 1)) cz
  else if (pl_axis c =? "y")%string then
    in_margin (xs i) (xs (i + 1)) cx /\ Qeq cy (ys (j + 1))
    /\ in_margin (zs k) (zs (k + 1)) cz
  else
    in_margin (xs i) (xs (i + 1)) cx /\ in_margin (ys j) (ys (j + 1)) cy
    /\ Qeq cz (zs (k + 1)).

(** A point inside a bounding box. *)
Definition inside_bounds (bounds : Vec3 * Vec3) (v : Vec3) : Prop :=
  let '((x_min, y_min, z_min), (x_max, y_max, z_max)) := bounds in
  let '(x, y, z) := v in
  (x_min <= x <= x_max /\ y_min <= y <= y_max /\ z_min <= z <= z_max)%Q.

(** Bounds whose minimum is below their maximum on every axis. *)
Definition ordered_bounds (bounds : Vec3 * Vec3) : Prop :=
  let '((x_min, y_min, z_min), (x_max, y_max, z_max)) := bounds in
  (x_min <= x_max /\ y_min <= y_max /\ z_min <= z_max)%Q.



Definition pieces_fail : Symbolic.Faults :=
  Symbolic.mkFaults (fun _ => false) (fun _ => true) (fun _ => true)
    (fun _ _ => false) (fun _ => false)
    (fun s => match s with
              | Symbolic.Intersection _ _ => true
              | _ => false
              end)
    (fun _ _ => false) (fun _ => true) (fun _ => false)
    (Some ((0, 0, 0), (1, 1, 1))%Q).

(** ** Observations of the progress log *)

(** The step and percentage of an [update_progress(step, progress)] call. *)
Definition announcement (e : Event) : list (StepMsg * Q) :=
  match e with
  | Step step progress => [(step, progress)]
  | PieceInfo _ => []
  end.

(** The cell of a report that closes a cell: skipped, boolean error,
    exported, or export failed. *)
Definition reported_cell (e : Event) : list (Z * Z * Z) :=
  match e with
  | PieceInfo (SkippedEmptyIntersection i j k)
  | PieceInfo (BooleanError i j k)
  | PieceInfo (ExportedSuccessfully i j k)
  | PieceInfo (ExportFailed i j k) => [(i, j, k)]
  | _ => []
  end.

(** The cell of an "exported successfully" report. *)
Definition exported_cell (e : Event) : list (Z * Z * Z) :=
  match e with
  | PieceInfo (ExportedSuccessfully i j k) => [(i, j, k)]
  | _ => []
  end.

Definition announcements (lg : list Event) : list (StepMsg * Q) :=
  flat_map announcement lg.

Definition steps_of (lg : list Event) : list StepMsg :=
  map fst (announcements lg).

Definition progress_values (lg : list Event) : list Q :=
  map snd (announcements lg).

Definition reported_cells (lg : list Event) : list (Z * Z * Z) :=
  flat_map reported_cell lg.

Definition exported_cells (lg : list Event) : list (Z * Z * Z) :=
  flat_map exported_cell lg.

(** The cells of the grid in the order the piece loop visits them. *)
Definition grid_cells (nx ny nz : Z) : list (Z * Z * Z) :=
  flat_map (fun i =>
    flat_map (fun j => map (fun k => (i, j, k)) (range nz)) (range ny))
    (range nx).

(** The percentage announced for the cell visited after [completed]
    others (line 144). *)
Definition piece_progress (total_pieces completed : Z) : Q :=
  (25 + (inject_Z completed / inject_Z total_pieces) * 60)%Q.

(** The announcements of the piece loop for [cells], the first of them
    visited after [completed] others. *)
Fixpoint cell_announcements (total_pieces completed : Z)
    (cells : list (Z * Z * Z)) : list (StepMsg * Q) :=
  match cells with
  | [] => []
  | (i, j, k) :: cells' =>
      (GeneratingPiece i j k, piece_progress total_pieces completed)
      :: cell_announcements total_pieces (completed + 1) cells'
  end.

(** A sequence of rationals that never decreases. *)
Fixpoint nondecreasing (l : list Q) : Prop :=
  match l with
  | [] => True
  | x :: tl =>
      match tl with
      | [] => True
      | y :: _ => (x <= y)%Q /\ nondecreasing tl
      end
  end.

(** [sub] is [l] with some elements left out. *)
Inductive subsequence {A : Type} : list A -> list A -> Prop :=
| subsequence_nil : subsequence [] []
| subsequence_skip (a : A) (sub l : list A) :
    subsequence sub l -> subsequence sub (a :: l)
| subsequence_take (a : A) (sub l : list A) :
    subsequence sub l -> subsequence (a :: sub) (a :: l).

(** The events a stage may add without closing a cell or announcing a
    step: the interlock errors of a cell, the notes of the previews. *)
Definition interlock_error_of (i j k : Z) (e : Event) : Prop :=
  exists face, e = PieceInfo (InterlockError face i j k).

Definition preview_note (e : Event) : Prop :=
  exists idx, e = PieceInfo (VisualizationWarning idx)
              \/ e = PieceInfo (SavedView idx).

(** [lg'] is [lg] followed by events that satisfy [note]. *)
Definition extended_by (note : Event -> Prop) (lg lg' : list Event) : Prop :=
  exists extra, lg' = lg ++ extra /\ Forall note extra.

(** What the face loops of cell [(i, j, k)] may do to the registered pieces
    and to the log: nothing but add interlock errors of that cell. *)
Definition quiet_faces `{TM : Trimesh} `{RNG : PyRandom} (i j k : Z)
    (s s' : State) : Prop :=
  same_pieces s s' /\
  extended_by (interlock_error_of i j k) (st_log s) (st_log s').

(** The body of the piece loop for one cell of [grid_cells]. *)
Definition visit_cell `{TM : Trimesh} `{RNG : PyRandom}
    (p : Params) (mesh : Solid) (nx ny nz total_pieces : Z)
    (x_cuts y_cuts z_cuts : list Q) (s : State) (c : Z * Z * Z) : State :=
  let '(i, j, k) := c in
  process_cell p mesh nx ny nz total_pieces x_cuts y_cuts z_cuts s i j k.

(** The file of a cell. *)
Definition cell_filename (p : Params) (c : Z * Z * Z) : string :=
  let '(i, j, k) := c in piece_filename p i j k.

(** The step announced for a cell (line 145). *)
Definition announced_cell (c : Z * Z * Z) : StepMsg :=
  let '(i, j, k) := c in GeneratingPiece i j k.

(** The steps a returned run announces, given the step of the hole
    filling and the number of exported pieces. *)
Definition expected_steps (hole : StepMsg) (nx ny nz piece_count : Z)
  : list StepMsg :=
  [LoadingAndCleaningMesh; hole; MeshCleaningComplete;
   CalculatingGridDivisions; StartingPuzzlePieceGeneration]
  ++ map announced_cell (grid_cells nx ny nz)
  ++ [ExportedPuzzlePieces piece_count]
  ++ (if 0 <? piece_count
      then [Generating3DPreviews; PreviewsGenerated] else [])
  ++ [FinalizingOutput].

(** The characters of [str z]: decimal digits and the minus sign. *)
Definition int_char (c : ascii) : Prop :=
  c = "-"%char \/ (48 <= nat_of_ascii c <= 57)%nat.

(** The [piece_info] messages of a log. *)
Definition infos_of (lg : list Event) : list InfoMsg :=
  flat_map (fun e => match e with
                     | Step _ _ => []
                     | PieceInfo info => [info]
                     end) lg.


(** ** app.py: the progress shown while the pipeline runs, and the ZIP *)

Module App.

(** Equality of two step messages (the strings compared by [not in]). *)
Definition StepMsg_eqb (a b : StepMsg) : bool :=
  match a, b with
  | LoadingAndCleaningMesh, LoadingAndCleaningMesh
  | FilledMeshHoles, FilledMeshHoles
  | HoleFillingFailed, HoleFillingFailed
  | MeshCleaningComplete, MeshCleaningComplete
  | CalculatingGridDivisions, CalculatingGridDivisions
  | StartingPuzzlePieceGeneration, StartingPuzzlePieceGeneration
  | Generating3DPreviews, Generating3DPreviews
  | PreviewsGenerated, PreviewsGenerated
  | FinalizingOutput, FinalizingOutput => true
  | GeneratingPiece i j k, GeneratingPiece i' j' k' =>
      (i =? i') && (j =? j') && (k =? k')
  | ExportedPuzzlePieces c, ExportedPuzzlePieces c' => c =? c'
  | _, _ => false
  end.

(** ['current_step']: ['Ready'], ['Initializing...'] or a step of the
    pipeline. *)
Inductive Shown : Type :=
| Ready
| Initializing
| Current (step : StepMsg).

(** [st.session_state.progress_data] (lines 82-88), without
    ['start_time'].  An entry of ['piece_status'] is the time of the call
    and the message. *)
Record ProgressData : Type := mkProgressData {
  current_step : Shown;
  progress : Q;
  completed_steps : list StepMsg;
  piece_status : list (string * InfoMsg)
}.

(** Lines 181-187. *)
Definition initial : ProgressData := mkProgressData Initializing 0 [] [].

(** Lines 154-166, called by [update_progress] with a step and a
    percentage, or with a [piece_info] only; [now] is
    [time.strftime('%H:%M:%S')]. *)
Definition progress_callback (now : string) (d : ProgressData) (e : Event)
  : ProgressData :=
  match e with
  | Step step percent =>
      let d :=
        if negb (existsb (StepMsg_eqb step) (completed_steps d))
        then mkProgressData (Current step) (progress d)
                            (completed_steps d ++ [step]) (piece_status d)
        else d in
      mkProgressData (current_step d) percent (completed_steps d)
                     (piece_status d)
  | PieceInfo piece_info =>
      mkProgressData (current_step d) (progress d) (completed_steps d)
                     (piece_status d ++ [(now, piece_info)])
  end.

(** The progress data after each call of a run whose calls are [calls],
    each with the time it was made at. *)
Fixpoint history (calls : list (string * Event)) (d : ProgressData)
  : list ProgressData :=
  match calls with
  | [] => []
  | (now, e) :: calls' =>
      let d' := progress_callback now d e in d' :: history calls' d'
  end.

(** The progress data when the run returns. *)
Definition replay (calls : list (string * Event)) (d : ProgressData)
  : ProgressData :=
  fold_left (fun d c => progress_callback (fst c) d (snd c)) calls d.

(** Line 127: the width of the progress bar, [min(progress, 100)]. *)
Definition bar_width (d : ProgressData) : Q :=
  if Qle_bool (progress d) 100 then progress d else 100%Q.

(** [os.path.basename(p)]: what follows the last slash of [p]. *)
Fixpoint after_last_slash (p acc : string) : string :=
  match p with
  | EmptyString => acc
  | String c p' =>
      if (c =? "/")%char then after_last_slash p' EmptyString
      else after_last_slash p' (acc ++ String c EmptyString)
  end.

Definition basename (p : string) : string := after_last_slash p EmptyString.

(** Lines 299-304: the entries written to the ZIP, each with its
    [arcname]; a path that does not exist is skipped with a warning. *)
Definition zip_entries (path_exists : string -> bool)
    (piece_paths : list string) : list (string * string) :=
  map (fun p => (p, basename p)) (filter path_exists piece_paths).

End App.

(** ** app2.py: the ZIP *)

Module App2.

(** Lines 109-111: every path is written; [zipf.write] raises when the
    file is missing. *)
Definition zip_entries (path_exists : string -> bool)
    (piece_paths : list string) : option (list (string * string)) :=
  if forallb path_exists piece_paths
  then Some (map (fun p => (p, App.basename p)) piece_paths)
  else None.

End App2.

(** ** backend2.py: [generate_puzzle_from_stl] (lines 63-330)

    The same pipeline without progress callback (it prints): it exports a
    piece without cleaning it, and reports neither
    ["total_possible_pieces"] nor ["success_rate"]. *)

Module Pipeline2.

Section Pipeline.
Context `{TM : Trimesh} `{RNG : PyRandom} `{PLT : @Pyplot TM} `{FS : OS}.

(** The variables the piece loop mutates (lines 120-122), the hidden
    generator of [random], and the centers built so far. *)
Record State : Type := mkState {
  st_rng : Gen;
  st_piece_meshes : list Solid;
  st_piece_paths : list string;
  st_piece_count : Z;
  st_centers : list Placement
}.

(** The two draws of an interlock step and the center it builds. *)
Definition placed (s : State) (g : Gen) (c : Placement) : State :=
  mkState g (st_piece_meshes s) (st_piece_paths s) (st_piece_count s)
          (st_centers s ++ [c]).

Section Cell.
Variable p : Params.
Variables i j k : Z.
Variables x0 x1 y0 y1 z0 z1 : Q.
Open Scope Q_scope.

(** Lines 150-177: one instance [n] on the X face. *)
Definition x_interlock (acc : Solid * State) (n : Z) : Solid * State :=
  let (submesh, s) := acc in
  let (cy, g) := uniform (y0 + 0.2 * (y1 - y0)) (y1 - 0.2 * (y1 - y0))
                         (st_rng s) in
  let (cz, g) := uniform (z0 + 0.2 * (z1 - z0)) (z1 - 0.2 * (z1 - z0)) g in
  let center := (x1, cy, cz) in
  let (role, attempt) :=
    if xorb ((i + j + k) mod 2 =? 0)%Z (n mod 2 =? 1)%Z then
      (Key,
       boolean_union
         [submesh;
          Backend2.make_interlock_hybrid center "x" (cyl_radius p)
            (cyl_height p) (sphere_radius p) false 1.05 false])
    else
      (Socket,
       boolean_difference
         [submesh;
          Backend2.make_interlock_hybrid center "x" (cyl_radius p)
            (cyl_height p) (sphere_radius p) true (socket_tolerance p) true]) in
  let s := placed s g (mkPlacement (i, j, k) "x" n center role) in
  match attempt with
  | Some submesh' => (submesh', s)
  | None => (submesh, s)
  end.

(** Lines 183-210: one instance [n] on the Y face. *)
Definition y_interlock (acc : Solid * State) (n : Z) : Solid * State :=
  let (submesh, s) := acc in
  let (cx, g) := uniform (x0 + 0.2 * (x1 - x0)) (x1 - 0.2 * (x1 - x0))
                         (st_rng s) in
  let (cz, g) := uniform (z0 + 0.2 * (z1 - z0)) (z1 - 0.2 * (z1 - z0)) g in
  let center := (cx, y1, cz) in
  let (role, attempt) :=
    if xorb ((i + j + k) mod 2 =? 0)%Z (n mod 2 =? 1)%Z then
      (Key,
       boolean_union
         [submesh;
          Backend2.make_interlock_hybrid center "y" (cyl_radius p)
            (cyl_height p) (sphere_radius p) false 1.05 false])
    else
      (Socket,
       boolean_difference
         [submesh;
          Backend2.make_interlock_hybrid center "y" (cyl_radius p)
            (cyl_height p) (sphere_radius p) true (socket_tolerance p) true]) in
  let s := placed s g (mkPlacement (i, j, k) "y" n center role) in
  match attempt with
  | Some submesh' => (submesh', s)
  | None => (submesh, s)
  end.

(** Lines 216-243: one instance [n] on the Z face. *)
Definition z_interlock (acc : Solid * State) (n : Z) : Solid * State :=
  let (submesh, s) := acc in
  let (cx, g) := uniform (x0 + 0.2 * (x1 - x0)) (x1 - 0.2 * (x1 - x0))
                         (st_rng s) in
  let (cy, g) := uniform (y0 + 0.2 * (y1 - y0)) (y1 - 0.2 * (y1 - y0)) g in
  let center := (cx, cy, z1) in
  let (role, attempt) :=
    if xorb ((i + j + k) mod 2 =? 0)%Z (n mod 2 =? 1)%Z then
      (Key,
       boolean_union
         [submesh;
          Backend2.make_interlock_hybrid center "z" (cyl_radius p)
            (cyl_height p) (sphere_radius p) false 1.05 false])
    else
      (Socket,
       boolean_difference
         [submesh;
          Backend2.make_interlock_hybrid center "z" (cyl_radius p)
            (cyl_height p) (sphere_radius p) true (socket_tolerance p) true]) in
  let s := placed s g (mkPlacement (i, j, k) "z" n center role) in
  match attempt with
  | Some submesh' => (submesh', s)
  | None => (submesh, s)
  end.

Variables nx ny nz : Z.

(** Lines 147-149, 180-182, 213-215: the three face loops. *)
Definition x_face (acc : Solid * State) : Solid * State :=
  if (i <? nx - 1)%Z
  then fold_left x_interlock (range (locks_per_face p)) acc
  else acc.

Definition y_face (acc : Solid * State) : Solid * State :=
  if (j <? ny - 1)%Z
  then fold_left y_interlock (range (locks_per_face p)) acc
  else acc.

Definition z_face (acc : Solid * State) : Solid * State :=
  if (k <? nz - 1)%Z
  then fold_left z_interlock (range (locks_per_face p)) acc
  else acc.

(** Lines 246-255: the piece is exported as the face loops left it. *)
Definition export_piece (acc : Solid * State) : State :=
  let (submesh, s) := acc in
  let filename :=
    os_path_join (output_dir p)
      ("piece_" ++ str i ++ "_" ++ str j ++ "_" ++ str k ++ ".stl") in
  if export submesh filename
  then mkState (st_rng s) (st_piece_meshes s ++ [submesh])
               (st_piece_paths s ++ [filename]) (st_piece_count s + 1)
               (st_centers s)
  else s.

End Cell.

(** Lines 127-255: the body of the innermost loop for cell [(i, j, k)]. *)
Definition process_cell (p : Params) (mesh : Solid) (nx ny nz : Z)
    (x_cuts y_cuts z_cuts : list Q) (s : State) (i j k : Z) : State :=
  let x0 := getitem x_cuts i in
  let x1 := getitem x_cuts (i + 1) in
  let y0 := getitem y_cuts j in
  let y1 := getitem y_cuts (j + 1) in
  let z0 := getitem z_cuts k in
  let z1 := getitem z_cuts (k + 1) in
  let cube := creation_box (x1 - x0, y1 - y0, z1 - z0)%Q in
  let cube :=
    apply_translation cube ((x1 + x0) / 2, (y1 + y0) / 2, (z1 + z0) / 2)%Q in
  match intersection mesh cube with
  | Some submesh =>
      if is_empty submesh then s
      else
        let acc := x_face p i j k x1 y0 y1 z0 z1 nx (submesh, s) in
        let acc := y_face p i j k x0 x1 y1 z0 z1 ny acc in
        let acc := z_face p i j k x0 x1 y0 y1 z1 nz acc in
        export_piece p i j k acc
  | None => s
  end.

(** Lines 124-126. *)
Definition piece_loop (p : Params) (mesh : Solid) (nx ny nz : Z)
    (x_cuts y_cuts z_cuts : list Q) (s : State) : State :=
  fold_left (fun s i =>
    fold_left (fun s j =>
      fold_left (fun s k =>
        process_cell p mesh nx ny nz x_cuts y_cuts z_cuts s i j k)
        (range nz) s)
      (range ny) s)
    (range nx) s.

(** The returned dictionaries (lines 319-330). *)
Record MeshInfo : Type := mkMeshInfo {
  bounds : Vec3 * Vec3;
  watertight : bool;
  filled_mesh_file : string;
  piece_count : Z
}.

Record Report : Type := mkReport {
  piece_paths : list string;
  view_image_paths : list string;
  mesh_info : MeshInfo
}.

Record Run : Type := mkRun {
  report : Report;
  final_rng : Gen;
  run_centers : list Placement;
  registered : list Solid;
  figure : Figure
}.

(** Lines 88-330.  The load stage (lines 88-102) and the previews (lines
    260-317) are those of backend.py without the progress calls, so their
    log is dropped. *)
Definition generate_puzzle_from_stl (p : Params) (g0 : Gen) : Result Run :=
  ('(mesh, filled_mesh_file, _) <- load_and_clean p ;;
   bounds <- orRaise (mesh_bounds mesh) TypeError ;;
   let '(nx, ny, nz) := divisions p in
   '(x_cuts, y_cuts, z_cuts) <- grid_cuts bounds (nx, ny, nz) ;;
   let g := seed_state (seed p) in
   _ <- check (np_random_seed (seed p)) ValueError ;;
   let s := mkState g [] [] 0 [] in
   let s := piece_loop p mesh nx ny nz x_cuts y_cuts z_cuts s in
   '(view_image_paths, fig, _) <- render p (st_piece_meshes s) [] ;;
   let mesh_info :=
     mkMeshInfo bounds (is_watertight mesh) filled_mesh_file
                (st_piece_count s) in
   Ok (mkRun (mkReport (st_piece_paths s) view_image_paths mesh_info)
             (st_rng s) (st_centers s) (st_piece_meshes s) fig))%result.

End Pipeline.

End Pipeline2.

(** The states of the two pipelines agree on the generator and on the
    centers built. *)
Definition same_placements `{TM : Trimesh} `{RNG : PyRandom}
    (s : State) (s2 : Pipeline2.State) : Prop :=
  st_rng s = Pipeline2.st_rng s2 /\ st_centers s = Pipeline2.st_centers s2.

(** Two face-loop accumulators hold the same piece and agree on the
    generator and on the centers. *)
Definition same_progress `{TM : Trimesh} `{RNG : PyRandom}
    (acc : Solid * State) (acc2 : Solid * Pipeline2.State) : Prop :=
  fst acc = fst acc2 /\ same_placements (snd acc) (snd acc2).

(** ** The roles an interior face receives *)







(** Symbolic collaborator: cleaning leaves the input mesh without faces,
    so that [mesh.bounds] is [None]. *)
Definition emptied_mesh : Symbolic.Faults :=
  Symbolic.mkFaults (fun _ => false) (fun _ => false) (fun _ => false)
    (fun _ _ => false) (fun _ => false) (fun _ => false)
    (fun _ _ => false) (fun _ => false) (fun _ => false)
    None.
(** ** Lemmas on [range], [set_last] and [linspace] *)

Lemma range_length (n : Z) : length (range n) = Z.to_nat n.
Proof. unfold range. now rewrite length_map, length_seq. Qed.

Lemma range_nth (n : Z) (t : nat) :
  (t < Z.to_nat n)%nat -> nth t (range n) 0 = Z.of_nat t.
Proof.
  intros Ht. unfold range.
  rewrite nth_indep with (d' := Z.of_nat 0) by now rewrite length_map, length_seq.
  rewrite map_nth, seq_nth by assumption. reflexivity.
Qed.

Lemma set_last_length {A : Type} (l : list A) (v : A) :
  length (set_last l v) = length l.
Proof.
  induction l as [|x [|y tl] IH]; simpl in *; auto.
Qed.

Lemma set_last_nth_last {A : Type} (l : list A) (v d : A) (m : nat) :
  length l = S m -> nth m (set_last l v) d = v.
Proof.
  revert m. induction l as [|x [|y tl] IH]; intros m Hm; simpl in Hm; try lia.
  - injection Hm as <-. reflexivity.
  - change (set_last (x :: y :: tl) v) with (x :: set_last (y :: tl) v).
    destruct m as [|m]; [lia|]. simpl nth at 1. apply IH. simpl. lia.
Qed.

Lemma set_last_nth_before {A : Type} (l : list A) (v d : A) (t : nat) :
  (S t < length l)%nat -> nth t (set_last l v) d = nth t l d.
Proof.
  revert t. induction l as [|x [|y tl] IH]; intros t Ht; simpl in Ht; try lia.
  change (set_last (x :: y :: tl) v) with (x :: set_last (y :: tl) v).
  destruct t as [|t]; [reflexivity|].
  simpl nth at 1. rewrite IH by (simpl; lia). reflexivity.
Qed.

Lemma strictly_increasing_nth (l : list Q) (d : Q) :
  (forall t : nat, (S t < length l)%nat -> (nth t l d < nth (S t) l d)%Q) ->
  strictly_increasing l.
Proof.
  induction l as [|x [|y tl] IH]; intros H; simpl; auto.
  split.
  - apply (H 0%nat). simpl. lia.
  - apply IH. intros t Ht. apply (H (S t)). simpl in *. lia.
Qed.

Lemma linspace_unfold (start stop : Q) (n : Z) :
  1 <= n ->
  linspace start stop (n + 1) =
    Some (set_last
            (map (fun t => (inject_Z t * ((stop - start) / inject_Z n) + start)%Q)
                 (range (n + 1)))
            stop).
Proof.
  intros Hn. unfold linspace.
  destruct (Z.ltb_spec (n + 1) 0) as [?|_]; [lia|].
  destruct (Z.ltb_spec 1 (n + 1)) as [_|?]; [|lia].
  now rewrite Z.add_simpl_r.
Qed.

Lemma inject_Z_nonzero (n : Z) : 1 <= n -> ~ (inject_Z n == 0)%Q.
Proof.
  intros Hn H. unfold Qeq, inject_Z in H. simpl in H. lia.
Qed.

Lemma linspace_length (start stop : Q) (n : Z) (cuts : list Q) :
  1 <= n -> linspace start stop (n + 1) = Some cuts ->
  length cuts = Z.to_nat (n + 1).
Proof.
  intros Hn H. rewrite linspace_unfold in H by assumption.
  injection H as <-. now rewrite set_last_length, length_map, range_length.
Qed.

Lemma linspace_nth (start stop : Q) (n : Z) (cuts : list Q) (t : nat) :
  1 <= n -> linspace start stop (n + 1) = Some cuts ->
  (t <= Z.to_nat n)%nat ->
  (nth t cuts 0 == start + inject_Z (Z.of_nat t) * (stop - start) / inject_Z n)%Q.
Proof.
  intros Hn H Ht. rewrite linspace_unfold in H by assumption.
  injection H as <-.
  pose proof (inject_Z_nonzero n Hn) as Hnz.
  set (f := fun t0 : Z => (inject_Z t0 * ((stop - start) / inject_Z n) + start)%Q).
  assert (Hlen : length (map f (range (n + 1))) = S (Z.to_nat n)).
  { rewrite length_map, range_length. lia. }
  destruct (Nat.eq_dec t (Z.to_nat n)) as [->|Hne].
  - rewrite set_last_nth_last by assumption.
    rewrite Z2Nat.id by lia. field. assumption.
  - rewrite set_last_nth_before by lia.
    rewrite nth_indep with (d' := f 0) by lia.
    rewrite map_nth, range_nth by lia.
    unfold f. field. assumption.
Qed.

Lemma linspace_strictly_increasing (start stop : Q) (n : Z) (cuts : list Q) :
  1 <= n -> (start < stop)%Q -> linspace start stop (n + 1) = Some cuts ->
  strictly_increasing cuts.
Proof.
  intros Hn Hlt H.
  pose proof (linspace_length _ _ _ _ Hn H) as Hlen.
  pose proof (inject_Z_nonzero n Hn) as Hnz.
  apply strictly_increasing_nth with (d := 0%Q).
  intros t Ht.
  rewrite (linspace_nth _ _ _ _ t Hn H) by lia.
  rewrite (linspace_nth _ _ _ _ (S t) Hn H) by lia.
  rewrite Nat2Z.inj_succ. unfold Z.succ. rewrite inject_Z_plus.
  assert (Hpos : (0 < (stop - start) / inject_Z n)%Q).
  { apply Qlt_shift_div_l.
    - change 0%Q with (inject_Z 0). rewrite <- Zlt_Qlt. lia.
    - lra. }
  setoid_replace (start + (inject_Z (Z.of_nat t) + inject_Z 1) * (stop - start) / inject_Z n)%Q
    with (start + inject_Z (Z.of_nat t) * (stop - start) / inject_Z n
          + (stop - start) / inject_Z n)%Q by (field; assumption).
  lra.
Qed.

(** ** GridPartitioner *)

(** C2, as amended: for every bounds pair [(min, max)] and every division
    count [n >= 1], the cut sequence [np.linspace(min, max, n + 1)] exists,
    has exactly [n + 1] entries, satisfies
    [cuts[t] = min + t * (max - min) / n] for [0 <= t <= n], so that
    [cuts[0] = min] and [cuts[n] = max], and is strictly increasing when
    [min < max]. *)
Theorem grid_cuts_uniform (min max : Q) (n : Z) :
  1 <= n ->
  exists cuts : list Q,
    linspace min max (n + 1) = Some cuts /\
    length cuts = Z.to_nat (n + 1) /\
    (forall t : nat, (t <= Z.to_nat n)%nat ->
       (nth t cuts 0 == min + inject_Z (Z.of_nat t) * (max - min) / inject_Z n)%Q) /\
    (nth 0 cuts 0 == min)%Q /\
    (nth (Z.to_nat n) cuts 0 == max)%Q /\
    ((min < max)%Q -> strictly_increasing cuts).
Proof.
  intros Hn.
  pose proof (linspace_unfold min max n Hn) as Hl.
  pose proof (inject_Z_nonzero n Hn) as Hnz.
  eexists. split; [exact Hl|].
  split; [now apply (linspace_length min max n)|].
  split; [intros t Ht; now apply (linspace_nth min max n)|].
  split; [|split].
  - rewrite (linspace_nth min max n _ 0%nat Hn Hl) by lia.
    simpl. field. assumption.
  - rewrite (linspace_nth min max n _ (Z.to_nat n) Hn Hl) by lia.
    rewrite Z2Nat.id by lia. field. assumption.
  - intros Hlt. now apply (linspace_strictly_increasing min max n).
Qed.

Lemma grid_cuts_uniform_witness :
  exists cuts : list Q,
    linspace 0 1 (2 + 1) = Some cuts /\
    length cuts = Z.to_nat (2 + 1) /\
    (forall t : nat, (t <= Z.to_nat 2)%nat ->
       (nth t cuts 0 == 0 + inject_Z (Z.of_nat t) * (1 - 0) / inject_Z 2)%Q) /\
    (nth 0 cuts 0 == 0)%Q /\
    (nth (Z.to_nat 2) cuts 0 == 1)%Q /\
    ((0 < 1)%Q -> strictly_increasing cuts).
Proof.
  apply (grid_cuts_uniform 0 1 2). lia.
Defined.

(** C2, as stated, fails on degenerate bounds: with [min = max = 0] and
    [n = 2] the cuts are [0, 0, 0], which is not strictly increasing. *)
Lemma grid_cuts_flat_bounds_not_increasing : ~ cuts_as_specified 0 0 2.
Proof.
  intros (cuts & Hl & _ & Hinc & _).
  vm_compute in Hl. injection Hl as <-.
  destruct Hinc as [Hlt _]. vm_compute in Hlt. discriminate.
Qed.

(** ** InterlockGeometryBuilder *)

(** C10: [make_interlock_hybrid] of backend.py and of backend2.py return the
    same solid for every argument tuple, over the same collaborator (same
    primitive constructions, same outcome of the union). *)
Theorem make_interlock_hybrid_backend2_equal `{Trimesh}
    (center : Vec3) (axis : string) (cyl_radius cyl_height sphere_radius : Q)
    (socket : bool) (tolerance : Q) (flip_dir : bool) :
  make_interlock_hybrid center axis cyl_radius cyl_height sphere_radius
                        socket tolerance flip_dir
  = Backend2.make_interlock_hybrid center axis cyl_radius cyl_height
                                   sphere_radius socket tolerance flip_dir.
Proof.
  unfold make_interlock_hybrid, Backend2.make_interlock_hybrid.
  destruct (boolean_union _); destruct socket, flip_dir;
    destruct (axis =? "x")%string, (axis =? "y")%string, (axis =? "z")%string;
    reflexivity.
Qed.

(** ** FaceRoleAssignment *)



(** ** PieceAssembler: one interlock instance *)

Section InterlockSteps.
Context `{TM : Trimesh} `{RNG : PyRandom}.
Variable p : Params.
Variables i j k n : Z.
Variables x0 x1 y0 y1 z0 z1 : Q.
Variable piece : Solid.
Variable s : State.

Let outcome (face : string) (c : Placement) (g : Gen) : Solid * State :=
  interlock_outcome p face i j k piece s c g.

(** The three steps differ only in the coordinates they draw: one script
    proves their characterisations. *)
Ltac interlock_char :=
  unfold uniform, outcome, interlock_outcome, apply_interlock, is_key;
  change (advance 2 (st_rng s))
    with (snd (random (snd (random (st_rng s)))));
  destruct (random (st_rng s)) as [u1 g1]; cbn [snd];
  destruct (random g1) as [u2 g2]; cbn [snd];
  eexists;
  destruct (xorb ((i + j + k) mod 2 =? 0) (n mod 2 =? 1));
  cbn [role_of pl_role pl_center pl_axis]; reflexivity.

Lemma x_interlock_char :
  exists center : Vec3,
    x_interlock p i j k x1 y0 y1 z0 z1 (piece, s) n
    = outcome "X" (mkPlacement (i, j, k) "x" n center (role_of (is_key i j k n)))
              (advance 2 (st_rng s)).
Proof. unfold x_interlock. interlock_char. Qed.

Lemma y_interlock_char :
  exists center : Vec3,
    y_interlock p i j k x0 x1 y1 z0 z1 (piece, s) n
    = outcome "Y" (mkPlacement (i, j, k) "y" n center (role_of (is_key i j k n)))
              (advance 2 (st_rng s)).
Proof. unfold y_interlock. interlock_char. Qed.

Lemma z_interlock_char :
  exists center : Vec3,
    z_interlock p i j k x0 x1 y0 y1 z1 (piece, s) n
    = outcome "Z" (mkPlacement (i, j, k) "z" n center (role_of (is_key i j k n)))
              (advance 2 (st_rng s)).
Proof. unfold z_interlock. interlock_char. Qed.

Lemma outcome_placed_role (face : string) (c : Placement) (g : Gen) :
  placed_role s (outcome face c g) = Some (pl_role c).
Proof.
  unfold placed_role, placed_since, outcome, interlock_outcome.
  destruct (apply_interlock p c piece); cbn [snd st_centers record_center update_progress set_rng];
    now rewrite skipn_app, skipn_all, Nat.sub_diag.
Qed.

Lemma outcome_step_ok (axis face : string) (center : Vec3) (role : Role) :
  interlock_step_ok p (i, j, k) axis face n (piece, s)
    (outcome face (mkPlacement (i, j, k) axis n center role)
             (advance 2 (st_rng s))).
Proof.
  unfold interlock_step_ok, outcome, interlock_outcome.
  destruct (apply_interlock p _ piece) as [result|] eqn:Happ;
    eexists; cbn [st_centers st_piece_meshes st_piece_paths st_piece_count
                  st_completed_pieces st_log st_rng record_center
                  update_progress set_rng pl_cell pl_axis pl_n fst snd];
    (split; [reflexivity|]); rewrite Happ; repeat split; reflexivity.
Qed.

End InterlockSteps.

(** C1: on each of the three face axes the role given to instance [n] of
    cell [(i, j, k)] is Key exactly when
    [((i+j+k) % 2 == 0) XOR (n % 2 == 1)]; it is the same for every
    parameter record (so for every seed), every cell box, every piece and
    every state of the run (so for every state of the generator). *)
Theorem face_role_is_parity_rule `{TM : Trimesh} `{RNG : PyRandom}
    (p : Params) (i j k n : Z) (x0 x1 y0 y1 z0 z1 : Q)
    (piece : Solid) (s : State) :
  placed_role s (x_interlock p i j k x1 y0 y1 z0 z1 (piece, s) n)
    = Some (role_of (is_key i j k n)) /\
  placed_role s (y_interlock p i j k x0 x1 y1 z0 z1 (piece, s) n)
    = Some (role_of (is_key i j k n)) /\
  placed_role s (z_interlock p i j k x0 x1 y0 y1 z1 (piece, s) n)
    = Some (role_of (is_key i j k n)) /\
  (role_of (is_key i j k n) = Key <->
   xorb ((i + j + k) mod 2 =? 0) (n mod 2 =? 1) = true).
Proof.
  repeat split.
  - destruct (x_interlock_char p i j k n x1 y0 y1 z0 z1 piece s) as (c & ->).
    apply outcome_placed_role.
  - destruct (y_interlock_char p i j k n x0 x1 y1 z0 z1 piece s) as (c & ->).
    apply outcome_placed_role.
  - destruct (z_interlock_char p i j k n x0 x1 y0 y1 z1 piece s) as (c & ->).
    apply outcome_placed_role.
  - unfold is_key. now destruct (xorb _ _).
  - unfold is_key. intros ->. reflexivity.
Qed.

(** ** PieceAssembler: the face loops *)

Section FaceLoops.
Context `{TM : Trimesh} `{RNG : PyRandom}.
Variable p : Params.
Variables i j k : Z.

Lemma same_pieces_refl (s : State) : same_pieces s s.
Proof. repeat split. Qed.

Lemma same_pieces_trans (s1 s2 s3 : State) :
  same_pieces s1 s2 -> same_pieces s2 s3 -> same_pieces s1 s3.
Proof.
  unfold same_pieces. intros (-> & -> & -> & ->) (-> & -> & -> & ->).
  repeat split.
Qed.

Lemma advance_add (a b : nat) (g : Gen) :
  advance (a + b) g = advance b (advance a g).
Proof. unfold advance. now rewrite Nat.add_comm, Nat.iter_add. Qed.

(** A loop of interlock steps builds one center per instance, in order,
    with two draws each, and leaves the registered pieces alone. *)
Lemma fold_steps (axis face : string)
    (step : Solid * State -> Z -> Solid * State) :
  (forall acc n, interlock_step_ok p (i, j, k) axis face n acc (step acc n)) ->
  forall (l : list Z) (acc : Solid * State),
  exists cs : list Placement,
    st_centers (snd (fold_left step l acc)) = st_centers (snd acc) ++ cs /\
    map label cs = map (pair axis) l /\
    st_rng (snd (fold_left step l acc))
      = advance (2 * length cs) (st_rng (snd acc)) /\
    same_pieces (snd acc) (snd (fold_left step l acc)).
Proof.
  intros Hstep l. induction l as [|n l IH]; intros acc.
  - exists []. cbn. rewrite app_nil_r. auto using same_pieces_refl.
  - cbn [fold_left].
    destruct (IH (step acc n)) as (cs & Hc & Hl & Hg & Hs).
    specialize (Hstep acc n). destruct acc as [piece s].
    destruct (step (piece, s) n) as [piece' s'] eqn:E.
    cbn [interlock_step_ok] in Hstep.
    destruct Hstep as (c & Hc1 & _ & Ha & Hn & Hr & Hm & Hp & Hk & Hd & _).
    exists (c :: cs). cbn [snd] in *. split; [|split; [|split]].
    + rewrite Hc, Hc1, <- app_assoc. reflexivity.
    + cbn. unfold label at 1. now rewrite Ha, Hn, Hl.
    + rewrite Hg, Hr, <- advance_add. f_equal. cbn [length]. lia.
    + apply same_pieces_trans with (s2 := s'); [|exact Hs].
      repeat split; assumption.
Qed.

End FaceLoops.

Section Cells.
Context `{TM : Trimesh} `{RNG : PyRandom}.
Variable p : Params.
Variables nx ny nz i j k : Z.
Variables x0 x1 y0 y1 z0 z1 : Q.

Lemma x_interlock_ok (acc : Solid * State) (n : Z) :
  interlock_step_ok p (i, j, k) "x" "X" n acc
    (x_interlock p i j k x1 y0 y1 z0 z1 acc n).
Proof.
  destruct acc as [piece s].
  destruct (x_interlock_char p i j k n x1 y0 y1 z0 z1 piece s) as (c & ->).
  apply outcome_step_ok.
Qed.

Lemma y_interlock_ok (acc : Solid * State) (n : Z) :
  interlock_step_ok p (i, j, k) "y" "Y" n acc
    (y_interlock p i j k x0 x1 y1 z0 z1 acc n).
Proof.
  destruct acc as [piece s].
  destruct (y_interlock_char p i j k n x0 x1 y1 z0 z1 piece s) as (c & ->).
  apply outcome_step_ok.
Qed.

Lemma z_interlock_ok (acc : Solid * State) (n : Z) :
  interlock_step_ok p (i, j, k) "z" "Z" n acc
    (z_interlock p i j k x0 x1 y0 y1 z1 acc n).
Proof.
  destruct acc as [piece s].
  destruct (z_interlock_char p i j k n x0 x1 y0 y1 z1 piece s) as (c & ->).
  apply outcome_step_ok.
Qed.

(** A face loop that is skipped builds nothing. *)
Lemma no_face (acc : Solid * State) (axis : string) :
  exists cs : list Placement,
    st_centers (snd acc) = st_centers (snd acc) ++ cs /\
    map label cs = @nil (string * Z) /\
    st_rng (snd acc) = advance (2 * length cs) (st_rng (snd acc)) /\
    same_pieces (snd acc) (snd acc).
Proof.
  exists []. rewrite app_nil_r. auto using same_pieces_refl.
Qed.

(** The three face loops of a cell build their centers in the order of the
    ordering contract, whatever the boolean applications do, with two draws
    per center, and leave the registered pieces alone. *)
Lemma faces_centers (acc : Solid * State) :
  exists cs : list Placement,
    st_centers (snd (faces p nx ny nz i j k x0 x1 y0 y1 z0 z1 acc))
      = st_centers (snd acc) ++ cs /\
    map label cs = expected_order p nx ny nz i j k /\
    st_rng (snd (faces p nx ny nz i j k x0 x1 y0 y1 z0 z1 acc))
      = advance (2 * length cs) (st_rng (snd acc)) /\
    same_pieces (snd acc) (snd (faces p nx ny nz i j k x0 x1 y0 y1 z0 z1 acc)).
Proof.
  unfold faces, expected_order.
  set (ax := x_face p i j k x1 y0 y1 z0 z1 nx acc).
  set (ay := y_face p i j k x0 x1 y1 z0 z1 ny ax).
  assert (Hx : exists cs,
             st_centers (snd ax) = st_centers (snd acc) ++ cs /\
             map label cs
               = (if i <? nx - 1
                  then map (pair "x"%string) (range (locks_per_face p)) else []) /\
             st_rng (snd ax) = advance (2 * length cs) (st_rng (snd acc)) /\
             same_pieces (snd acc) (snd ax)).
  { unfold ax, x_face. destruct (i <? nx - 1).
    - apply (fold_steps p i j k "x" "X"). apply x_interlock_ok.
    - apply (no_face acc "x"). }
  assert (Hy : exists cs,
             st_centers (snd ay) = st_centers (snd ax) ++ cs /\
             map label cs
               = (if j <? ny - 1
                  then map (pair "y"%string) (range (locks_per_face p)) else []) /\
             st_rng (snd ay) = advance (2 * length cs) (st_rng (snd ax)) /\
             same_pieces (snd ax) (snd ay)).
  { unfold ay, y_face. destruct (j <? ny - 1).
    - apply (fold_steps p i j k "y" "Y"). apply y_interlock_ok.
    - apply (no_face ax "y"). }
  assert (Hz : exists cs,
             st_centers (snd (z_face p i j k x0 x1 y0 y1 z1 nz ay))
               = st_centers (snd ay) ++ cs /\
             map label cs
               = (if k <? nz - 1
                  then map (pair "z"%string) (range (locks_per_face p)) else []) /\
             st_rng (snd (z_face p i j k x0 x1 y0 y1 z1 nz ay))
               = advance (2 * length cs) (st_rng (snd ay)) /\
             same_pieces (snd ay) (snd (z_face p i j k x0 x1 y0 y1 z1 nz ay))).
  { unfold z_face. destruct (k <? nz - 1).
    - apply (fold_steps p i j k "z" "Z"). apply z_interlock_ok.
    - apply (no_face ay "z"). }
  destruct Hx as (cx & Hcx & Hlx & Hgx & Hsx).
  destruct Hy as (cy & Hcy & Hly & Hgy & Hsy).
  destruct Hz as (cz & Hcz & Hlz & Hgz & Hsz).
  exists (cx ++ cy ++ cz). split; [|split; [|split]].
  - rewrite Hcz, Hcy, Hcx, <- !app_assoc. reflexivity.
  - rewrite !map_app, Hlx, Hly, Hlz. reflexivity.
  - rewrite Hgz, Hgy, Hgx, <- !advance_add. f_equal.
    rewrite !length_app. lia.
  - eauto using same_pieces_trans.
Qed.

(** The export step either registers the cleaned piece or changes nothing
    but the log. *)
Lemma export_piece_cases (piece : Solid) (s : State) :
  let s' := export_piece p i j k (piece, s) in
  st_centers s' = st_centers s /\
  st_rng s' = st_rng s /\
  st_completed_pieces s' = st_completed_pieces s /\
  match clean_and_export piece (piece_filename p i j k) with
  | Some cleaned =>
      st_piece_meshes s' = st_piece_meshes s ++ [cleaned] /\
      st_piece_paths s' = st_piece_paths s ++ [piece_filename p i j k] /\
      st_piece_count s' = st_piece_count s + 1 /\
      st_log s' = st_log s ++ [PieceInfo (ExportedSuccessfully i j k)]
  | None =>
      st_piece_meshes s' = st_piece_meshes s /\
      st_piece_paths s' = st_piece_paths s /\
      st_piece_count s' = st_piece_count s /\
      st_log s' = st_log s ++ [PieceInfo (ExportFailed i j k)]
  end.
Proof.
  unfold export_piece, piece_filename.
  destruct (clean_and_export piece _); cbn; repeat split; reflexivity.
Qed.

End Cells.

(** ** PieceAssembler: one cell *)

Section ProcessCell.
Context `{TM : Trimesh} `{RNG : PyRandom}.
Variable p : Params.
Variable mesh : Solid.
Variables nx ny nz total_pieces : Z.
Variables x_cuts y_cuts z_cuts : list Q.

Let cell := process_cell p mesh nx ny nz total_pieces x_cuts y_cuts z_cuts.

(** The face loops of a cell on the grid: see [faces_centers]. *)
Lemma cell_faces_centers (i j k : Z) (acc : Solid * State) :
  exists cs : list Placement,
    st_centers (snd (cell_faces p nx ny nz x_cuts y_cuts z_cuts i j k acc))
      = st_centers (snd acc) ++ cs /\
    map label cs = expected_order p nx ny nz i j k /\
    st_rng (snd (cell_faces p nx ny nz x_cuts y_cuts z_cuts i j k acc))
      = advance (2 * length cs) (st_rng (snd acc)) /\
    same_pieces (snd acc)
                (snd (cell_faces p nx ny nz x_cuts y_cuts z_cuts i j k acc)).
Proof. apply faces_centers. Qed.

(** A cell whose intersection is a non-empty solid goes through the face
    loops and then through the export step. *)
Lemma process_cell_ready (s : State) (i j k : Z) (piece : Solid) :
  intersection mesh (cell_cube x_cuts y_cuts z_cuts i j k) = Some piece ->
  is_empty piece = false ->
  cell s i j k =
    incr_completed
      (export_piece p i j k
         (cell_faces p nx ny nz x_cuts y_cuts z_cuts i j k
            (piece, cell_start total_pieces s i j k))).
Proof.
  unfold cell_cube. intros Hi He. unfold cell, process_cell.
  rewrite Hi, He. reflexivity.
Qed.

(** A cell whose intersection is empty or raises is skipped. *)
Lemma process_cell_skipped (s : State) (i j k : Z) :
  match intersection mesh (cell_cube x_cuts y_cuts z_cuts i j k) with
  | Some piece => is_empty piece = true
  | None => True
  end ->
  same_pieces (incr_completed s) (cell s i j k) /\
  st_centers (cell s i j k) = st_centers s /\
  st_rng (cell s i j k) = st_rng s.
Proof.
  unfold cell, cell_cube, process_cell.
  destruct (intersection mesh _) as [piece|].
  - intros ->. repeat split.
  - intros _. repeat split.
Qed.

(** A cell registers at most one piece, and keeps [piece_count] equal to
    the number of registered pieces and of their paths. *)
Lemma process_cell_count (s : State) (i j k : Z) :
  st_piece_count s <= st_piece_count (cell s i j k) <= st_piece_count s + 1 /\
  (Z.of_nat (length (st_piece_meshes s)) = st_piece_count s ->
   Z.of_nat (length (st_piece_meshes (cell s i j k)))
     = st_piece_count (cell s i j k)) /\
  (length (st_piece_paths s) = length (st_piece_meshes s) ->
   length (st_piece_paths (cell s i j k))
     = length (st_piece_meshes (cell s i j k))).
Proof.
  destruct (intersection mesh (cell_cube x_cuts y_cuts z_cuts i j k))
    as [piece|] eqn:Hi;
    [destruct (is_empty piece) eqn:He|].
  - destruct (process_cell_skipped s i j k) as ((-> & -> & -> & _) & _).
    { now rewrite Hi. }
    cbn. repeat split; auto; lia.
  - rewrite (process_cell_ready s i j k piece Hi He).
    set (acc := cell_faces p nx ny nz x_cuts y_cuts z_cuts i j k
                  (piece, cell_start total_pieces s i j k)).
    destruct (cell_faces_centers i j k (piece, cell_start total_pieces s i j k))
      as (cs & _ & _ & _ & (Hm & Hp & Hc & _)).
    fold acc in Hm, Hp, Hc. cbn [snd cell_start update_progress
                                 st_piece_meshes st_piece_paths st_piece_count] in Hm, Hp, Hc.
    destruct acc as [piece' s']. cbn [snd] in Hm, Hp, Hc.
    pose proof (export_piece_cases p i j k piece' s') as (_ & _ & _ & Hx).
    cbn zeta in Hx. cbn [incr_completed st_piece_count st_piece_meshes st_piece_paths].
    destruct (clean_and_export piece' _) as [cleaned|];
      destruct Hx as (-> & -> & -> & _); rewrite Hm, Hp, Hc;
      rewrite ?length_app; cbn [length]; repeat split; intros; lia.
  - destruct (process_cell_skipped s i j k) as ((-> & -> & -> & _) & _).
    { now rewrite Hi. }
    cbn. repeat split; auto; lia.
Qed.

End ProcessCell.

(** C4: in a cell whose intersection is a non-empty solid, every interlock
    step on every face satisfies [interlock_step_ok]: when the boolean union
    (Key) or difference (Socket) raises, the piece keeps the value it had and
    the failure is only reported; whatever the boolean applications do, the
    face loops build the centers of all instances of all internal faces, in
    order, and the cell then goes through the export step, where a piece
    that is cleaned and exported without error is registered and counted. *)
Theorem interlock_failure_never_aborts_piece `{TM : Trimesh} `{RNG : PyRandom}
    (p : Params) (mesh : Solid) (nx ny nz total_pieces : Z)
    (x_cuts y_cuts z_cuts : list Q) (s : State) (i j k : Z) (piece : Solid) :
  intersection mesh (cell_cube x_cuts y_cuts z_cuts i j k) = Some piece ->
  is_empty piece = false ->
  let after :=
    cell_faces p nx ny nz x_cuts y_cuts z_cuts i j k
      (piece, cell_start total_pieces s i j k) in
  let s' := process_cell p mesh nx ny nz total_pieces x_cuts y_cuts z_cuts s i j k in
  (forall x0 x1 y0 y1 z0 z1 acc n,
     interlock_step_ok p (i, j, k) "x" "X" n acc
       (x_interlock p i j k x1 y0 y1 z0 z1 acc n) /\
     interlock_step_ok p (i, j, k) "y" "Y" n acc
       (y_interlock p i j k x0 x1 y1 z0 z1 acc n) /\
     interlock_step_ok p (i, j, k) "z" "Z" n acc
       (z_interlock p i j k x0 x1 y0 y1 z1 acc n)) /\
  map label (placed_since s (snd after)) = expected_order p nx ny nz i j k /\
  s' = incr_completed (export_piece p i j k after) /\
  (forall cleaned,
     clean_and_export (fst after) (piece_filename p i j k) = Some cleaned ->
     st_piece_count s' = st_piece_count s + 1 /\
     st_piece_paths s' = st_piece_paths s ++ [piece_filename p i j k] /\
     st_piece_meshes s' = st_piece_meshes s ++ [cleaned]).
Proof.
  intros Hi He after s'.
  destruct (cell_faces_centers p nx ny nz x_cuts y_cuts z_cuts i j k
              (piece, cell_start total_pieces s i j k))
    as (cs & Hcs & Hl & _ & (Hm & Hp & Hc & _)).
  fold after in Hcs, Hm, Hp, Hc.
  cbn [snd cell_start update_progress st_centers st_piece_meshes
       st_piece_paths st_piece_count] in Hcs, Hm, Hp, Hc.
  assert (Hs' : s' = incr_completed (export_piece p i j k after)).
  { apply process_cell_ready; assumption. }
  split; [|split; [|split]].
  - intros x0 x1 y0 y1 z0 z1 acc n.
    auto using x_interlock_ok, y_interlock_ok, z_interlock_ok.
  - unfold placed_since. rewrite Hcs, skipn_app, skipn_all, Nat.sub_diag. exact Hl.
  - exact Hs'.
  - intros cleaned Hclean. rewrite Hs'.
    destruct after as [piece' s1]. cbn [fst snd] in *.
    pose proof (export_piece_cases p i j k piece' s1) as (_ & _ & _ & Hx).
    cbn zeta in Hx. rewrite Hclean in Hx. destruct Hx as (Hm' & Hp' & Hc' & _).
    cbn [incr_completed st_piece_count st_piece_paths st_piece_meshes].
    rewrite Hm', Hp', Hc', Hm, Hp, Hc. repeat split.
Qed.

Lemma interlock_failure_never_aborts_piece_witness :
  let TM := Symbolic.trimesh Symbolic.booleans_raise in
  let RNG := Symbolic.lcg in
  let p := Symbolic.default_params (2, 1, 1) in
  let cuts := [0; 1 # 2; 1]%Q in
  let s := @mkState TM RNG 42 [] [] 0 0 [] [] in
  st_piece_count
    (@process_cell TM RNG p (Symbolic.Loaded "input.stl") 2 1 1 2
                   cuts [0; 1]%Q [0; 1]%Q s 0 0 0) = 1 /\
  map label
    (placed_since s
       (snd (@cell_faces TM RNG p 2 1 1 cuts [0; 1]%Q [0; 1]%Q 0 0 0
               (Symbolic.Intersection
                  (Symbolic.Loaded "input.stl")
                  (@cell_cube TM cuts [0; 1]%Q [0; 1]%Q 0 0 0),
                @cell_start TM RNG 2 s 0 0 0))))
  = [("x"%string, 0); ("x"%string, 1); ("x"%string, 2)].
Proof.
  intros TM RNG p cuts s.
  pose proof (@interlock_failure_never_aborts_piece TM RNG p
                (Symbolic.Loaded "input.stl") 2 1 1 2 cuts [0; 1]%Q [0; 1]%Q
                s 0 0 0 _ eq_refl eq_refl) as (_ & Hl & _ & Hx).
  split.
  - apply (Hx (Symbolic.Cleaned
                 (Symbolic.Intersection
                    (Symbolic.Loaded "input.stl")
                    (@cell_cube TM cuts [0; 1]%Q [0; 1]%Q 0 0 0)))).
    vm_compute. reflexivity.
  - exact Hl.
Defined.

(** ** DecompositionPipeline *)

Section Run.
Context `{TM : Trimesh} `{RNG : PyRandom} `{PLT : @Pyplot TM} `{FS : OS}.
Variable p : Params.

(** The run after its load, grid and seeding stages. *)
Lemma generate_unfold (g0 : Gen) (mesh : Solid) (bnds : Vec3 * Vec3)
    (file : string) (lg : list Event) (x_cuts y_cuts z_cuts : list Q) :
  load_and_clean p = Ok (mesh, file, lg) ->
  mesh_bounds mesh = Some bnds ->
  grid_cuts bnds (divisions p) = Ok (x_cuts, y_cuts, z_cuts) ->
  np_random_seed (seed p) = true ->
  let s := loop_state p mesh lg x_cuts y_cuts z_cuts in
  generate_puzzle_from_stl p g0 =
    match render p (st_piece_meshes s)
            (st_log s ++ [Step (ExportedPuzzlePieces (st_piece_count s)) 85]) with
    | Ok rendered => Ok (finish p mesh bnds file s rendered)
    | Raise e => Raise e
    end.
Proof.
  intros Hload Hbnds Hgrid Hseed. unfold generate_puzzle_from_stl, loop_state,
    finish, total_pieces_of, success_rate_of.
  rewrite Hload. cbn [bind]. rewrite Hbnds. cbn [orRaise bind].
  destruct (divisions p) as [[nx ny] nz].
  rewrite Hgrid. cbn [bind]. rewrite Hseed. cbn [check bind].
  destruct (render p _ _) as [[[views fig] lg2]|e]; reflexivity.
Qed.

(** A run that returns went through every stage. *)
Lemma generate_ok_inv (g0 : Gen) (r : Run) :
  generate_puzzle_from_stl p g0 = Ok r ->
  exists bnds mesh file lg x_cuts y_cuts z_cuts rendered,
    mesh_bounds mesh = Some bnds /\
    load_and_clean p = Ok (mesh, file, lg) /\
    grid_cuts bnds (divisions p) = Ok (x_cuts, y_cuts, z_cuts) /\
    np_random_seed (seed p) = true /\
    let s := loop_state p mesh lg x_cuts y_cuts z_cuts in
    render p (st_piece_meshes s)
      (st_log s ++ [Step (ExportedPuzzlePieces (st_piece_count s)) 85])
      = Ok rendered /\
    r = finish p mesh bnds file s rendered.
Proof.
  intros Hgen.
  destruct (load_and_clean p) as [[[mesh file] lg]|e] eqn:Hload.
  2:{ unfold generate_puzzle_from_stl in Hgen. rewrite Hload in Hgen.
      discriminate. }
  destruct (mesh_bounds mesh) as [bnds|] eqn:Hbnds.
  2:{ unfold generate_puzzle_from_stl in Hgen. rewrite Hload in Hgen.
      cbn [bind] in Hgen. rewrite Hbnds in Hgen. discriminate. }
  destruct (grid_cuts bnds (divisions p))
    as [[[x_cuts y_cuts] z_cuts]|e] eqn:Hgrid.
  2:{ unfold generate_puzzle_from_stl in Hgen. rewrite Hload in Hgen.
      cbn [bind] in Hgen. rewrite Hbnds in Hgen. cbn [orRaise bind] in Hgen.
      destruct (divisions p) as [[nx ny] nz].
      rewrite Hgrid in Hgen. discriminate. }
  destruct (np_random_seed (seed p)) eqn:Hseed.
  2:{ unfold generate_puzzle_from_stl in Hgen. rewrite Hload in Hgen.
      cbn [bind] in Hgen. rewrite Hbnds in Hgen. cbn [orRaise bind] in Hgen.
      destruct (divisions p) as [[nx ny] nz].
      rewrite Hgrid in Hgen. cbn [bind] in Hgen. rewrite Hseed in Hgen.
      discriminate. }
  rewrite (generate_unfold g0 mesh bnds file lg x_cuts y_cuts z_cuts
             Hload Hbnds Hgrid Hseed) in Hgen.
  cbn zeta in Hgen.
  destruct (render p _ _) as [rendered|e] eqn:Hr; [|discriminate].
  injection Hgen as <-.
  exists bnds, mesh, file, lg, x_cuts, y_cuts, z_cuts, rendered.
  repeat split; assumption.
Qed.

End Run.

(** The centers one cell builds: none when the cell is skipped, otherwise
    those of its internal faces in the order X, Y, Z, instances increasing;
    the generator makes two draws per center. *)
Lemma process_cell_centers `{TM : Trimesh} `{RNG : PyRandom}
    (p : Params) (mesh : Solid) (nx ny nz total_pieces : Z)
    (x_cuts y_cuts z_cuts : list Q) (s : State) (i j k : Z) :
  let s' := process_cell p mesh nx ny nz total_pieces x_cuts y_cuts z_cuts s i j k in
  st_centers s' = st_centers s ++ placed_since s s' /\
  map label (placed_since s s') =
    match intersection mesh (cell_cube x_cuts y_cuts z_cuts i j k) with
    | Some piece =>
        if is_empty piece then [] else expected_order p nx ny nz i j k
    | None => []
    end /\
  st_rng s' = advance (2 * length (placed_since s s')) (st_rng s).
Proof.
  intros s'.
  assert (H : exists cs, st_centers s' = st_centers s ++ cs /\
            map label cs =
              match intersection mesh (cell_cube x_cuts y_cuts z_cuts i j k) with
              | Some piece =>
                  if is_empty piece then [] else expected_order p nx ny nz i j k
              | None => []
              end /\
            st_rng s' = advance (2 * length cs) (st_rng s)).
  { destruct (intersection mesh (cell_cube x_cuts y_cuts z_cuts i j k))
      as [piece|] eqn:Hi; [destruct (is_empty piece) eqn:He|].
    - exists []. rewrite app_nil_r.
      destruct (process_cell_skipped p mesh nx ny nz total_pieces
                  x_cuts y_cuts z_cuts s i j k) as (_ & Hc & Hg).
      { now rewrite Hi. }
      repeat split; assumption.
    - unfold s'. rewrite (process_cell_ready _ _ _ _ _ _ _ _ _ _ _ _ _ piece Hi He).
      destruct (cell_faces_centers p nx ny nz x_cuts y_cuts z_cuts i j k
                  (piece, cell_start total_pieces s i j k))
        as (cs & Hcs & Hl & Hg & _).
      exists cs.
      destruct (cell_faces _ _ _ _ _ _ _ _ _ _ _) as [piece' s1].
      pose proof (export_piece_cases p i j k piece' s1) as (Hc & Hr & _).
      cbn zeta in Hc, Hr. cbn [incr_completed st_centers st_rng].
      rewrite Hc, Hr. repeat split; assumption.
    - exists []. rewrite app_nil_r.
      destruct (process_cell_skipped p mesh nx ny nz total_pieces
                  x_cuts y_cuts z_cuts s i j k) as (_ & Hc & Hg).
      { now rewrite Hi. }
      repeat split; assumption. }
  destruct H as (cs & Hcs & Hl & Hg).
  unfold placed_since. rewrite Hcs, skipn_app, skipn_all, Nat.sub_diag.
  repeat split; assumption.
Qed.

(** ** DecompositionPipeline: the piece loop *)

Section PieceLoop.
Context `{TM : Trimesh} `{RNG : PyRandom}.

Lemma two_draws_refl (s : State) : two_draws_per_center s s.
Proof. exists []. now rewrite app_nil_r. Qed.

Lemma two_draws_trans (s1 s2 s3 : State) :
  two_draws_per_center s1 s2 -> two_draws_per_center s2 s3 ->
  two_draws_per_center s1 s3.
Proof.
  intros (c1 & Hc1 & Hg1) (c2 & Hc2 & Hg2). exists (c1 ++ c2). split.
  - now rewrite Hc2, Hc1, app_assoc.
  - rewrite Hg2, Hg1, <- advance_add. f_equal. rewrite length_app. lia.
Qed.

(** A loop whose body satisfies a reflexive and transitive relation
    between the states before and after it satisfies it as a whole. *)
Lemma fold_left_rel {A : Type} (R : State -> State -> Prop)
    (body : State -> A -> State) (l : list A) :
  (forall s, R s s) ->
  (forall s1 s2 s3, R s1 s2 -> R s2 s3 -> R s1 s3) ->
  (forall s a, R s (body s a)) ->
  forall s, R s (fold_left body l s).
Proof.
  intros Hrefl Htrans Hbody. induction l as [|a l IH]; intros s; cbn.
  - apply Hrefl.
  - eapply Htrans; [apply Hbody|apply IH].
Qed.

(** A loop whose body keeps an invariant keeps it. *)
Lemma fold_left_inv {A : Type} (P : State -> Prop)
    (body : State -> A -> State) (l : list A) :
  (forall s a, P s -> P (body s a)) ->
  forall s, P s -> P (fold_left body l s).
Proof.
  intros Hbody. induction l as [|a l IH]; intros s Hs; cbn; auto.
Qed.

(** A loop whose body registers at most [c] pieces registers at most [c]
    pieces per iteration. *)
Lemma fold_left_count {A : Type} (c : Z)
    (body : State -> A -> State) (l : list A) :
  0 <= c ->
  (forall s a, st_piece_count s <= st_piece_count (body s a)
                                <= st_piece_count s + c) ->
  forall s, st_piece_count s <= st_piece_count (fold_left body l s)
                             <= st_piece_count s + c * Z.of_nat (length l).
Proof.
  intros Hc Hbody. induction l as [|a l IH]; intros s.
  - cbn. lia.
  - cbn [fold_left length]. specialize (IH (body s a)).
    specialize (Hbody s a). nia.
Qed.

Variable p : Params.
Variable mesh : Solid.
Variables nx ny nz total_pieces : Z.
Variables x_cuts y_cuts z_cuts : list Q.

Let loop := piece_loop p mesh nx ny nz total_pieces x_cuts y_cuts z_cuts.

Lemma piece_loop_draws (s : State) : two_draws_per_center s (loop s).
Proof.
  unfold loop, piece_loop.
  apply (fold_left_rel two_draws_per_center);
    [apply two_draws_refl|apply two_draws_trans|intros s1 i].
  apply (fold_left_rel two_draws_per_center);
    [apply two_draws_refl|apply two_draws_trans|intros s2 j].
  apply (fold_left_rel two_draws_per_center);
    [apply two_draws_refl|apply two_draws_trans|intros s3 k].
  destruct (process_cell_centers p mesh nx ny nz total_pieces
              x_cuts y_cuts z_cuts s3 i j k) as (Hc & _ & Hg).
  eexists. split; eassumption.
Qed.

Lemma piece_loop_counted (s : State) : counted s -> counted (loop s).
Proof.
  unfold loop, piece_loop.
  apply (fold_left_inv counted). intros s1 i.
  apply (fold_left_inv counted). intros s2 j.
  apply (fold_left_inv counted). intros s3 k (H1 & H2).
  destruct (process_cell_count p mesh nx ny nz total_pieces
              x_cuts y_cuts z_cuts s3 i j k) as (_ & Hm & Hp).
  split; auto.
Qed.

(** The loop visits [max(0,nx) * max(0,ny) * max(0,nz)] cells and
    registers at most one piece in each. *)
Lemma piece_loop_count (s : State) :
  st_piece_count s <= st_piece_count (loop s)
    <= st_piece_count s + Z.max 0 nx * Z.max 0 ny * Z.max 0 nz.
Proof.
  assert (Hlen : forall n, Z.of_nat (length (range n)) = Z.max 0 n).
  { intros n. rewrite range_length. lia. }
  unfold loop, piece_loop.
  replace (Z.max 0 nx * Z.max 0 ny * Z.max 0 nz)
    with ((Z.max 0 ny * Z.max 0 nz) * Z.of_nat (length (range nx)))
    by (rewrite Hlen; lia).
  apply fold_left_count; [lia|]. intros s1 i.
  replace (Z.max 0 ny * Z.max 0 nz)
    with (Z.max 0 nz * Z.of_nat (length (range ny)))
    by (rewrite Hlen; lia).
  apply fold_left_count; [lia|]. intros s2 j.
  replace (Z.max 0 nz) with (1 * Z.of_nat (length (range nz)))
    by (rewrite Hlen; lia).
  apply fold_left_count; [lia|]. intros s3 k.
  apply process_cell_count.
Qed.

End PieceLoop.

(** What a returned run shows of the state the piece loop left. *)
Lemma finish_fields
    `{TM : Trimesh} `{RNG : PyRandom} `{PLT : @Pyplot TM}
    (p : Params) (mesh : Solid) (bnds : Vec3 * Vec3) (file : string)
    (s : State) (rendered : list string * Figure * list Event) :
  let r := finish p mesh bnds file s rendered in
  final_rng r = st_rng s /\
  run_centers r = st_centers s /\
  registered r = st_piece_meshes s /\
  piece_paths (report r) = st_piece_paths s /\
  view_image_paths (report r) = fst (fst rendered) /\
  figure r = snd (fst rendered) /\
  piece_count (mesh_info (report r)) = st_piece_count s /\
  total_possible_pieces (mesh_info (report r)) = total_pieces_of p /\
  success_rate (mesh_info (report r))
    = success_rate_of (st_piece_count s) (total_pieces_of p).
Proof.
  destruct rendered as [[views fig] lg]. cbn. repeat split.
Qed.

(** The state the piece loop leaves in a run: the generator was seeded with
    [seed] and made two draws per center; the counters are consistent. *)
Lemma loop_state_facts `{TM : Trimesh} `{RNG : PyRandom}
    (p : Params) (mesh : Solid) (lg : list Event)
    (x_cuts y_cuts z_cuts : list Q) :
  let s := loop_state p mesh lg x_cuts y_cuts z_cuts in
  st_rng s = advance (2 * length (st_centers s)) (seed_state (seed p)) /\
  counted s /\
  0 <= st_piece_count s
    <= (let '(nx, ny, nz) := divisions p in
        Z.max 0 nx * Z.max 0 ny * Z.max 0 nz).
Proof.
  unfold loop_state. destruct (divisions p) as [[nx ny] nz].
  set (s0 := mkState _ _ _ _ _ _ _).
  split; [|split].
  - destruct (piece_loop_draws p mesh nx ny nz (nx * ny * nz)
                x_cuts y_cuts z_cuts s0) as (cs & Hc & Hg).
    rewrite Hg, Hc. reflexivity.
  - apply piece_loop_counted. split; reflexivity.
  - pose proof (piece_loop_count p mesh nx ny nz (nx * ny * nz)
                  x_cuts y_cuts z_cuts s0) as H.
    cbn [s0 st_piece_count] in H. lia.
Qed.

(** C8: the run reseeds the generator of [random] before its first draw, so
    its outcome does not depend on the state [g0] the generator was in: two
    runs with the same input mesh, parameters and seed (and collaborators
    that answer the same) build the same centers, count the same pieces and
    return the same report.  The draws are those of the generator seeded
    with [seed], two per center and no other; every cell builds its centers
    in the fixed order X, Y, Z, instances in increasing [n]. *)
Theorem rerun_is_reproducible
    `{TM : Trimesh} `{RNG : PyRandom} `{PLT : @Pyplot TM} `{FS : OS}
    (p : Params) (g0 g0' : Gen) :
  centers_of (generate_puzzle_from_stl p g0)
    = centers_of (generate_puzzle_from_stl p g0') /\
  piece_count_of (generate_puzzle_from_stl p g0)
    = piece_count_of (generate_puzzle_from_stl p g0') /\
  generate_puzzle_from_stl p g0 = generate_puzzle_from_stl p g0' /\
  (forall r, generate_puzzle_from_stl p g0 = Ok r ->
     final_rng r
       = advance (2 * length (run_centers r)) (seed_state (seed p))) /\
  (forall mesh nx ny nz total_pieces x_cuts y_cuts z_cuts s i j k,
     let s' := process_cell p mesh nx ny nz total_pieces
                 x_cuts y_cuts z_cuts s i j k in
     map label (placed_since s s') = expected_order p nx ny nz i j k \/
     placed_since s s' = []).
Proof.
  assert (Heq : generate_puzzle_from_stl p g0 = generate_puzzle_from_stl p g0').
  { unfold generate_puzzle_from_stl. reflexivity. }
  rewrite <- Heq. repeat split.
  - intros r Hr.
    destruct (generate_ok_inv p g0 r Hr)
      as (bnds & mesh & file & lg & xc & yc & zc & rendered & Hbnds & _ & _ & _ & _ & ->).
    destruct (finish_fields p mesh bnds file (loop_state p mesh lg xc yc zc) rendered)
      as (-> & -> & _).
    apply loop_state_facts.
  - intros mesh nx ny nz total_pieces x_cuts y_cuts z_cuts s i j k s'.
    destruct (process_cell_centers p mesh nx ny nz total_pieces
                x_cuts y_cuts z_cuts s i j k) as (_ & Hl & _).
    fold s' in Hl.
    destruct (intersection mesh _) as [piece|]; [destruct (is_empty piece)|].
    + right. now apply map_eq_nil in Hl.
    + left. exact Hl.
    + right. now apply map_eq_nil in Hl.
Qed.

Lemma rerun_is_reproducible_witness :
  let p := Symbolic.default_params (2, 1, 1) in
  Symbolic.run Symbolic.no_faults p 0 = Symbolic.run Symbolic.no_faults p 12345 /\
  exists r, Symbolic.run Symbolic.no_faults p 0 = Ok r /\
            final_rng r = @advance Symbolic.lcg 6 42.
Proof.
  intros p. split.
  - apply (@rerun_is_reproducible
             (Symbolic.trimesh Symbolic.no_faults) Symbolic.lcg
             (Symbolic.pyplot Symbolic.no_faults) Symbolic.os p 0 12345).
  - eexists. split; [vm_compute; reflexivity|].
    apply (@rerun_is_reproducible
             (Symbolic.trimesh Symbolic.no_faults) Symbolic.lcg
             (Symbolic.pyplot Symbolic.no_faults) Symbolic.os p 0 0).
    vm_compute. reflexivity.
Defined.

(** ** Run statistics *)

(** C5, as amended: when [generate_puzzle_from_stl] returns,
    [total_possible_pieces == nx*ny*nz];
    [0 <= piece_count <= max(0,nx)*max(0,ny)*max(0,nz)], which is
    [total_possible_pieces] when no division count is negative;
    [success_rate] is [piece_count/total_possible_pieces] (as a percentage
    with one decimal) when [total_possible_pieces > 0] and ["0%"] otherwise,
    in particular when [total_possible_pieces] is 0. *)
Theorem statistics_of_a_returned_run
    `{TM : Trimesh} `{RNG : PyRandom} `{PLT : @Pyplot TM} `{FS : OS}
    (p : Params) (g0 : Gen) (r : Run) (nx ny nz : Z) :
  generate_puzzle_from_stl p g0 = Ok r ->
  divisions p = (nx, ny, nz) ->
  let m := mesh_info (report r) in
  total_possible_pieces m = nx * ny * nz /\
  0 <= piece_count m <= Z.max 0 nx * Z.max 0 ny * Z.max 0 nz /\
  (0 <= nx -> 0 <= ny -> 0 <= nz ->
   piece_count m <= total_possible_pieces m) /\
  success_rate m =
    (if 0 <? total_possible_pieces m
     then Percent1f (inject_Z (piece_count m)
                     / inject_Z (total_possible_pieces m) * 100)%Q
     else ZeroPercent) /\
  (total_possible_pieces m = 0 -> success_rate m = ZeroPercent).
Proof.
  intros Hr Hd m.
  destruct (generate_ok_inv p g0 r Hr)
    as (bnds & mesh & file & lg & xc & yc & zc & rendered & Hbnds & _ & _ & _ & _ & ->).
  destruct (finish_fields p mesh bnds file (loop_state p mesh lg xc yc zc) rendered)
    as (_ & _ & _ & _ & _ & _ & Hc & Ht & Hs).
  pose proof (loop_state_facts p mesh lg xc yc zc) as (_ & _ & Hb).
  cbn zeta in Hc, Ht, Hs, Hb. unfold m. rewrite Hc, Ht, Hs.
  unfold total_pieces_of, success_rate_of in *. rewrite Hd in *.
  split; [reflexivity|]. split; [lia|]. split; [|split].
  - intros Hx Hy Hz. rewrite !Z.max_r in Hb by assumption. lia.
  - reflexivity.
  - intros ->. reflexivity.
Qed.

Lemma statistics_of_a_returned_run_witness :
  exists r, Symbolic.run Symbolic.no_faults (Symbolic.default_params (2, 1, 1)) 0
            = Ok r /\
            piece_count (mesh_info (report r)) = 2 /\
            total_possible_pieces (mesh_info (report r)) = 2 * 1 * 1.
Proof.
  eexists. split; [vm_compute; reflexivity|].
  split; [vm_compute; reflexivity|].
  apply (@statistics_of_a_returned_run
           (Symbolic.trimesh Symbolic.no_faults) Symbolic.lcg
           (Symbolic.pyplot Symbolic.no_faults) Symbolic.os
           (Symbolic.default_params (2, 1, 1)) 0 _ 2 1 1);
    vm_compute; reflexivity.
Defined.

(** C5, as stated, fails for a negative division count: with
    [divisions = (-1, 1, 1)] no [linspace] call raises, no cell is visited,
    and the run returns [piece_count = 0] with
    [total_possible_pieces = -1]. *)
Lemma statistics_negative_division :
  exists r, Symbolic.run Symbolic.no_faults
              (Symbolic.default_params (-1, 1, 1)) 0 = Ok r /\
            piece_count (mesh_info (report r)) = 0 /\
            total_possible_pieces (mesh_info (report r)) = -1 /\
            ~ statistics_as_specified (-1, 1, 1) (mesh_info (report r)).
Proof.
  eexists. split; [vm_compute; reflexivity|].
  split; [reflexivity|]. split; [reflexivity|].
  intros (_ & H & _). cbn in H. lia.
Qed.

(** ** Invocation parameters *)

Lemma linspace_nonneg (start stop : Q) (num : Z) :
  0 <= num -> exists samples, linspace start stop num = Some samples /\
                              length samples = Z.to_nat num.
Proof.
  intros Hn. unfold linspace.
  destruct (Z.ltb_spec num 0) as [?|_]; [lia|].
  eexists. split; [reflexivity|].
  destruct (1 <? num); rewrite ?set_last_length, length_map, range_length;
    reflexivity.
Qed.

Lemma render_nothing `{TM : Trimesh} `{PLT : @Pyplot TM}
    (p : Params) (lg : list Event) :
  render p [] lg = Ok ([], [], lg).
Proof. reflexivity. Qed.

Lemma linspace_some_nonneg (start stop : Q) (num : Z) (samples : list Q) :
  linspace start stop num = Some samples -> 0 <= num.
Proof.
  unfold linspace. destruct (Z.ltb_spec num 0); [discriminate|lia].
Qed.

(** The cut sequences exist exactly when no division count is below -1;
    otherwise [np.linspace] raises. *)
Lemma grid_cuts_total (bounds : Vec3 * Vec3) (nx ny nz : Z) :
  -1 <= nx -> -1 <= ny -> -1 <= nz ->
  exists xc yc zc, grid_cuts bounds (nx, ny, nz) = Ok (xc, yc, zc).
Proof.
  intros Hx Hy Hz. unfold grid_cuts.
  destruct bounds as [[[x_min y_min] z_min] [[x_max y_max] z_max]].
  destruct (linspace_nonneg x_min x_max (nx + 1)) as (xc & -> & _); [lia|].
  destruct (linspace_nonneg y_min y_max (ny + 1)) as (yc & -> & _); [lia|].
  destruct (linspace_nonneg z_min z_max (nz + 1)) as (zc & -> & _); [lia|].
  now exists xc, yc, zc.
Qed.

Lemma grid_cuts_negative (bounds : Vec3 * Vec3) (nx ny nz : Z) :
  nx < -1 \/ ny < -1 \/ nz < -1 ->
  grid_cuts bounds (nx, ny, nz) = Raise ValueError.
Proof.
  intros Hneg. unfold grid_cuts.
  destruct bounds as [[[x_min y_min] z_min] [[x_max y_max] z_max]].
  destruct (linspace x_min x_max (nx + 1)) as [xc|] eqn:Ex; [|reflexivity].
  destruct (linspace y_min y_max (ny + 1)) as [yc|] eqn:Ey; [|reflexivity].
  destruct (linspace z_min z_max (nz + 1)) as [zc|] eqn:Ez; [|reflexivity].
  apply linspace_some_nonneg in Ex, Ey, Ez. lia.
Qed.

(** The previews raise nothing but the error of [plt.savefig]. *)
Lemma save_views_raises `{TM : Trimesh} `{PLT : @Pyplot TM}
    (out : string) (views : list (Z * (Z * Z))) :
  forall paths lg e, save_views out views paths lg = Raise e -> e = SavefigError.
Proof.
  induction views as [|[idx [elev azim]] views IH]; intros paths lg e H.
  - discriminate.
  - cbn [save_views] in H. destruct (savefig _).
    + eapply IH. exact H.
    + now injection H as <-.
Qed.

Lemma render_raises `{TM : Trimesh} `{PLT : @Pyplot TM}
    (p : Params) (pieces : list Solid) (lg : list Event) (e : Exception) :
  render p pieces lg = Raise e -> e = SavefigError.
Proof.
  unfold render. destruct (0 <? Z.of_nat (length pieces)); [|discriminate].
  destruct (linspace_nonneg 0 1 (Z.max 1 (Z.of_nat (length pieces))))
    as (samples & -> & _); [lia|].
  cbn [orRaise bind]. destruct (fold_left _ _ _) as [fig lg1].
  destruct (save_views _ _ [] lg1) as [[views lg2]|e'] eqn:Hs.
  - discriminate.
  - cbn [bind]. intros [= <-]. eapply save_views_raises. exact Hs.
Qed.

(** C7, as amended: [generate_puzzle_from_stl] validates none of its
    parameters.  Once the input mesh is loaded, cleaned and exported and
    has a face left ([mesh.bounds] is not [None]), whatever
    [locks_per_face], [socket_tolerance] and the dimensions of the
    interlock are:
    - a division count below -1 makes [np.linspace] raise [ValueError];
    - with no division count below -1, a seed that numpy refuses raises
      [ValueError], and with a seed it accepts the call raises nothing but
      the error of [plt.savefig]: an invalid parameter is never rejected;
    - with a division count of 0 it returns a report with
      [piece_count = 0], no piece path, no preview image,
      [total_possible_pieces = 0] and [success_rate = "0%"]. *)
Theorem parameters_are_not_validated
    `{TM : Trimesh} `{RNG : PyRandom} `{PLT : @Pyplot TM} `{FS : OS}
    (p : Params) (g0 : Gen) (nx ny nz : Z)
    (mesh : Solid) (bnds : Vec3 * Vec3) (file : string) (lg : list Event) :
  divisions p = (nx, ny, nz) ->
  load_and_clean p = Ok (mesh, file, lg) ->
  mesh_bounds mesh = Some bnds ->
  (nx < -1 \/ ny < -1 \/ nz < -1 ->
   generate_puzzle_from_stl p g0 = Raise ValueError) /\
  (-1 <= nx -> -1 <= ny -> -1 <= nz ->
   (np_random_seed (seed p) = false ->
    generate_puzzle_from_stl p g0 = Raise ValueError) /\
   (np_random_seed (seed p) = true ->
    (forall e, generate_puzzle_from_stl p g0 = Raise e -> e = SavefigError) /\
    (nx = 0 \/ ny = 0 \/ nz = 0 ->
     exists r,
       generate_puzzle_from_stl p g0 = Ok r /\
       piece_count (mesh_info (report r)) = 0 /\
       piece_paths (report r) = [] /\
       view_image_paths (report r) = [] /\
       total_possible_pieces (mesh_info (report r)) = 0 /\
       success_rate (mesh_info (report r)) = ZeroPercent))).
Proof.
  intros Hd Hload Hbnds. split.
  - intros Hneg. unfold generate_puzzle_from_stl.
    rewrite Hload. cbn [bind]. rewrite Hbnds. cbn [orRaise bind].
    rewrite Hd, (grid_cuts_negative bnds nx ny nz Hneg). reflexivity.
  - intros Hx Hy Hz.
    destruct (grid_cuts_total bnds nx ny nz Hx Hy Hz) as (xc & yc & zc & Hgrid).
    split.
    + intros Hseed. unfold generate_puzzle_from_stl.
      rewrite Hload. cbn [bind]. rewrite Hbnds. cbn [orRaise bind].
      rewrite Hd, Hgrid. cbn [bind]. rewrite Hseed. reflexivity.
    + intros Hseed. rewrite <- Hd in Hgrid.
      rewrite (generate_unfold p g0 mesh bnds file lg xc yc zc
                 Hload Hbnds Hgrid Hseed).
      cbn zeta. split.
      * intros e He.
        destruct (render p _ _) as [rendered|e'] eqn:Hr; [discriminate|].
        injection He as <-. eapply render_raises. exact Hr.
      * intros Hzero.
        pose proof (loop_state_facts p mesh lg xc yc zc) as (_ & (Hm & Hp) & Hb).
        cbn zeta in Hb. rewrite Hd in Hb.
        set (s := loop_state p mesh lg xc yc zc) in *.
        assert (Hc : st_piece_count s = 0) by nia.
        assert (Hms : st_piece_meshes s = []).
        { rewrite Hc in Hm. destruct (st_piece_meshes s); [reflexivity|].
          cbn in Hm. lia. }
        assert (Hps : st_piece_paths s = []).
        { rewrite Hms in Hp. destruct (st_piece_paths s); [reflexivity|].
          discriminate. }
        rewrite Hms, render_nothing. eexists. split; [reflexivity|].
        cbn. unfold total_pieces_of, success_rate_of. rewrite Hd, Hc, Hps.
        assert (Ht : nx * ny * nz = 0) by nia. rewrite Ht.
        repeat split.
Qed.

Lemma parameters_are_not_validated_witness :
  exists r,
    Symbolic.run Symbolic.no_faults (Symbolic.default_params (0, 1, 1)) 7 = Ok r /\
    piece_count (mesh_info (report r)) = 0 /\
    piece_paths (report r) = [] /\
    view_image_paths (report r) = [] /\
    total_possible_pieces (mesh_info (report r)) = 0 /\
    success_rate (mesh_info (report r)) = ZeroPercent.
Proof.
  destruct (@parameters_are_not_validated
              (Symbolic.trimesh Symbolic.no_faults) Symbolic.lcg
              (Symbolic.pyplot Symbolic.no_faults) Symbolic.os
              (Symbolic.default_params (0, 1, 1)) 7 0 1 1
              (Symbolic.Cleaned (Symbolic.Loaded "input.stl"))
              ((0, 0, 0), (1, 1, 1))%Q
              "printable_puzzle/input_filled.stl"
              [Step LoadingAndCleaningMesh 5; Step FilledMeshHoles 10;
               Step MeshCleaningComplete 15])
    as (_ & H);
    [reflexivity|vm_compute; reflexivity|reflexivity|].
  destruct H as (_ & H); [lia..|].
  destruct (H eq_refl) as (_ & Hzero).
  apply Hzero. now left.
Defined.

(** C7, as stated, fails: parameters outside the declared constraints (a
    division count of 0; [locks_per_face = 0]; [socket_tolerance = 1.0]) are
    not rejected, the run returns a report. *)
Lemma invalid_parameters_not_rejected :
  let zero_division := Symbolic.default_params (0, 1, 1) in
  let no_locks :=
    mkParams "input.stl" (2, 1, 1) 0 0.3 0.5 0.4 1.06 42 "printable_puzzle" in
  let no_clearance :=
    mkParams "input.stl" (2, 1, 1) 3 0.3 0.5 0.4 1.0 42 "printable_puzzle" in
  (~ within_constraints zero_division /\
   ~ rejected (Symbolic.run Symbolic.no_faults zero_division 0)) /\
  (~ within_constraints no_locks /\
   ~ rejected (Symbolic.run Symbolic.no_faults no_locks 0)) /\
  (~ within_constraints no_clearance /\
   ~ rejected (Symbolic.run Symbolic.no_faults no_clearance 0)).
Proof.
  cbv zeta. repeat split.
  - unfold within_constraints. cbn. lia.
  - intros (e & He). vm_compute in He. discriminate.
  - unfold within_constraints. cbn. lia.
  - intros (e & He). vm_compute in He. discriminate.
  - unfold within_constraints. cbn. intros (_ & _ & _ & _ & H & _).
    vm_compute in H. discriminate.
  - intros (e & He). vm_compute in He. discriminate.
Qed.

(** ** Previews *)

Section Render.
Context `{TM : Trimesh} `{PLT : @Pyplot TM}.






End Render.

Lemma save_views_total `{TM : Trimesh} `{PLT : @Pyplot TM}
    (out : string) (views : list (Z * (Z * Z))) :
  (forall path, savefig path = true) ->
  forall paths lg, exists saved, save_views out views paths lg = Ok saved.
Proof.
  intros Hsave. induction views as [|[idx [elev azim]] views IH]; intros paths lg.
  - eexists. reflexivity.
  - cbn [save_views]. rewrite Hsave. apply IH.
Qed.

(** The previews are produced whenever no [savefig] raises. *)
Lemma render_total `{TM : Trimesh} `{PLT : @Pyplot TM}
    (p : Params) (pieces : list Solid) (lg : list Event) :
  (forall path, savefig path = true) ->
  exists rendered, render p pieces lg = Ok rendered.
Proof.
  intros Hsave. unfold render.
  destruct (0 <? Z.of_nat (length pieces)); [|eexists; reflexivity].
  destruct (linspace_nonneg 0 1 (Z.max 1 (Z.of_nat (length pieces))))
    as (samples & -> & _); [lia|].
  cbn [orRaise bind].
  destruct (fold_left _ _ _) as [fig lg1].
  destruct (save_views_total (output_dir p) (enumerate view_angles) Hsave [] lg1)
    as ([views lg2] & ->).
  eexists. reflexivity.
Qed.




(** ** Export of a piece whose cleanup raises *)

(** Whenever [submesh.process(validate=True)] raises, the export [try] of
    lines 270-282 is left before [submesh.export]: the piece is neither
    exported nor registered nor counted. *)
Lemma export_piece_cleanup_raises `{TM : Trimesh} `{RNG : PyRandom}
    (p : Params) (i j k : Z) (piece : Solid) (s : State) :
  process piece = None ->
  same_pieces s (export_piece p i j k (piece, s)) /\
  st_log (export_piece p i j k (piece, s))
    = st_log s ++ [PieceInfo (ExportFailed i j k)].
Proof.
  intros Hp.
  pose proof (export_piece_cases p i j k piece s) as (_ & _ & Hd & Hx).
  cbn zeta in Hd, Hx. unfold clean_and_export in Hx. rewrite Hp in Hx.
  cbn [obind] in Hx. destruct Hx as (Hm & Hpa & Hc & Hl).
  repeat split; assumption.
Qed.

(** C3 on the code: with [divisions = (1, 1, 1)] and a collaborator whose
    cleanup of the piece raises (nothing else does, the export itself would
    succeed), the run reports the piece as a failed export and returns no
    piece: [piece_count = 0], no piece path, no preview; without the fault
    the same run exports the piece. *)
Theorem cleanup_failure_prevents_export :
  (exists r,
     Symbolic.run Symbolic.cleanup_raises (Symbolic.default_params (1, 1, 1)) 0
       = Ok r /\
     piece_count (mesh_info (report r)) = 0 /\
     piece_paths (report r) = [] /\
     registered r = [] /\
     view_image_paths (report r) = [] /\
     In (PieceInfo (ExportFailed 0 0 0)) (run_log r)) /\
  (exists r,
     Symbolic.run Symbolic.no_faults (Symbolic.default_params (1, 1, 1)) 0
       = Ok r /\
     piece_count (mesh_info (report r)) = 1 /\
     piece_paths (report r) = ["printable_puzzle/piece_0_0_0.stl"%string]).
Proof.
  split.
  - eexists. split; [vm_compute; reflexivity|].
    repeat split. cbn. tauto.
  - eexists. split; [vm_compute; reflexivity|]. split; reflexivity.
Qed.

(** * Further properties of the pipeline *)

(** ** Loops over ranges *)

Lemma range_In (n t : Z) : In t (range n) <-> 0 <= t < n.
Proof.
  unfold range. rewrite in_map_iff. split.
  - intros (m & <- & Hm). apply in_seq in Hm. lia.
  - intros Ht. exists (Z.to_nat t). split; [lia|]. apply in_seq. lia.
Qed.

Lemma NoDup_map_injective {A B : Type} (f : A -> B) (l : list A) :
  (forall a b, In a l -> In b l -> f a = f b -> a = b) ->
  NoDup l -> NoDup (map f l).
Proof.
  intros Hinj Hnd. induction Hnd as [|a l Ha Hnd IH]; cbn; constructor.
  - intros Hin. apply in_map_iff in Hin. destruct Hin as (b & Hb & Hbl).
    apply Ha. rewrite <- (Hinj b a); auto; [now right|now left].
  - apply IH. intros x y Hx Hy. apply Hinj; now right.
Qed.

Lemma range_NoDup (n : Z) : NoDup (range n).
Proof.
  unfold range. apply NoDup_map_injective; [|apply seq_NoDup].
  intros a b _ _ H. lia.
Qed.

(** A loop keeps an invariant that its body keeps on the elements it
    visits. *)
Lemma fold_left_inv_In {A S : Type} (P : S -> Prop)
    (body : S -> A -> S) (l : list A) :
  (forall s a, In a l -> P s -> P (body s a)) ->
  forall s, P s -> P (fold_left body l s).
Proof.
  induction l as [|a l IH]; intros Hbody s Hs; cbn; [assumption|].
  apply IH.
  - intros s' a' Ha'. apply Hbody. now right.
  - apply Hbody; [now left|assumption].
Qed.

(** A loop satisfies a reflexive and transitive relation between the states
    before and after it when its body does on the elements it visits. *)
Lemma fold_left_rel_In {A S : Type} (R : S -> S -> Prop)
    (body : S -> A -> S) (l : list A) :
  (forall s, R s s) ->
  (forall s1 s2 s3, R s1 s2 -> R s2 s3 -> R s1 s3) ->
  (forall s a, In a l -> R s (body s a)) ->
  forall s, R s (fold_left body l s).
Proof.
  intros Hrefl Htrans. induction l as [|a l IH]; intros Hbody s; cbn.
  - apply Hrefl.
  - eapply Htrans; [apply Hbody; now left|].
    apply IH. intros s' a' Ha'. apply Hbody. now right.
Qed.

Section GridLoop.
Context `{TM : Trimesh} `{RNG : PyRandom}.
Variable p : Params.
Variable mesh : Solid.
Variables nx ny nz total_pieces : Z.
Variables x_cuts y_cuts z_cuts : list Q.

Let cell := process_cell p mesh nx ny nz total_pieces x_cuts y_cuts z_cuts.
Let loop := piece_loop p mesh nx ny nz total_pieces x_cuts y_cuts z_cuts.

(** The piece loop only runs its body on the cells of the grid. *)
Lemma piece_loop_inv (P : State -> Prop) :
  (forall s i j k,
     0 <= i < nx -> 0 <= j < ny -> 0 <= k < nz -> P s -> P (cell s i j k)) ->
  forall s, P s -> P (loop s).
Proof.
  intros Hcell. unfold loop, piece_loop.
  apply (fold_left_inv_In P). intros s1 i Hi.
  apply (fold_left_inv_In P). intros s2 j Hj.
  apply (fold_left_inv_In P). intros s3 k Hk.
  apply Hcell; now apply range_In.
Qed.

Lemma piece_loop_rel (R : State -> State -> Prop) :
  (forall s, R s s) ->
  (forall s1 s2 s3, R s1 s2 -> R s2 s3 -> R s1 s3) ->
  (forall s i j k,
     0 <= i < nx -> 0 <= j < ny -> 0 <= k < nz -> R s (cell s i j k)) ->
  forall s, R s (loop s).
Proof.
  intros Hrefl Htrans Hcell. unfold loop, piece_loop.
  apply (fold_left_rel_In R); [assumption..|]. intros s1 i Hi.
  apply (fold_left_rel_In R); [assumption..|]. intros s2 j Hj.
  apply (fold_left_rel_In R); [assumption..|]. intros s3 k Hk.
  apply Hcell; now apply range_In.
Qed.

End GridLoop.

(** ** The centers a cell builds *)

Section CellCenters.
Context `{TM : Trimesh} `{RNG : PyRandom}.
Variable p : Params.
Variables i j k : Z.
Variables x0 x1 y0 y1 z0 z1 : Q.

Lemma x_interlock_center (piece : Solid) (s : State) (n : Z) :
  st_centers (snd (x_interlock p i j k x1 y0 y1 z0 z1 (piece, s) n))
  = st_centers s
    ++ [mkPlacement (i, j, k) "x" n (x_center x1 y0 y1 z0 z1 (st_rng s))
                    (role_of (is_key i j k n))].
Proof.
  unfold x_interlock, x_center, uniform, is_key.
  destruct (random (st_rng s)) as [u1 g1]. destruct (random g1) as [u2 g2].
  destruct (xorb _ _); cbn [role_of];
    (destruct (boolean_union _) || destruct (boolean_difference _)); reflexivity.
Qed.

Lemma y_interlock_center (piece : Solid) (s : State) (n : Z) :
  st_centers (snd (y_interlock p i j k x0 x1 y1 z0 z1 (piece, s) n))
  = st_centers s
    ++ [mkPlacement (i, j, k) "y" n (y_center x0 x1 y1 z0 z1 (st_rng s))
                    (role_of (is_key i j k n))].
Proof.
  unfold y_interlock, y_center, uniform, is_key.
  destruct (random (st_rng s)) as [u1 g1]. destruct (random g1) as [u2 g2].
  destruct (xorb _ _); cbn [role_of];
    (destruct (boolean_union _) || destruct (boolean_difference _)); reflexivity.
Qed.

Lemma z_interlock_center (piece : Solid) (s : State) (n : Z) :
  st_centers (snd (z_interlock p i j k x0 x1 y0 y1 z1 (piece, s) n))
  = st_centers s
    ++ [mkPlacement (i, j, k) "z" n (z_center x0 x1 y0 y1 z1 (st_rng s))
                    (role_of (is_key i j k n))].
Proof.
  unfold z_interlock, z_center, uniform, is_key.
  destruct (random (st_rng s)) as [u1 g1]. destruct (random g1) as [u2 g2].
  destruct (xorb _ _); cbn [role_of];
    (destruct (boolean_union _) || destruct (boolean_difference _)); reflexivity.
Qed.

Variable Pc : Placement -> Prop.

(** A face loop whose steps each add one center satisfying [Pc] keeps
    "every center satisfies [Pc]". *)
Lemma face_loop_forall (step : Solid * State -> Z -> Solid * State)
    (l : list Z) (mk : Gen -> Z -> Placement) :
  (forall piece s n,
     st_centers (snd (step (piece, s) n)) = st_centers s ++ [mk (st_rng s) n]) ->
  (forall g n, In n l -> Pc (mk g n)) ->
  forall acc, Forall Pc (st_centers (snd acc)) ->
              Forall Pc (st_centers (snd (fold_left step l acc))).
Proof.
  intros Hstep Hmk.
  apply (fold_left_inv_In (fun acc => Forall Pc (st_centers (snd acc)))).
  intros [piece s] n Hn Hall. rewrite Hstep. cbn [snd] in Hall.
  apply Forall_app. split; [assumption|]. constructor; [|constructor].
  now apply Hmk.
Qed.

Variables nx ny nz : Z.

(** The three face loops of a cell keep "every center satisfies [Pc]" when
    the centers of its internal faces do. *)
Lemma faces_forall (acc : Solid * State) :
  (forall g n, 0 <= n < locks_per_face p -> i < nx - 1 ->
     Pc (mkPlacement (i, j, k) "x" n (x_center x1 y0 y1 z0 z1 g)
                     (role_of (is_key i j k n)))) ->
  (forall g n, 0 <= n < locks_per_face p -> j < ny - 1 ->
     Pc (mkPlacement (i, j, k) "y" n (y_center x0 x1 y1 z0 z1 g)
                     (role_of (is_key i j k n)))) ->
  (forall g n, 0 <= n < locks_per_face p -> k < nz - 1 ->
     Pc (mkPlacement (i, j, k) "z" n (z_center x0 x1 y0 y1 z1 g)
                     (role_of (is_key i j k n)))) ->
  Forall Pc (st_centers (snd acc)) ->
  Forall Pc (st_centers (snd (faces p nx ny nz i j k x0 x1 y0 y1 z0 z1 acc))).
Proof.
  intros Hx Hy Hz Hacc. unfold faces, x_face, y_face, z_face.
  assert (Hax : Forall Pc
            (st_centers
               (snd (if i <? nx - 1
                     then fold_left (x_interlock p i j k x1 y0 y1 z0 z1)
                                    (range (locks_per_face p)) acc
                     else acc)))).
  { destruct (Z.ltb_spec i (nx - 1)) as [Hi|_]; [|assumption].
    apply (face_loop_forall _ _
             (fun g n => mkPlacement (i, j, k) "x" n
                           (x_center x1 y0 y1 z0 z1 g)
                           (role_of (is_key i j k n))));
      [apply x_interlock_center| |assumption].
    intros g n Hn. apply Hx; [now apply range_In|assumption]. }
  set (ax := if i <? nx - 1 then _ else _) in *.
  assert (Hay : Forall Pc
            (st_centers
               (snd (if j <? ny - 1
                     then fold_left (y_interlock p i j k x0 x1 y1 z0 z1)
                                    (range (locks_per_face p)) ax
                     else ax)))).
  { destruct (Z.ltb_spec j (ny - 1)) as [Hj|_]; [|assumption].
    apply (face_loop_forall _ _
             (fun g n => mkPlacement (i, j, k) "y" n
                           (y_center x0 x1 y1 z0 z1 g)
                           (role_of (is_key i j k n))));
      [apply y_interlock_center| |assumption].
    intros g n Hn. apply Hy; [now apply range_In|assumption]. }
  set (ay := if j <? ny - 1 then _ else _) in *.
  destruct (Z.ltb_spec k (nz - 1)) as [Hk|_]; [|assumption].
  apply (face_loop_forall _ _
           (fun g n => mkPlacement (i, j, k) "z" n
                         (z_center x0 x1 y0 y1 z1 g)
                         (role_of (is_key i j k n))));
    [apply z_interlock_center| |assumption].
  intros g n Hn. apply Hz; [now apply range_In|assumption].
Qed.

End CellCenters.

Section RunCenters.
Context `{TM : Trimesh} `{RNG : PyRandom}.
Variable p : Params.
Variable Pc : Placement -> Prop.

(** What a cell has to show for its centers to satisfy [Pc]. *)
Let cell_obligation (nx ny nz : Z) (x_cuts y_cuts z_cuts : list Q)
    (i j k : Z) : Prop :=
  let x0 := getitem x_cuts i in
  let x1 := getitem x_cuts (i + 1) in
  let y0 := getitem y_cuts j in
  let y1 := getitem y_cuts (j + 1) in
  let z0 := getitem z_cuts k in
  let z1 := getitem z_cuts (k + 1) in
  (forall g n, 0 <= n < locks_per_face p -> i < nx - 1 ->
     Pc (mkPlacement (i, j, k) "x" n (x_center x1 y0 y1 z0 z1 g)
                     (role_of (is_key i j k n)))) /\
  (forall g n, 0 <= n < locks_per_face p -> j < ny - 1 ->
     Pc (mkPlacement (i, j, k) "y" n (y_center x0 x1 y1 z0 z1 g)
                     (role_of (is_key i j k n)))) /\
  (forall g n, 0 <= n < locks_per_face p -> k < nz - 1 ->
     Pc (mkPlacement (i, j, k) "z" n (z_center x0 x1 y0 y1 z1 g)
                     (role_of (is_key i j k n)))).

Lemma process_cell_forall (mesh : Solid) (nx ny nz total_pieces : Z)
    (x_cuts y_cuts z_cuts : list Q) (s : State) (i j k : Z) :
  cell_obligation nx ny nz x_cuts y_cuts z_cuts i j k ->
  Forall Pc (st_centers s) ->
  Forall Pc (st_centers (process_cell p mesh nx ny nz total_pieces
                           x_cuts y_cuts z_cuts s i j k)).
Proof.
  intros (Hx & Hy & Hz) Hs.
  destruct (intersection mesh (cell_cube x_cuts y_cuts z_cuts i j k))
    as [piece|] eqn:Hi; [destruct (is_empty piece) eqn:He|].
  - destruct (process_cell_skipped p mesh nx ny nz total_pieces
                x_cuts y_cuts z_cuts s i j k) as (_ & -> & _);
      [now rewrite Hi|assumption].
  - rewrite (process_cell_ready _ _ _ _ _ _ _ _ _ _ _ _ _ piece Hi He).
    set (acc := cell_faces p nx ny nz x_cuts y_cuts z_cuts i j k
                  (piece, cell_start total_pieces s i j k)).
    assert (Hacc : Forall Pc (st_centers (snd acc))).
    { unfold acc, cell_faces. apply faces_forall; assumption. }
    destruct acc as [piece' s'].
    pose proof (export_piece_cases p i j k piece' s') as (Hc & _).
    cbn zeta in Hc. cbn [incr_completed st_centers]. now rewrite Hc.
  - destruct (process_cell_skipped p mesh nx ny nz total_pieces
                x_cuts y_cuts z_cuts s i j k) as (_ & -> & _);
      [now rewrite Hi|assumption].
Qed.

(** Every center of a returned run satisfies [Pc] when the centers of the
    internal faces of every grid cell do. *)
Lemma run_centers_forall `{PLT : @Pyplot TM} `{FS : OS}
    (g0 : Gen) (r : Run) (nx ny nz : Z) :
  generate_puzzle_from_stl p g0 = Ok r ->
  divisions p = (nx, ny, nz) ->
  (forall x_cuts y_cuts z_cuts i j k,
     grid_cuts (bounds (mesh_info (report r))) (nx, ny, nz)
       = Ok (x_cuts, y_cuts, z_cuts) ->
     0 <= i < nx -> 0 <= j < ny -> 0 <= k < nz ->
     cell_obligation nx ny nz x_cuts y_cuts z_cuts i j k) ->
  Forall Pc (run_centers r).
Proof.
  intros Hr Hd Hob.
  destruct (generate_ok_inv p g0 r Hr)
    as (bnds & mesh & file & lg & xc & yc & zc & rendered & Hbnds & _ & Hgrid & _ & _ & ->).
  destruct rendered as [[views fig] lg2].
  cbn [finish run_centers report mesh_info bounds] in *.
  rewrite Hd in Hgrid. specialize (Hob xc yc zc).
  unfold loop_state. rewrite Hd.
  apply piece_loop_inv; [|constructor].
  intros s i j k Hi Hj Hk Hs. apply process_cell_forall; auto.
Qed.

End RunCenters.

(** X1 — every center a returned run builds is on an internal face of the
    grid: its cell [(i, j, k)] is a grid cell, the cell has a neighbour on
    the +side of the center's axis (no interlock is ever placed on the outer
    boundary of the bounding box or on a -face), its instance number is
    below [locks_per_face], and its role is the one of the parity rule. *)
Theorem centers_on_internal_faces
    `{TM : Trimesh} `{RNG : PyRandom} `{PLT : @Pyplot TM} `{FS : OS}
    (p : Params) (g0 : Gen) (r : Run) :
  generate_puzzle_from_stl p g0 = Ok r ->
  Forall (on_internal_face p) (run_centers r).
Proof.
  intros Hr. destruct (divisions p) as [[nx ny] nz] eqn:Hd.
  apply (run_centers_forall p (on_internal_face p) g0 r nx ny nz Hr Hd).
  intros xc yc zc i j k _ Hi Hj Hk.
  unfold on_internal_face. rewrite Hd. cbn [pl_cell pl_n pl_axis pl_role].
  repeat split; try lia; auto.
Qed.

Lemma centers_on_internal_faces_witness :
  exists r,
    Symbolic.run Symbolic.booleans_raise (Symbolic.default_params (2, 2, 1)) 0
      = Ok r /\
    length (run_centers r) = 12%nat /\
    Forall (on_internal_face (Symbolic.default_params (2, 2, 1)))
           (run_centers r).
Proof.
  eexists. split; [vm_compute; reflexivity|].
  split; [vm_compute; reflexivity|].
  eapply (@centers_on_internal_faces
            (Symbolic.trimesh Symbolic.booleans_raise) Symbolic.lcg
            (Symbolic.pyplot Symbolic.booleans_raise) Symbolic.os
            (Symbolic.default_params (2, 2, 1)) 0).
  vm_compute. reflexivity.
Defined.

(** ** Cut coordinates *)

Lemma inject_Z_pos (n : Z) : 1 <= n -> (0 < inject_Z n)%Q.
Proof.
  intros Hn. change 0%Q with (inject_Z 0). rewrite <- Zlt_Qlt. lia.
Qed.

Lemma getitem_cut (min max : Q) (n t : Z) (cuts : list Q) :
  1 <= n -> linspace min max (n + 1) = Some cuts -> 0 <= t <= n ->
  (getitem cuts t == cut min max n t)%Q.
Proof.
  intros Hn Hl Ht. unfold getitem, cut.
  rewrite (linspace_nth min max n cuts (Z.to_nat t) Hn Hl) by lia.
  now rewrite Z2Nat.id by lia.
Qed.

Lemma cut_mono (min max : Q) (n t t' : Z) :
  1 <= n -> (min <= max)%Q -> t <= t' ->
  (cut min max n t <= cut min max n t')%Q.
Proof.
  intros Hn Hm Ht. unfold cut.
  pose proof (inject_Z_pos n Hn) as Hpos.
  assert (Hstep : (0 <= (max - min) / inject_Z n)%Q).
  { apply Qle_shift_div_l; [assumption|]. lra. }
  assert (Hq : (inject_Z t <= inject_Z t')%Q) by now rewrite <- Zle_Qle.
  setoid_replace (min + inject_Z t * (max - min) / inject_Z n)%Q
    with (min + inject_Z t * ((max - min) / inject_Z n))%Q by (field; lra).
  setoid_replace (min + inject_Z t' * (max - min) / inject_Z n)%Q
    with (min + inject_Z t' * ((max - min) / inject_Z n))%Q by (field; lra).
  nra.
Qed.

Lemma cut_first (min max : Q) (n : Z) : 1 <= n -> (cut min max n 0 == min)%Q.
Proof.
  intros Hn. unfold cut. pose proof (inject_Z_pos n Hn). field. lra.
Qed.

Lemma cut_last (min max : Q) (n : Z) : 1 <= n -> (cut min max n n == max)%Q.
Proof.
  intros Hn. unfold cut. pose proof (inject_Z_pos n Hn). field. lra.
Qed.

Lemma cut_bounds (min max : Q) (n t : Z) :
  1 <= n -> (min <= max)%Q -> 0 <= t <= n ->
  (min <= cut min max n t <= max)%Q.
Proof.
  intros Hn Hm Ht. split.
  - rewrite <- (cut_first min max n Hn) at 1. apply cut_mono; lia || assumption.
  - rewrite <- (cut_last min max n Hn) at 2. apply cut_mono; lia || assumption.
Qed.

Lemma grid_cuts_inv `{TM : Trimesh}
    (x_min y_min z_min x_max y_max z_max : Q) (nx ny nz : Z)
    (x_cuts y_cuts z_cuts : list Q) :
  grid_cuts ((x_min, y_min, z_min), (x_max, y_max, z_max)) (nx, ny, nz)
    = Ok (x_cuts, y_cuts, z_cuts) ->
  linspace x_min x_max (nx + 1) = Some x_cuts /\
  linspace y_min y_max (ny + 1) = Some y_cuts /\
  linspace z_min z_max (nz + 1) = Some z_cuts.
Proof.
  unfold grid_cuts.
  destruct (linspace x_min x_max (nx + 1)) as [xc|]; [|discriminate].
  destruct (linspace y_min y_max (ny + 1)) as [yc|]; [|discriminate].
  destruct (linspace z_min z_max (nz + 1)) as [zc|]; [|discriminate].
  cbn. intros [= <- <- <-]. repeat split.
Qed.

(** ** Margins *)

Lemma in_margin_compat (lo hi lo' hi' c : Q) :
  (lo == lo')%Q -> (hi == hi')%Q -> in_margin lo hi c -> in_margin lo' hi' c.
Proof.
  unfold in_margin. intros Hlo Hhi [H1 H2]. rewrite <- Hlo, <- Hhi. now split.
Qed.

Lemma in_margin_inside (lo hi c : Q) :
  (lo <= hi)%Q -> in_margin lo hi c -> (lo <= c <= hi)%Q.
Proof. unfold in_margin. intros Hle [H1 H2]. split; lra. Qed.

Lemma uniform_in_margin `{RNG : PyRandom} (lo hi : Q) (g : Gen) :
  unit_interval_generator -> (lo <= hi)%Q ->
  in_margin lo hi
    (fst (uniform (lo + 0.2 * (hi - lo)) (hi - 0.2 * (hi - lo)) g)).
Proof.
  intros Hunit Hle. unfold uniform, in_margin.
  pose proof (Hunit g) as [H0 H1].
  destruct (random g) as [u g']. cbn [fst] in *. split; nra.
Qed.

Lemma x_center_eq `{RNG : PyRandom} (x1 y0 y1 z0 z1 : Q) (g : Gen) :
  exists g',
    x_center x1 y0 y1 z0 z1 g
    = (x1,
       fst (uniform (y0 + 0.2 * (y1 - y0)) (y1 - 0.2 * (y1 - y0)) g),
       fst (uniform (z0 + 0.2 * (z1 - z0)) (z1 - 0.2 * (z1 - z0)) g')).
Proof.
  unfold x_center.
  destruct (uniform _ _ g) as [cy g1]. exists g1.
  destruct (uniform _ _ g1) as [cz g2]. reflexivity.
Qed.

Lemma y_center_eq `{RNG : PyRandom} (x0 x1 y1 z0 z1 : Q) (g : Gen) :
  exists g',
    y_center x0 x1 y1 z0 z1 g
    = (fst (uniform (x0 + 0.2 * (x1 - x0)) (x1 - 0.2 * (x1 - x0)) g),
       y1,
       fst (uniform (z0 + 0.2 * (z1 - z0)) (z1 - 0.2 * (z1 - z0)) g')).
Proof.
  unfold y_center.
  destruct (uniform _ _ g) as [cx g1]. exists g1.
  destruct (uniform _ _ g1) as [cz g2]. reflexivity.
Qed.

Lemma z_center_eq `{RNG : PyRandom} (x0 x1 y0 y1 z1 : Q) (g : Gen) :
  exists g',
    z_center x0 x1 y0 y1 z1 g
    = (fst (uniform (x0 + 0.2 * (x1 - x0)) (x1 - 0.2 * (x1 - x0)) g),
       fst (uniform (y0 + 0.2 * (y1 - y0)) (y1 - 0.2 * (y1 - y0)) g'),
       z1).
Proof.
  unfold z_center.
  destruct (uniform _ _ g) as [cx g1]. exists g1.
  destruct (uniform _ _ g1) as [cy g2]. reflexivity.
Qed.

Section AxisFacts.
Context `{RNG : PyRandom}.
Variables (min max : Q) (n t : Z) (cuts : list Q).
Hypothesis Hunit : unit_interval_generator.
Hypothesis Hcuts : linspace min max (n + 1) = Some cuts.
Hypothesis Hord : (min <= max)%Q.
Hypothesis Ht : 0 <= t < n.

(** A coordinate drawn across the cell [t] of an axis is inside the margin
    of that cell, hence between the bounds of the axis. *)
Lemma drawn_in_margin (g : Gen) :
  let c := fst (uniform (getitem cuts t + 0.2 * (getitem cuts (t + 1) - getitem cuts t))
                        (getitem cuts (t + 1) - 0.2 * (getitem cuts (t + 1) - getitem cuts t))
                        g) in
  in_margin (cut min max n t) (cut min max n (t + 1)) c /\
  (min <= c <= max)%Q.
Proof.
  intros c.
  assert (Hn : 1 <= n) by lia.
  pose proof (getitem_cut min max n t cuts Hn Hcuts ltac:(lia)) as H0.
  pose proof (getitem_cut min max n (t + 1) cuts Hn Hcuts ltac:(lia)) as H1.
  pose proof (cut_mono min max n t (t + 1) Hn Hord ltac:(lia)) as Hm.
  assert (Hle : (getitem cuts t <= getitem cuts (t + 1))%Q) by now rewrite H0, H1.
  assert (Hmargin : in_margin (cut min max n t) (cut min max n (t + 1)) c).
  { apply (in_margin_compat (getitem cuts t) (getitem cuts (t + 1)));
      [assumption..|].
    now apply uniform_in_margin. }
  split; [assumption|].
  apply in_margin_inside in Hmargin; [|assumption].
  pose proof (cut_bounds min max n t Hn Hord ltac:(lia)).
  pose proof (cut_bounds min max n (t + 1) Hn Hord ltac:(lia)).
  split; lra.
Qed.

(** The +face of the cell [t] is the cut [t + 1], between the bounds. *)
Lemma face_plane :
  (getitem cuts (t + 1) == cut min max n (t + 1))%Q /\
  (min <= getitem cuts (t + 1) <= max)%Q.
Proof.
  assert (Hn : 1 <= n) by lia.
  pose proof (getitem_cut min max n (t + 1) cuts Hn Hcuts ltac:(lia)) as H1.
  split; [assumption|]. rewrite H1. apply cut_bounds; lia || assumption.
Qed.

End AxisFacts.

(** X2 — when the generator draws in [0, 1) and the bounds of the mesh are
    ordered, every center of a returned run lies on the +face of its own
    cell (on the cut plane [i + 1] of its axis), at least 20% of the cell's
    extent away from the edges of that face, and inside the bounding box of
    the mesh. *)
Theorem centers_on_face_in_margin
    `{TM : Trimesh} `{RNG : PyRandom} `{PLT : @Pyplot TM} `{FS : OS}
    (p : Params) (g0 : Gen) (r : Run) :
  generate_puzzle_from_stl p g0 = Ok r ->
  unit_interval_generator ->
  ordered_bounds (bounds (mesh_info (report r))) ->
  Forall (fun c =>
            on_face_in_margin (bounds (mesh_info (report r))) (divisions p) c /\
            inside_bounds (bounds (mesh_info (report r))) (pl_center c))
         (run_centers r).
Proof.
  intros Hr Hunit Hord. destruct (divisions p) as [[nx ny] nz] eqn:Hd.
  apply (run_centers_forall p _ g0 r nx ny nz Hr Hd).
  intros xc yc zc i j k Hgrid Hi Hj Hk.
  destruct (bounds (mesh_info (report r)))
    as [[[x_min y_min] z_min] [[x_max y_max] z_max]].
  destruct Hord as (Hox & Hoy & Hoz).
  apply grid_cuts_inv in Hgrid. destruct Hgrid as (Hx & Hy & Hz).
  pose proof (face_plane x_min x_max nx i xc Hx Hox Hi) as (Hpx & Hbx).
  pose proof (face_plane y_min y_max ny j yc Hy Hoy Hj) as (Hpy & Hby).
  pose proof (face_plane z_min z_max nz k zc Hz Hoz Hk) as (Hpz & Hbz).
  pose proof (drawn_in_margin x_min x_max nx i xc Hunit Hx Hox Hi) as Hdx.
  pose proof (drawn_in_margin y_min y_max ny j yc Hunit Hy Hoy Hj) as Hdy.
  pose proof (drawn_in_margin z_min z_max nz k zc Hunit Hz Hoz Hk) as Hdz.
  cbn zeta in Hdx, Hdy, Hdz.
  split; [|split]; intros g n _ _.
  - destruct (x_center_eq (getitem xc (i + 1)) (getitem yc j) (getitem yc (j + 1))
                (getitem zc k) (getitem zc (k + 1)) g) as (g' & Hc).
    unfold on_face_in_margin, inside_bounds.
    cbn [pl_cell pl_center pl_axis]. rewrite Hc.
    destruct (Hdy g) as ((? & ?) & ? & ?). destruct (Hdz g') as ((? & ?) & ? & ?).
    destruct Hbx. cbn. repeat split; assumption.
  - destruct (y_center_eq (getitem xc i) (getitem xc (i + 1)) (getitem yc (j + 1))
                (getitem zc k) (getitem zc (k + 1)) g) as (g' & Hc).
    unfold on_face_in_margin, inside_bounds.
    cbn [pl_cell pl_center pl_axis]. rewrite Hc.
    destruct (Hdx g) as ((? & ?) & ? & ?). destruct (Hdz g') as ((? & ?) & ? & ?).
    destruct Hby. cbn. repeat split; assumption.
  - destruct (z_center_eq (getitem xc i) (getitem xc (i + 1)) (getitem yc j)
                (getitem yc (j + 1)) (getitem zc (k + 1)) g) as (g' & Hc).
    unfold on_face_in_margin, inside_bounds.
    cbn [pl_cell pl_center pl_axis]. rewrite Hc.
    destruct (Hdx g) as ((? & ?) & ? & ?). destruct (Hdy g') as ((? & ?) & ? & ?).
    destruct Hbz. cbn. repeat split; assumption.
Qed.

(** The generator of the symbolic collaborator draws in [0, 1). *)
Lemma lcg_unit_interval : @unit_interval_generator Symbolic.lcg.
Proof.
  intros g. cbn [random Symbolic.lcg fst].
  pose proof (Z.mod_pos_bound (5 * g + 3) Symbolic.lcg_modulus eq_refl) as Hm.
  set (m := (5 * g + 3) mod Symbolic.lcg_modulus) in *.
  unfold Symbolic.lcg_modulus in *.
  unfold Qdiv, Qmult, Qinv, Qle, Qlt, inject_Z. cbn. lia.
Qed.

Lemma centers_on_face_in_margin_witness :
  exists r,
    Symbolic.run Symbolic.no_faults (Symbolic.default_params (2, 2, 1)) 0 = Ok r /\
    Forall (fun c => inside_bounds ((0, 0, 0), (1, 1, 1))%Q (pl_center c))
           (run_centers r).
Proof.
  eexists. split; [vm_compute; reflexivity|].
  eapply Forall_impl;
    [|eapply (@centers_on_face_in_margin
                (Symbolic.trimesh Symbolic.no_faults) Symbolic.lcg
                (Symbolic.pyplot Symbolic.no_faults) Symbolic.os
                (Symbolic.default_params (2, 2, 1)) 0)].
  - intros c [_ H]. exact H.
  - vm_compute. reflexivity.
  - exact lcg_unit_interval.
  - cbn. repeat split; discriminate.
Defined.

(** ** Runs that return *)

(** X3 — once the input mesh is loaded, cleaned and exported with a face
    left ([mesh.bounds] is not [None]), the seed is accepted and no
    division count is below -1, the run returns whenever [plt.savefig]
    does not raise: no exception of a cell's intersection, of
    an interlock's union or difference, of a piece's cleanup or export, or
    of a piece's drawing escapes.  The report then has as many piece paths
    as [piece_count] says, and the bounds and watertightness of the cleaned
    input mesh. *)
Theorem run_returns_despite_piece_failures
    `{TM : Trimesh} `{RNG : PyRandom} `{PLT : @Pyplot TM} `{FS : OS}
    (p : Params) (g0 : Gen) (nx ny nz : Z)
    (mesh : Solid) (bnds : Vec3 * Vec3) (file : string) (lg : list Event) :
  divisions p = (nx, ny, nz) ->
  -1 <= nx -> -1 <= ny -> -1 <= nz ->
  load_and_clean p = Ok (mesh, file, lg) ->
  mesh_bounds mesh = Some bnds ->
  np_random_seed (seed p) = true ->
  (forall path, savefig path = true) ->
  exists r,
    generate_puzzle_from_stl p g0 = Ok r /\
    Z.of_nat (length (piece_paths (report r)))
      = piece_count (mesh_info (report r)) /\
    bounds (mesh_info (report r)) = bnds /\
    watertight (mesh_info (report r)) = is_watertight mesh /\
    filled_mesh_file (mesh_info (report r)) = file.
Proof.
  intros Hd Hx Hy Hz Hload Hbnds Hseed Hsave.
  destruct (grid_cuts_total bnds nx ny nz Hx Hy Hz)
    as (xc & yc & zc & Hgrid).
  rewrite <- Hd in Hgrid.
  rewrite (generate_unfold p g0 mesh bnds file lg xc yc zc
             Hload Hbnds Hgrid Hseed).
  cbn zeta.
  pose proof (loop_state_facts p mesh lg xc yc zc) as (_ & (Hm & Hp) & _).
  set (s := loop_state p mesh lg xc yc zc) in *.
  destruct (render_total p (st_piece_meshes s)
              (st_log s ++ [Step (ExportedPuzzlePieces (st_piece_count s)) 85])
              Hsave) as ([[views fig] lg2] & ->).
  eexists. split; [reflexivity|]. cbn. repeat split. now rewrite Hp.
Qed.

Lemma run_returns_despite_piece_failures_witness :
  exists r,
    Symbolic.run pieces_fail (Symbolic.default_params (2, 2, 1)) 0 = Ok r /\
    piece_count (mesh_info (report r)) = 0.
Proof.
  destruct (@run_returns_despite_piece_failures
              (Symbolic.trimesh pieces_fail) Symbolic.lcg
              (Symbolic.pyplot pieces_fail) Symbolic.os
              (Symbolic.default_params (2, 2, 1)) 0 2 2 1
              (Symbolic.Cleaned (Symbolic.Loaded "input.stl"))
              ((0, 0, 0), (1, 1, 1))%Q
              "printable_puzzle/input_filled.stl"
              [Step LoadingAndCleaningMesh 5; Step FilledMeshHoles 10;
               Step MeshCleaningComplete 15])
    as (r & Hr & Hc & _);
    [reflexivity|lia|lia|lia|vm_compute; reflexivity|reflexivity
    |reflexivity|intros path; reflexivity|].
  exists r. split; [exact Hr|].
  rewrite <- Hc.
  assert (Hrun : Symbolic.run pieces_fail (Symbolic.default_params (2, 2, 1)) 0
                 = Ok r) by exact Hr.
  vm_compute in Hrun. injection Hrun as <-. reflexivity.
Defined.



(** X5 — a run builds no interlock when [locks_per_face] is not positive,
    or when no axis has more than one division (no cell has a neighbour):
    it builds no center and the generator is left in its seeded state. *)
Theorem no_interlock_without_neighbour_or_locks
    `{TM : Trimesh} `{RNG : PyRandom} `{PLT : @Pyplot TM} `{FS : OS}
    (p : Params) (g0 : Gen) (r : Run) :
  generate_puzzle_from_stl p g0 = Ok r ->
  locks_per_face p <= 0 \/
  (let '(nx, ny, nz) := divisions p in nx <= 1 /\ ny <= 1 /\ nz <= 1) ->
  run_centers r = [] /\ final_rng r = seed_state (seed p).
Proof.
  intros Hr Hno. destruct (divisions p) as [[nx ny] nz] eqn:Hd.
  assert (Hcs : Forall (fun _ => False) (run_centers r)).
  { apply (run_centers_forall p _ g0 r nx ny nz Hr Hd).
    intros xc yc zc i j k _ Hi Hj Hk. cbn zeta.
    repeat split; intros g n Hn Hlt; lia. }
  assert (Hnil : run_centers r = []).
  { destruct (run_centers r) as [|c cs]; [reflexivity|].
    now apply Forall_inv in Hcs. }
  split; [assumption|].
  destruct (generate_ok_inv p g0 r Hr)
    as (bnds & mesh & file & lg & xc & yc & zc & rendered & Hbnds & _ & _ & _ & _ & ->).
  pose proof (finish_fields p mesh bnds file (loop_state p mesh lg xc yc zc) rendered)
    as (Hg & Hc & _).
  cbn zeta in Hg, Hc. rewrite Hg. rewrite Hc in Hnil.
  pose proof (loop_state_facts p mesh lg xc yc zc) as (Hrng & _).
  cbn zeta in Hrng. rewrite Hrng, Hnil. reflexivity.
Qed.

Lemma no_interlock_without_neighbour_or_locks_witness :
  exists r,
    Symbolic.run Symbolic.no_faults (Symbolic.default_params (1, 1, 1)) 0 = Ok r /\
    length (registered r) = 1%nat /\
    run_centers r = [] /\ final_rng r = 42.
Proof.
  eexists. split; [vm_compute; reflexivity|].
  split; [vm_compute; reflexivity|].
  eapply (@no_interlock_without_neighbour_or_locks
            (Symbolic.trimesh Symbolic.no_faults) Symbolic.lcg
            (Symbolic.pyplot Symbolic.no_faults) Symbolic.os
            (Symbolic.default_params (1, 1, 1)) 0).
  - vm_compute. reflexivity.
  - right. cbn. lia.
Defined.

(** ** The progress log *)

Lemma extended_by_refl (note : Event -> Prop) (lg : list Event) :
  extended_by note lg lg.
Proof. exists []. now rewrite app_nil_r. Qed.

Lemma extended_by_trans (note : Event -> Prop) (a b c : list Event) :
  extended_by note a b -> extended_by note b c -> extended_by note a c.
Proof.
  intros (x & -> & Hx) (y & -> & Hy). exists (x ++ y).
  split; [now rewrite app_assoc|]. apply Forall_app. now split.
Qed.

Lemma extended_by_one (note : Event -> Prop) (lg : list Event) (e : Event) :
  note e -> extended_by note lg (lg ++ [e]).
Proof. intros He. exists [e]. split; [reflexivity|]. now constructor. Qed.

(** An observation that ignores the notes of an extension does not see
    it. *)
Lemma flat_map_silent {B : Type} (f : Event -> list B)
    (note : Event -> Prop) (lg lg' : list Event) :
  (forall e, note e -> f e = []) ->
  extended_by note lg lg' -> flat_map f lg' = flat_map f lg.
Proof.
  intros Hf (extra & -> & Hextra). rewrite flat_map_app.
  rewrite <- (app_nil_r (flat_map f lg)) at 2. f_equal.
  induction Hextra as [|e extra He _ IH]; [reflexivity|].
  cbn. now rewrite (Hf e He), IH.
Qed.

Lemma interlock_error_silent (i j k : Z) (e : Event) :
  interlock_error_of i j k e ->
  announcement e = [] /\ reported_cell e = [] /\ exported_cell e = [].
Proof. intros (face & ->). repeat split. Qed.

Lemma preview_note_silent (e : Event) :
  preview_note e ->
  announcement e = [] /\ reported_cell e = [] /\ exported_cell e = [].
Proof. intros (idx & [-> | ->]); repeat split. Qed.

Section CellLog.
Context `{TM : Trimesh} `{RNG : PyRandom}.
Variable p : Params.
Variable mesh : Solid.
Variables nx ny nz total_pieces : Z.
Variables x_cuts y_cuts z_cuts : list Q.

Lemma quiet_faces_refl (i j k : Z) (s : State) : quiet_faces i j k s s.
Proof. split; [apply same_pieces_refl|apply extended_by_refl]. Qed.

Lemma quiet_faces_trans (i j k : Z) (s1 s2 s3 : State) :
  quiet_faces i j k s1 s2 -> quiet_faces i j k s2 s3 ->
  quiet_faces i j k s1 s3.
Proof.
  intros (Hp & Hl) (Hp' & Hl'). split.
  - eapply same_pieces_trans; eassumption.
  - eapply extended_by_trans; eassumption.
Qed.

(** An interlock step adds at most an interlock error of its cell. *)
Lemma interlock_step_quiet (i j k : Z) (axis face : string) (n : Z)
    (acc acc' : Solid * State) :
  interlock_step_ok p (i, j, k) axis face n acc acc' ->
  quiet_faces i j k (snd acc) (snd acc').
Proof.
  destruct acc as [piece s], acc' as [piece' s']. cbn [interlock_step_ok snd].
  intros (c & _ & _ & _ & _ & _ & Hm & Hp & Hc & Hd & Hlog).
  split; [repeat split; assumption|].
  destruct (apply_interlock p c piece).
  - destruct Hlog as (_ & ->). apply extended_by_refl.
  - destruct Hlog as (_ & ->). apply extended_by_one. now exists face.
Qed.

Lemma face_loop_quiet (i j k : Z) (axis face : string)
    (step : Solid * State -> Z -> Solid * State) (l : list Z)
    (acc : Solid * State) :
  (forall acc n, interlock_step_ok p (i, j, k) axis face n acc (step acc n)) ->
  quiet_faces i j k (snd acc) (snd (fold_left step l acc)).
Proof.
  intros Hstep.
  apply (fold_left_rel_In
           (fun a a' : Solid * State => quiet_faces i j k (snd a) (snd a'))).
  - intros a. apply quiet_faces_refl.
  - intros a1 a2 a3. apply quiet_faces_trans.
  - intros a n _. eapply interlock_step_quiet. apply Hstep.
Qed.

Lemma cell_faces_quiet (i j k : Z) (acc : Solid * State) :
  quiet_faces i j k (snd acc)
    (snd (cell_faces p nx ny nz x_cuts y_cuts z_cuts i j k acc)).
Proof.
  unfold cell_faces, faces.
  set (x0 := getitem x_cuts i). set (x1 := getitem x_cuts (i + 1)).
  set (y0 := getitem y_cuts j). set (y1 := getitem y_cuts (j + 1)).
  set (z0 := getitem z_cuts k). set (z1 := getitem z_cuts (k + 1)).
  set (ax := x_face p i j k x1 y0 y1 z0 z1 nx acc).
  set (ay := y_face p i j k x0 x1 y1 z0 z1 ny ax).
  apply quiet_faces_trans with (s2 := snd ax);
    [|apply quiet_faces_trans with (s2 := snd ay)].
  - unfold ax, x_face. destruct (i <? nx - 1); [|apply quiet_faces_refl].
    apply (face_loop_quiet i j k "x" "X"). apply x_interlock_ok.
  - unfold ay, y_face. destruct (j <? ny - 1); [|apply quiet_faces_refl].
    apply (face_loop_quiet i j k "y" "Y"). apply y_interlock_ok.
  - unfold z_face. destruct (k <? nz - 1); [|apply quiet_faces_refl].
    apply (face_loop_quiet i j k "z" "Z"). apply z_interlock_ok.
Qed.

Let cell := process_cell p mesh nx ny nz total_pieces x_cuts y_cuts z_cuts.

(** What one cell adds to the log and to the registered pieces: its
    announcement, interlock errors (which the observations ignore), and
    one closing report; its file when the report is "exported
    successfully". *)
Lemma process_cell_log (s : State) (i j k : Z) :
  announcements (st_log (cell s i j k))
    = announcements (st_log s)
      ++ [(GeneratingPiece i j k,
           piece_progress total_pieces (st_completed_pieces s))] /\
  reported_cells (st_log (cell s i j k)) = reported_cells (st_log s) ++ [(i, j, k)] /\
  st_completed_pieces (cell s i j k) = st_completed_pieces s + 1 /\
  ((exported_cells (st_log (cell s i j k))
      = exported_cells (st_log s) ++ [(i, j, k)] /\
    st_piece_paths (cell s i j k)
      = st_piece_paths s ++ [piece_filename p i j k] /\
    st_piece_count (cell s i j k) = st_piece_count s + 1)
   \/
   (exported_cells (st_log (cell s i j k)) = exported_cells (st_log s) /\
    st_piece_paths (cell s i j k) = st_piece_paths s /\
    st_piece_count (cell s i j k) = st_piece_count s)).
Proof.
  destruct (intersection mesh (cell_cube x_cuts y_cuts z_cuts i j k))
    as [piece|] eqn:Hi; [destruct (is_empty piece) eqn:He|].
  - unfold cell, process_cell. fold (cell_cube x_cuts y_cuts z_cuts i j k).
    rewrite Hi, He.
    cbn [update_progress incr_completed st_log st_completed_pieces
         st_piece_paths st_piece_count].
    unfold announcements, reported_cells, exported_cells.
    rewrite !flat_map_app. cbn. rewrite !app_nil_r.
    repeat split. right. repeat split.
  - unfold cell. rewrite (process_cell_ready _ _ _ _ _ _ _ _ _ _ _ _ _ piece Hi He).
    pose proof (cell_faces_quiet i j k (piece, cell_start total_pieces s i j k))
      as ((Hm & Hp & Hc & Hd) & Hl).
    destruct (cell_faces p nx ny nz x_cuts y_cuts z_cuts i j k
                (piece, cell_start total_pieces s i j k)) as [piece' s'].
    cbn [snd cell_start update_progress st_piece_meshes st_piece_paths
         st_piece_count st_completed_pieces st_log] in Hm, Hp, Hc, Hd, Hl.
    pose proof (export_piece_cases p i j k piece' s') as (_ & _ & Hd' & Hx).
    cbn zeta in Hd', Hx.
    cbn [incr_completed st_log st_completed_pieces st_piece_paths
         st_piece_count].
    assert (Ha : announcements (st_log s')
                 = announcements (st_log s)
                   ++ [(GeneratingPiece i j k,
                        piece_progress total_pieces (st_completed_pieces s))]).
    { unfold announcements.
      rewrite (flat_map_silent announcement _ _ _
                 (fun e H => proj1 (interlock_error_silent i j k e H)) Hl).
      rewrite flat_map_app. reflexivity. }
    assert (Hr : reported_cells (st_log s') = reported_cells (st_log s)).
    { unfold reported_cells.
      rewrite (flat_map_silent reported_cell _ _ _
                 (fun e H => proj1 (proj2 (interlock_error_silent i j k e H))) Hl).
      rewrite flat_map_app. cbn. now rewrite app_nil_r. }
    assert (He' : exported_cells (st_log s') = exported_cells (st_log s)).
    { unfold exported_cells.
      rewrite (flat_map_silent exported_cell _ _ _
                 (fun e H => proj2 (proj2 (interlock_error_silent i j k e H))) Hl).
      rewrite flat_map_app. cbn. now rewrite app_nil_r. }
    rewrite Hd', Hd.
    destruct (clean_and_export piece' _) as [cleaned|];
      destruct Hx as (_ & Hp' & Hc' & Hl'); rewrite Hl', Hp', Hc', Hp, Hc;
      unfold announcements, reported_cells, exported_cells in *;
      rewrite !flat_map_app; cbn; rewrite ?app_nil_r, Ha, Hr, He';
      repeat split; [left|right]; repeat split.
  - unfold cell, process_cell. fold (cell_cube x_cuts y_cuts z_cuts i j k).
    rewrite Hi.
    cbn [update_progress incr_completed st_log st_completed_pieces
         st_piece_paths st_piece_count].
    unfold announcements, reported_cells, exported_cells.
    rewrite !flat_map_app. cbn. rewrite !app_nil_r.
    repeat split. right. repeat split.
Qed.

End CellLog.

(** ** The piece loop as one loop over the cells of the grid *)

Lemma fold_left_flat_map {A B S : Type} (body : S -> B -> S)
    (f : A -> list B) (l : list A) :
  forall s,
    fold_left body (flat_map f l) s
    = fold_left (fun s a => fold_left body (f a) s) l s.
Proof.
  induction l as [|a l IH]; intros s; cbn; [reflexivity|].
  now rewrite fold_left_app, IH.
Qed.

Lemma fold_left_map {A B S : Type} (body : S -> B -> S) (g : A -> B)
    (l : list A) :
  forall s, fold_left body (map g l) s = fold_left (fun s a => body s (g a)) l s.
Proof. induction l as [|a l IH]; intros s; cbn; auto. Qed.

Lemma fold_left_ext_body {A S : Type} (f g : S -> A -> S) (l : list A) :
  (forall s a, f s a = g s a) ->
  forall s, fold_left f l s = fold_left g l s.
Proof.
  intros H. induction l as [|a l IH]; intros s; cbn; [reflexivity|].
  now rewrite H, IH.
Qed.

Lemma subsequence_refl {A : Type} (l : list A) : subsequence l l.
Proof.
  induction l; [apply subsequence_nil|now apply subsequence_take].
Qed.

Lemma subsequence_nil_l {A : Type} (l : list A) : subsequence [] l.
Proof.
  induction l; [apply subsequence_nil|now apply subsequence_skip].
Qed.

Lemma subsequence_In {A : Type} (sub l : list A) (a : A) :
  subsequence sub l -> In a sub -> In a l.
Proof.
  induction 1 as [|b sub l _ IH|b sub l _ IH]; intros Hin.
  - assumption.
  - right. auto.
  - destruct Hin as [->|Hin]; [now left|right; auto].
Qed.

Lemma subsequence_NoDup {A : Type} (sub l : list A) :
  subsequence sub l -> NoDup l -> NoDup sub.
Proof.
  induction 1 as [|b sub l Hs IH|b sub l Hs IH]; intros Hnd.
  - constructor.
  - apply IH. now inversion Hnd.
  - inversion Hnd as [|? ? Hb Hl]; subst. constructor; [|auto].
    intros Hin. apply Hb. eapply subsequence_In; eassumption.
Qed.

Lemma subsequence_length {A : Type} (sub l : list A) :
  subsequence sub l -> (length sub <= length l)%nat.
Proof. induction 1; cbn; lia. Qed.

Section GridLog.
Context `{TM : Trimesh} `{RNG : PyRandom}.
Variable p : Params.
Variable mesh : Solid.
Variables nx ny nz total_pieces : Z.
Variables x_cuts y_cuts z_cuts : list Q.

Let visit := visit_cell p mesh nx ny nz total_pieces x_cuts y_cuts z_cuts.

(** The three nested loops visit the cells of [grid_cells] in order. *)
Lemma piece_loop_flat (s : State) :
  piece_loop p mesh nx ny nz total_pieces x_cuts y_cuts z_cuts s
  = fold_left visit (grid_cells nx ny nz) s.
Proof.
  unfold piece_loop, grid_cells. rewrite fold_left_flat_map.
  apply fold_left_ext_body. intros s1 i.
  rewrite fold_left_flat_map.
  apply fold_left_ext_body. intros s2 j.
  rewrite fold_left_map. reflexivity.
Qed.

(** What a loop over [cells] adds to the log and to the registered
    pieces. *)
Lemma cells_log (cells : list (Z * Z * Z)) :
  forall s,
    let s' := fold_left visit cells s in
    announcements (st_log s')
      = announcements (st_log s)
        ++ cell_announcements total_pieces (st_completed_pieces s) cells /\
    reported_cells (st_log s') = reported_cells (st_log s) ++ cells /\
    st_completed_pieces s' = st_completed_pieces s + Z.of_nat (length cells) /\
    exists exported,
      exported_cells (st_log s') = exported_cells (st_log s) ++ exported /\
      subsequence exported cells /\
      st_piece_paths s' = st_piece_paths s ++ map (cell_filename p) exported /\
      st_piece_count s' = st_piece_count s + Z.of_nat (length exported).
Proof.
  induction cells as [|[[i j] k] cells IH]; intros s.
  - cbn. rewrite !app_nil_r. repeat split; [lia|].
    exists []. cbn. rewrite !app_nil_r.
    split; [reflexivity|]. split; [apply subsequence_nil|].
    split; [reflexivity|lia].
  - cbn [fold_left]. cbn zeta.
    destruct (IH (visit s (i, j, k))) as (Ha & Hr & Hd & ex & He & Hs & Hp & Hc).
    cbn zeta in Ha, Hr, Hd, He, Hp, Hc.
    pose proof (process_cell_log p mesh nx ny nz total_pieces
                  x_cuts y_cuts z_cuts s i j k) as (Ha1 & Hr1 & Hd1 & Hx).
    change (process_cell p mesh nx ny nz total_pieces x_cuts y_cuts z_cuts
              s i j k) with (visit s (i, j, k)) in Ha1, Hr1, Hd1, Hx.
    rewrite Ha, Hr, Hd, Ha1, Hr1, Hd1, <- !app_assoc.
    cbn [cell_announcements app length].
    repeat split; [lia|].
    destruct Hx as [(He1 & Hp1 & Hc1)|(He1 & Hp1 & Hc1)].
    + exists ((i, j, k) :: ex).
      rewrite He, Hp, Hc, He1, Hp1, Hc1, <- !app_assoc.
      cbn [map app length cell_filename].
      repeat split; [now apply subsequence_take|lia].
    + exists ex. rewrite He, Hp, Hc, He1, Hp1, Hc1.
      repeat split. now apply subsequence_skip.
Qed.

End GridLog.

(** ** The log of the other stages *)

Lemma load_and_clean_log `{TM : Trimesh} `{FS : OS} (p : Params)
    (mesh : Solid) (file : string) (lg : list Event) :
  load_and_clean p = Ok (mesh, file, lg) ->
  exists hole,
    (hole = FilledMeshHoles \/ hole = HoleFillingFailed) /\
    lg = [Step LoadingAndCleaningMesh 5; Step hole 10;
          Step MeshCleaningComplete 15].
Proof.
  unfold load_and_clean.
  destruct (makedirs _); [|discriminate]. cbn [check bind].
  destruct (load_mesh _) as [m0|]; [|discriminate]. cbn [orRaise bind].
  destruct (remove_duplicate_faces m0) as [m1|]; [|discriminate].
  cbn [orRaise bind].
  destruct (remove_degenerate_faces m1) as [m2|]; [|discriminate].
  cbn [orRaise bind].
  destruct (fill_holes m2) as [m3|].
  - destruct (process m3) as [m4|]; [|discriminate]. cbn [orRaise bind].
    destruct (export m4 _); [|discriminate]. cbn [check bind].
    intros H. injection H as _ _ <-. exists FilledMeshHoles. split; auto.
  - destruct (process m2) as [m4|]; [|discriminate]. cbn [orRaise bind].
    destruct (export m4 _); [|discriminate]. cbn [check bind].
    intros H. injection H as _ _ <-. exists HoleFillingFailed. split; auto.
Qed.

Section RenderLog.
Context `{TM : Trimesh} `{PLT : @Pyplot TM}.

Lemma draw_piece_notes (colors : list Color) (acc : Figure * list Event)
    (it : Z * Solid) :
  extended_by preview_note (snd acc) (snd (draw_piece colors acc it)).
Proof.
  destruct acc as [fig lg], it as [idx m]. unfold draw_piece.
  destruct (nth_error colors _) as [c|];
    [destruct (add_collection3d m c)|]; cbn [snd];
    try apply extended_by_refl;
    apply extended_by_one; exists idx; now left.
Qed.

Lemma save_views_notes (out : string) (views : list (Z * (Z * Z))) :
  forall paths lg paths' lg',
    save_views out views paths lg = Ok (paths', lg') ->
    extended_by preview_note lg lg'.
Proof.
  induction views as [|[idx [elev azim]] views IH]; intros paths lg paths' lg' H.
  - cbn in H. injection H as _ <-. apply extended_by_refl.
  - cbn [save_views] in H. destruct (savefig _); [|discriminate].
    apply IH in H. eapply extended_by_trans; [|exact H].
    apply extended_by_one. exists (idx + 1). now right.
Qed.

(** The previews announce two steps when there is a piece, none
    otherwise, and close no cell. *)
Lemma render_log (p : Params) (pieces : list Solid) (lg : list Event)
    (rendered : list string * Figure * list Event) :
  render p pieces lg = Ok rendered ->
  announcements (snd rendered)
    = announcements lg
      ++ (if 0 <? Z.of_nat (length pieces)
          then [(Generating3DPreviews, 90%Q); (PreviewsGenerated, 95%Q)]
          else []) /\
  reported_cells (snd rendered) = reported_cells lg /\
  exported_cells (snd rendered) = exported_cells lg.
Proof.
  unfold render. destruct (0 <? Z.of_nat (length pieces)).
  2:{ intros H. injection H as <-. cbn [snd]. now rewrite app_nil_r. }
  destruct (linspace 0 1 _) as [samples|]; [|discriminate].
  cbn [orRaise bind].
  pose proof (fold_left_rel_In
                (fun a a' : Figure * list Event =>
                   extended_by preview_note (snd a) (snd a'))
                (draw_piece (map cm_tab20 samples)) (enumerate pieces)
                (fun a => extended_by_refl _ _)
                (fun a b c => extended_by_trans _ _ _ _)
                (fun a it _ => draw_piece_notes _ a it)
                ([], lg ++ [Step Generating3DPreviews 90])) as Hdraw.
  destruct (fold_left _ _ _) as [fig lg1]. cbn [snd] in Hdraw.
  destruct (save_views _ _ [] lg1) as [[views lg2]|e] eqn:Hs; [|discriminate].
  cbn [bind]. intros H. injection H as <-. cbn [snd].
  apply save_views_notes in Hs.
  pose proof (extended_by_trans _ _ _ _ Hdraw Hs) as Hl.
  unfold announcements, reported_cells, exported_cells.
  rewrite !flat_map_app.
  rewrite (flat_map_silent announcement _ _ _
             (fun e H => proj1 (preview_note_silent e H)) Hl).
  rewrite (flat_map_silent reported_cell _ _ _
             (fun e H => proj1 (proj2 (preview_note_silent e H))) Hl).
  rewrite (flat_map_silent exported_cell _ _ _
             (fun e H => proj2 (proj2 (preview_note_silent e H))) Hl).
  rewrite !flat_map_app. cbn. rewrite !app_nil_r, <- !app_assoc.
  repeat split.
Qed.

End RenderLog.

(** ** The log of a returned run *)

Lemma run_log_observed
    `{TM : Trimesh} `{RNG : PyRandom} `{PLT : @Pyplot TM} `{FS : OS}
    (p : Params) (g0 : Gen) (r : Run) (nx ny nz : Z) :
  generate_puzzle_from_stl p g0 = Ok r ->
  divisions p = (nx, ny, nz) ->
  exists hole,
    (hole = FilledMeshHoles \/ hole = HoleFillingFailed) /\
    announcements (run_log r)
      = [(LoadingAndCleaningMesh, 5%Q); (hole, 10%Q);
         (MeshCleaningComplete, 15%Q); (CalculatingGridDivisions, 20%Q);
         (StartingPuzzlePieceGeneration, 25%Q)]
        ++ cell_announcements (nx * ny * nz) 0 (grid_cells nx ny nz)
        ++ [(ExportedPuzzlePieces (piece_count (mesh_info (report r))), 85%Q)]
        ++ (if 0 <? piece_count (mesh_info (report r))
            then [(Generating3DPreviews, 90%Q); (PreviewsGenerated, 95%Q)]
            else [])
        ++ [(FinalizingOutput, 100%Q)] /\
    reported_cells (run_log r) = grid_cells nx ny nz /\
    subsequence (exported_cells (run_log r)) (grid_cells nx ny nz) /\
    piece_paths (report r)
      = map (cell_filename p) (exported_cells (run_log r)) /\
    piece_count (mesh_info (report r))
      = Z.of_nat (length (exported_cells (run_log r))).
Proof.
  intros Hr Hd.
  destruct (generate_ok_inv p g0 r Hr)
    as (bnds & mesh & file & lg & xc & yc & zc & rendered & Hbnds & Hload & _ & _ & Hrender & ->).
  cbn zeta in Hrender.
  destruct (load_and_clean_log p mesh file lg Hload) as (hole & Hhole & ->).
  exists hole. split; [assumption|].
  pose proof (loop_state_facts p mesh
                [Step LoadingAndCleaningMesh 5; Step hole 10;
                 Step MeshCleaningComplete 15] xc yc zc) as (_ & (Hm & _) & _).
  revert Hrender Hm. unfold loop_state. rewrite Hd, piece_loop_flat.
  set (s0 := mkState _ _ _ _ _ _ _).
  pose proof (cells_log p mesh nx ny nz (nx * ny * nz) xc yc zc
                (grid_cells nx ny nz) s0)
    as (Ha & Hrep & _ & ex & He & Hsub & Hp & Hc).
  cbn zeta in Ha, Hrep, He, Hp, Hc.
  set (s := fold_left _ (grid_cells nx ny nz) s0) in *.
  intros Hrender Hm.
  apply render_log in Hrender. destruct Hrender as (Ha' & Hrep' & He').
  destruct rendered as [[views fig] lg2]. cbn [snd] in Ha', Hrep', He'.
  cbn [finish run_log report piece_paths mesh_info piece_count].
  unfold announcements, reported_cells, exported_cells in *.
  rewrite !flat_map_app, Ha', Hrep', He', !flat_map_app, Ha, Hrep, He, Hp, Hc.
  rewrite Hm. cbn. rewrite !app_nil_r, <- !app_assoc. cbn.
  repeat split; rewrite ?Hc; try reflexivity; assumption.
Qed.

Lemma cell_announcements_steps (total_pieces completed : Z)
    (cells : list (Z * Z * Z)) :
  map fst (cell_announcements total_pieces completed cells)
  = map announced_cell cells.
Proof.
  revert completed. induction cells as [|[[i j] k] cells IH]; intros c; cbn;
    [reflexivity|now rewrite IH].
Qed.

Lemma length_flat_map_const {A B : Type} (f : A -> list B) (m : nat)
    (l : list A) :
  (forall a, length (f a) = m) -> length (flat_map f l) = (length l * m)%nat.
Proof.
  intros Hf. induction l as [|a l IH]; cbn; [reflexivity|].
  now rewrite length_app, Hf, IH.
Qed.

Lemma grid_cells_length (nx ny nz : Z) :
  Z.of_nat (length (grid_cells nx ny nz))
  = Z.max 0 nx * Z.max 0 ny * Z.max 0 nz.
Proof.
  unfold grid_cells.
  rewrite (length_flat_map_const _ (Z.to_nat ny * Z.to_nat nz)).
  - rewrite range_length. lia.
  - intros i. rewrite (length_flat_map_const _ (Z.to_nat nz)).
    + now rewrite range_length.
    + intros j. now rewrite length_map, range_length.
Qed.

Lemma grid_cells_In (nx ny nz i j k : Z) :
  In (i, j, k) (grid_cells nx ny nz)
  <-> 0 <= i < nx /\ 0 <= j < ny /\ 0 <= k < nz.
Proof.
  unfold grid_cells. rewrite in_flat_map. split.
  - intros (i' & Hi & H). apply in_flat_map in H. destruct H as (j' & Hj & H).
    apply in_map_iff in H. destruct H as (k' & [= <- <- <-] & Hk).
    now rewrite range_In in Hi, Hj, Hk.
  - intros (Hi & Hj & Hk). exists i. split; [now apply range_In|].
    apply in_flat_map. exists j. split; [now apply range_In|].
    apply in_map_iff. exists k. split; [reflexivity|now apply range_In].
Qed.

Lemma NoDup_flat_map {A B : Type} (f : A -> list B) (l : list A) :
  NoDup l ->
  (forall a, In a l -> NoDup (f a)) ->
  (forall a a' b, In a l -> In a' l -> In b (f a) -> In b (f a') -> a = a') ->
  NoDup (flat_map f l).
Proof.
  intros Hl. induction Hl as [|a l Ha Hl IH]; intros Hf Hdis; cbn;
    [constructor|].
  apply NoDup_app.
  - apply Hf. now left.
  - apply IH.
    + intros a' Ha'. apply Hf. now right.
    + intros a1 a2 b H1 H2. apply Hdis; now right.
  - intros b Hb Hb'. apply in_flat_map in Hb'. destruct Hb' as (a' & Ha' & Hb').
    apply Ha. rewrite (Hdis a a' b); auto; [now left|now right].
Qed.

Lemma grid_cells_NoDup (nx ny nz : Z) : NoDup (grid_cells nx ny nz).
Proof.
  unfold grid_cells. apply NoDup_flat_map; [apply range_NoDup| |].
  - intros i _. apply NoDup_flat_map; [apply range_NoDup| |].
    + intros j _. apply NoDup_map_injective; [|apply range_NoDup].
      intros a b _ _ [= ->]. reflexivity.
    + intros j j' c _ _ H H'. apply in_map_iff in H, H'.
      destruct H as (k & <- & _), H' as (k' & [= <- _] & _). reflexivity.
  - intros i i' c _ _ H H'. apply in_flat_map in H, H'.
    destruct H as (j & _ & H), H' as (j' & _ & H').
    apply in_map_iff in H, H'.
    destruct H as (k & <- & _), H' as (k' & [= <- _ _] & _). reflexivity.
Qed.

(** ** Percentages *)

Lemma piece_progress_mono (total_pieces c c' : Z) :
  0 < total_pieces -> c <= c' ->
  (piece_progress total_pieces c <= piece_progress total_pieces c')%Q.
Proof.
  intros Ht Hc. unfold piece_progress.
  assert (H : (inject_Z c / inject_Z total_pieces
               <= inject_Z c' / inject_Z total_pieces)%Q).
  { unfold Qdiv. apply Qmult_le_compat_r.
    - now rewrite <- Zle_Qle.
    - apply Qinv_le_0_compat. change 0%Q with (inject_Z 0).
      rewrite <- Zle_Qle. lia. }
  lra.
Qed.

Lemma piece_progress_first (total_pieces : Z) :
  (piece_progress total_pieces 0 == 25)%Q.
Proof. unfold piece_progress, Qdiv. change (inject_Z 0) with 0%Q. lra. Qed.

Lemma piece_progress_last (total_pieces : Z) :
  0 < total_pieces ->
  (piece_progress total_pieces total_pieces == 85)%Q.
Proof.
  intros Ht. unfold piece_progress.
  assert (H : (inject_Z total_pieces / inject_Z total_pieces == 1)%Q).
  { field. apply inject_Z_nonzero. lia. }
  rewrite H. lra.
Qed.

Lemma nondecreasing_app (l1 l2 : list Q) :
  nondecreasing l1 -> nondecreasing l2 ->
  (forall a b, In a l1 -> In b l2 -> (a <= b)%Q) ->
  nondecreasing (l1 ++ l2).
Proof.
  induction l1 as [|x l1 IH]; intros H1 H2 H12; [assumption|].
  destruct l1 as [|y l1].
  - cbn. destruct l2 as [|z l2]; [exact I|].
    split; [|assumption]. apply H12; now left.
  - cbn [app nondecreasing] in *. destruct H1 as (Hxy & H1).
    split; [assumption|]. apply IH; [assumption..|].
    intros a b Ha Hb. apply H12; [now right|assumption].
Qed.

(** The percentages announced for [cells], visited after [c] others. *)
Lemma cell_progress (total_pieces : Z) (cells : list (Z * Z * Z)) :
  0 < total_pieces ->
  forall c,
    0 <= c -> c + Z.of_nat (length cells) <= total_pieces ->
    nondecreasing (map snd (cell_announcements total_pieces c cells)) /\
    Forall (fun q => (piece_progress total_pieces c <= q <= 85)%Q)
           (map snd (cell_announcements total_pieces c cells)).
Proof.
  intros Ht. induction cells as [|[[i j] k] cells IH]; intros c Hc Hlen.
  - cbn. split; [exact I|constructor].
  - cbn [length] in Hlen.
    destruct (IH (c + 1)) as (Hnd & Hall); [lia..|].
    pose proof (piece_progress_mono total_pieces c (c + 1) Ht ltac:(lia)) as Hm.
    pose proof (piece_progress_mono total_pieces c total_pieces Ht ltac:(lia))
      as Hm'.
    rewrite (piece_progress_last total_pieces Ht) in Hm'.
    cbn [cell_announcements map snd]. split.
    + cbn [nondecreasing].
      destruct (map snd (cell_announcements total_pieces (c + 1) cells))
        as [|y tl] eqn:E; [exact I|].
      split; [|assumption]. apply Forall_inv in Hall. lra.
    + constructor; [split; [lra|assumption]|].
      eapply Forall_impl; [|exact Hall]. cbn. intros q Hq. lra.
Qed.

Lemma grid_progress (nx ny nz : Z) :
  let values :=
    map snd (cell_announcements (nx * ny * nz) 0 (grid_cells nx ny nz)) in
  nondecreasing values /\ Forall (fun q => (25 <= q <= 85)%Q) values.
Proof.
  cbn zeta. pose proof (grid_cells_length nx ny nz) as Hlen.
  destruct (grid_cells nx ny nz) as [|c cells] eqn:E.
  - cbn. split; [exact I|constructor].
  - rewrite <- E in *.
    assert (Hpos : 0 < Z.of_nat (length (grid_cells nx ny nz))).
    { rewrite E. cbn [length]. lia. }
    assert (Ht : nx * ny * nz = Z.of_nat (length (grid_cells nx ny nz))) by nia.
    destruct (cell_progress (nx * ny * nz) (grid_cells nx ny nz)
                ltac:(lia) 0 ltac:(lia) ltac:(lia)) as (Hnd & Hall).
    split; [assumption|].
    eapply Forall_impl; [|exact Hall]. cbn. intros q Hq.
    rewrite piece_progress_first in Hq. exact Hq.
Qed.

(** The steps of a returned run, each announced once. *)
Lemma run_steps
    `{TM : Trimesh} `{RNG : PyRandom} `{PLT : @Pyplot TM} `{FS : OS}
    (p : Params) (g0 : Gen) (r : Run) (nx ny nz : Z) :
  generate_puzzle_from_stl p g0 = Ok r ->
  divisions p = (nx, ny, nz) ->
  (exists hole,
     (hole = FilledMeshHoles \/ hole = HoleFillingFailed) /\
     steps_of (run_log r)
       = expected_steps hole nx ny nz (piece_count (mesh_info (report r)))) /\
  NoDup (steps_of (run_log r)).
Proof.
  intros Hr Hd.
  destruct (run_log_observed p g0 r nx ny nz Hr Hd)
    as (hole & Hhole & Ha & _).
  assert (Hsteps : steps_of (run_log r)
                   = expected_steps hole nx ny nz
                       (piece_count (mesh_info (report r)))).
  { unfold steps_of, expected_steps. rewrite Ha.
    rewrite !map_app, cell_announcements_steps.
    destruct (0 <? piece_count (mesh_info (report r))); reflexivity. }
  split; [exists hole; split; assumption|].
  rewrite Hsteps. unfold expected_steps.
  set (c := piece_count (mesh_info (report r))).
  assert (Hcells : NoDup (map announced_cell (grid_cells nx ny nz))).
  { apply NoDup_map_injective; [|apply grid_cells_NoDup].
    intros [[i j] k] [[i' j'] k'] _ _ [= -> -> ->]. reflexivity. }
  assert (Hgen : forall m, In m (map announced_cell (grid_cells nx ny nz)) ->
                           exists i j k, m = GeneratingPiece i j k).
  { intros m Hm. apply in_map_iff in Hm. destruct Hm as ([[i j] k] & <- & _).
    now exists i, j, k. }
  assert (Htail : NoDup ([ExportedPuzzlePieces c]
                         ++ (if 0 <? c
                             then [Generating3DPreviews; PreviewsGenerated]
                             else [])
                         ++ [FinalizingOutput])).
  { destruct (0 <? c); cbn; repeat constructor; cbn; intuition discriminate. }
  assert (Hmid : NoDup (map announced_cell (grid_cells nx ny nz)
                        ++ [ExportedPuzzlePieces c]
                        ++ (if 0 <? c
                            then [Generating3DPreviews; PreviewsGenerated]
                            else [])
                        ++ [FinalizingOutput])).
  { apply NoDup_app; [assumption..|].
    intros m Hm Hm'. destruct (Hgen m Hm) as (i & j & k & ->).
    destruct (0 <? c); cbn in Hm'; intuition discriminate. }
  assert (Hnot : forall m,
            In m (map announced_cell (grid_cells nx ny nz)
                  ++ [ExportedPuzzlePieces c]
                  ++ (if 0 <? c
                      then [Generating3DPreviews; PreviewsGenerated]
                      else [])
                  ++ [FinalizingOutput]) ->
            m <> LoadingAndCleaningMesh /\ m <> hole /\
            m <> MeshCleaningComplete /\ m <> CalculatingGridDivisions /\
            m <> StartingPuzzlePieceGeneration).
  { intros m Hm. apply in_app_or in Hm. destruct Hm as [Hm|Hm].
    - destruct (Hgen m Hm) as (i & j & k & ->).
      destruct Hhole as [-> | ->]; repeat split; discriminate.
    - destruct (0 <? c); cbn in Hm;
        destruct Hhole as [-> | ->];
        intuition (subst; discriminate). }
  cbn [app].
  repeat (constructor;
          [intros Hin; cbn [In] in Hin;
           repeat (destruct Hin as [Hin|Hin];
                   [destruct Hhole as [-> | ->]; discriminate|]);
           apply Hnot in Hin; intuition congruence|]).
  exact Hmid.
Qed.

(** X6 — the steps a returned run announces through [update_progress],
    in order: the five steps of the load and grid stages, "Generating piece
    (i,j,k)" once for every cell of the grid in the order [i], [j], [k]
    ascending (also for the cells that are skipped or fail), "Exported n
    puzzle pieces" with [n = piece_count], the two preview steps exactly
    when a piece was exported, and "Finalizing output".  No step is
    announced twice. *)
Theorem steps_of_a_returned_run
    `{TM : Trimesh} `{RNG : PyRandom} `{PLT : @Pyplot TM} `{FS : OS}
    (p : Params) (g0 : Gen) (r : Run) (nx ny nz : Z) :
  generate_puzzle_from_stl p g0 = Ok r ->
  divisions p = (nx, ny, nz) ->
  (exists hole,
     (hole = FilledMeshHoles \/ hole = HoleFillingFailed) /\
     steps_of (run_log r)
       = expected_steps hole nx ny nz (piece_count (mesh_info (report r)))) /\
  NoDup (steps_of (run_log r)).
Proof. apply run_steps. Qed.

Lemma steps_of_a_returned_run_witness :
  exists r,
    Symbolic.run Symbolic.no_faults (Symbolic.default_params (2, 1, 1)) 0 = Ok r /\
    steps_of (run_log r)
      = [LoadingAndCleaningMesh; FilledMeshHoles; MeshCleaningComplete;
         CalculatingGridDivisions; StartingPuzzlePieceGeneration;
         GeneratingPiece 0 0 0; GeneratingPiece 1 0 0;
         ExportedPuzzlePieces 2; Generating3DPreviews; PreviewsGenerated;
         FinalizingOutput] /\
    NoDup (steps_of (run_log r)).
Proof.
  eexists. split; [vm_compute; reflexivity|].
  split; [vm_compute; reflexivity|].
  eapply (@steps_of_a_returned_run
            (Symbolic.trimesh Symbolic.no_faults) Symbolic.lcg
            (Symbolic.pyplot Symbolic.no_faults) Symbolic.os
            (Symbolic.default_params (2, 1, 1)) 0 _ 2 1 1).
  - vm_compute. reflexivity.
  - reflexivity.
Defined.

(** The percentages of a returned run. *)
Lemma run_progress
    `{TM : Trimesh} `{RNG : PyRandom} `{PLT : @Pyplot TM} `{FS : OS}
    (p : Params) (g0 : Gen) (r : Run) :
  generate_puzzle_from_stl p g0 = Ok r ->
  nondecreasing (progress_values (run_log r)) /\
  Forall (fun q => (5 <= q <= 100)%Q) (progress_values (run_log r)) /\
  (exists middle, progress_values (run_log r) = 5%Q :: middle ++ [100%Q]) /\
  (forall i j k q,
     In (GeneratingPiece i j k, q) (announcements (run_log r)) ->
     (25 <= q <= 85)%Q).
Proof.
  intros Hr. destruct (divisions p) as [[nx ny] nz] eqn:Hd.
  destruct (run_log_observed p g0 r nx ny nz Hr Hd) as (hole & Hhole & Ha & _).
  pose proof (grid_progress nx ny nz) as (Hnd & Hall). cbn zeta in Hnd, Hall.
  unfold progress_values. rewrite Ha.
  set (cells := cell_announcements (nx * ny * nz) 0 (grid_cells nx ny nz)) in *.
  set (tail := [(ExportedPuzzlePieces (piece_count (mesh_info (report r))), 85%Q)]
               ++ (if 0 <? piece_count (mesh_info (report r))
                   then [(Generating3DPreviews, 90%Q); (PreviewsGenerated, 95%Q)]
                   else [])
               ++ [(FinalizingOutput, 100%Q)]).
  assert (Htail : nondecreasing (map snd tail) /\
                  Forall (fun q => (85 <= q <= 100)%Q) (map snd tail) /\
                  exists l, map snd tail = l ++ [100%Q]).
  { unfold tail. destruct (0 <? _); cbn.
    - split; [|split].
      + repeat split; lra.
      + repeat constructor; cbn; lra.
      + now exists [85%Q; 90%Q; 95%Q].
    - split; [|split].
      + repeat split; lra.
      + repeat constructor; cbn; lra.
      + now exists [85%Q]. }
  destruct Htail as (Htnd & Htall & (l & Htl)).
  rewrite !map_app.
  rewrite Forall_forall in Hall, Htall.
  split; [|split; [|split]].
  - apply nondecreasing_app; [cbn; repeat split; lra| |].
    + apply nondecreasing_app; [assumption..|].
      intros a b Ha' Hb'. specialize (Hall a Ha'). specialize (Htall b Hb'). lra.
    + intros a b Ha' Hb'.
      assert (Hb : (25 <= b)%Q).
      { apply in_app_or in Hb'. destruct Hb' as [Hb'|Hb'].
        - specialize (Hall b Hb'). lra.
        - specialize (Htall b Hb'). lra. }
      cbn in Ha'. intuition (subst; lra).
  - apply Forall_app. split; [cbn; repeat constructor; cbn; lra|].
    apply Forall_app. split; apply Forall_forall; intros q Hq.
    + specialize (Hall q Hq). lra.
    + specialize (Htall q Hq). lra.
  - exists ([10%Q; 15%Q; 20%Q; 25%Q] ++ map snd cells ++ l).
    rewrite Htl. cbn [map snd app]. now rewrite <- !app_assoc.
  - intros i j k q Hin. apply in_app_or in Hin. destruct Hin as [Hin|Hin].
    { cbn in Hin. destruct Hhole as [-> | ->];
        intuition discriminate. }
    apply in_app_or in Hin. destruct Hin as [Hin|Hin].
    + apply Hall. apply in_map_iff. now exists (GeneratingPiece i j k, q).
    + unfold tail in *. destruct (0 <? _); cbn in Hin; intuition discriminate.
Qed.

(** X7 — the percentages a returned run passes to [update_progress] never
    decrease: they start at 5, end at 100, and stay between 25 and 85
    while the pieces are generated (so the division by [total_pieces] of
    line 144 is only evaluated with [total_pieces > 0]). *)
Theorem progress_never_decreases
    `{TM : Trimesh} `{RNG : PyRandom} `{PLT : @Pyplot TM} `{FS : OS}
    (p : Params) (g0 : Gen) (r : Run) :
  generate_puzzle_from_stl p g0 = Ok r ->
  nondecreasing (progress_values (run_log r)) /\
  Forall (fun q => (5 <= q <= 100)%Q) (progress_values (run_log r)) /\
  (exists middle, progress_values (run_log r) = 5%Q :: middle ++ [100%Q]) /\
  (forall i j k q,
     In (GeneratingPiece i j k, q) (announcements (run_log r)) ->
     (25 <= q <= 85)%Q).
Proof. apply run_progress. Qed.

Lemma progress_never_decreases_witness :
  exists r,
    Symbolic.run Symbolic.no_faults (Symbolic.default_params (2, 1, 1)) 0 = Ok r /\
    nondecreasing (progress_values (run_log r)).
Proof.
  eexists. split; [vm_compute; reflexivity|].
  eapply (@progress_never_decreases
            (Symbolic.trimesh Symbolic.no_faults) Symbolic.lcg
            (Symbolic.pyplot Symbolic.no_faults) Symbolic.os
            (Symbolic.default_params (2, 1, 1)) 0).
  vm_compute. reflexivity.
Defined.

(** X8 — every cell of the grid is closed by exactly one report, in grid
    order: skipped (empty intersection), boolean error, exported
    successfully, or export failed.  [piece_paths] lists the files of the
    cells reported as exported, in that order, and [piece_count] counts
    them. *)
Theorem every_cell_reported_once
    `{TM : Trimesh} `{RNG : PyRandom} `{PLT : @Pyplot TM} `{FS : OS}
    (p : Params) (g0 : Gen) (r : Run) (nx ny nz : Z) :
  generate_puzzle_from_stl p g0 = Ok r ->
  divisions p = (nx, ny, nz) ->
  reported_cells (run_log r) = grid_cells nx ny nz /\
  subsequence (exported_cells (run_log r)) (grid_cells nx ny nz) /\
  piece_paths (report r) = map (cell_filename p) (exported_cells (run_log r)) /\
  piece_count (mesh_info (report r))
    = Z.of_nat (length (exported_cells (run_log r))).
Proof.
  intros Hr Hd.
  destruct (run_log_observed p g0 r nx ny nz Hr Hd) as (_ & _ & _ & H).
  exact H.
Qed.

Lemma every_cell_reported_once_witness :
  exists r,
    Symbolic.run Symbolic.cleanup_raises (Symbolic.default_params (2, 1, 1)) 0
      = Ok r /\
    reported_cells (run_log r) = [(0, 0, 0); (1, 0, 0)] /\
    exported_cells (run_log r) = [].
Proof.
  eexists. split; [vm_compute; reflexivity|].
  split; [|vm_compute; reflexivity].
  eapply (@every_cell_reported_once
            (Symbolic.trimesh Symbolic.cleanup_raises) Symbolic.lcg
            (Symbolic.pyplot Symbolic.cleanup_raises) Symbolic.os
            (Symbolic.default_params (2, 1, 1)) 0 _ 2 1 1).
  - vm_compute. reflexivity.
  - reflexivity.
Defined.

(** ** File names *)

Lemma uint_chars (u : Decimal.uint) (c : ascii) :
  In c (list_ascii_of_string (NilEmpty.string_of_uint u)) -> int_char c.
Proof.
  induction u; cbn; intros H; try contradiction;
    (destruct H as [<-|H]; [right; cbn; lia|auto]).
Qed.

Lemma str_chars (z : Z) (c : ascii) :
  In c (list_ascii_of_string (str z)) -> int_char c.
Proof.
  unfold str. destruct (Z.to_int z) as [u|u]; cbn [NilZero.string_of_int].
  - destruct u; try apply uint_chars.
    cbn. intros [<-|[]]. right. cbn. lia.
  - cbn [list_ascii_of_string]. intros [<-|H]; [now left|].
    destruct u; try (revert H; apply uint_chars).
    cbn in H. destruct H as [<-|[]]. right. cbn. lia.
Qed.

Lemma to_uint_not_nil (q : positive) : Pos.to_uint q <> Decimal.Nil.
Proof.
  intros H. pose proof (DecimalPos.Unsigned.of_to q) as Hq.
  rewrite H in Hq. discriminate.
Qed.

(** [str] is one-to-one. *)
Lemma str_inj (z z' : Z) : str z = str z' -> z = z'.
Proof.
  unfold str. intros H.
  assert (Hnil : forall x, Z.to_int x <> Decimal.Pos Decimal.Nil /\
                           Z.to_int x <> Decimal.Neg Decimal.Nil).
  { intros [|q|q]; cbn; split; try discriminate;
      intros [= Hq]; now apply to_uint_not_nil in Hq. }
  apply (f_equal NilZero.int_of_string) in H.
  rewrite !NilZero.isi in H by apply Hnil.
  injection H as H. apply (f_equal Z.of_int) in H.
  now rewrite !DecimalZ.of_to in H.
Qed.

Lemma append_inj_l (a b c : string) : (a ++ b = a ++ c)%string -> b = c.
Proof. induction a as [|x a IH]; cbn; [auto|]. intros [= H]. auto. Qed.

(** Two strings cut at the first occurrence of a separator. *)
Lemma append_sep_inj (sep : ascii) (a a' b b' : string) :
  ~ In sep (list_ascii_of_string a) ->
  ~ In sep (list_ascii_of_string a') ->
  (a ++ String sep b = a' ++ String sep b')%string ->
  a = a' /\ b = b'.
Proof.
  revert a'. induction a as [|x a IH]; intros [|x' a'] Ha Ha' H; cbn in *.
  - injection H as ->. auto.
  - injection H as -> _. exfalso. apply Ha'. now left.
  - injection H as -> _. exfalso. apply Ha. now left.
  - injection H as -> H. destruct (IH a') as (-> & ->); auto.
Qed.

Lemma str_no_sep (sep : ascii) (z : Z) :
  sep = "_"%char \/ sep = "."%char ->
  ~ In sep (list_ascii_of_string (str z)).
Proof.
  intros Hsep Hin. apply str_chars in Hin.
  destruct Hsep as [-> | ->]; destruct Hin as [H|H];
    try discriminate; cbn in H; lia.
Qed.

(** Two cells are exported to different files. *)
Lemma piece_filename_inj (p : Params) (i j k i' j' k' : Z) :
  piece_filename p i j k = piece_filename p i' j' k' ->
  (i, j, k) = (i', j', k').
Proof.
  unfold piece_filename, os_path_join. cbn [append].
  change ("p" =? "/")%char with false. cbv iota.
  intros H.
  assert (Hname : (str i ++ String "_" (str j ++ String "_" (str k ++ ".stl"))
                   = str i' ++ String "_" (str j' ++ String "_" (str k' ++ ".stl")))%string).
  { destruct ((output_dir p =? "")%string || ends_with_slash (output_dir p)).
    - apply append_inj_l in H. now injection H.
    - apply append_inj_l in H. cbn in H. now injection H. }
  apply append_sep_inj in Hname; try (apply str_no_sep; now left).
  destruct Hname as (Hi & Hname).
  apply append_sep_inj in Hname; try (apply str_no_sep; now left).
  destruct Hname as (Hj & Hname).
  apply append_sep_inj in Hname; try (apply str_no_sep; now right).
  destruct Hname as (Hk & _).
  apply str_inj in Hi, Hj, Hk. now subst.
Qed.

(** X9 — no two exported pieces share a file: the paths in [piece_paths]
    are pairwise distinct, so no exported piece has been overwritten by
    another one of the same run. *)
Theorem piece_files_distinct
    `{TM : Trimesh} `{RNG : PyRandom} `{PLT : @Pyplot TM} `{FS : OS}
    (p : Params) (g0 : Gen) (r : Run) :
  generate_puzzle_from_stl p g0 = Ok r ->
  NoDup (piece_paths (report r)).
Proof.
  intros Hr. destruct (divisions p) as [[nx ny] nz] eqn:Hd.
  destruct (run_log_observed p g0 r nx ny nz Hr Hd)
    as (_ & _ & _ & _ & Hsub & -> & _).
  apply NoDup_map_injective.
  - intros [[i j] k] [[i' j'] k'] _ _. apply piece_filename_inj.
  - eapply subsequence_NoDup; [exact Hsub|apply grid_cells_NoDup].
Qed.

Lemma piece_files_distinct_witness :
  exists r,
    Symbolic.run Symbolic.no_faults (Symbolic.default_params (2, 1, 1)) 0 = Ok r /\
    piece_paths (report r)
      = ["printable_puzzle/piece_0_0_0.stl";
         "printable_puzzle/piece_1_0_0.stl"]%string /\
    NoDup (piece_paths (report r)).
Proof.
  eexists. split; [vm_compute; reflexivity|].
  split; [vm_compute; reflexivity|].
  eapply (@piece_files_distinct
            (Symbolic.trimesh Symbolic.no_faults) Symbolic.lcg
            (Symbolic.pyplot Symbolic.no_faults) Symbolic.os
            (Symbolic.default_params (2, 1, 1)) 0).
  vm_compute. reflexivity.
Defined.

(** ** app.py: the progress shown while the pipeline runs *)

Lemma StepMsg_eqb_eq (a b : StepMsg) : App.StepMsg_eqb a b = true <-> a = b.
Proof.
  split.
  - destruct a, b; cbn; try discriminate; try reflexivity; intros H.
    + apply andb_prop in H. destruct H as (H & Hk).
      apply andb_prop in H. destruct H as (Hi & Hj).
      apply Z.eqb_eq in Hi, Hj, Hk. now subst.
    + apply Z.eqb_eq in H. now subst.
  - intros <-. destruct a; cbn; try reflexivity.
    + now rewrite !Z.eqb_refl.
    + apply Z.eqb_refl.
Qed.

Lemma step_not_completed (step : StepMsg) (l : list StepMsg) :
  ~ In step l -> existsb (App.StepMsg_eqb step) l = false.
Proof.
  intros Hn. destruct (existsb _ l) eqn:E; [|reflexivity].
  apply existsb_exists in E. destruct E as (x & Hx & Heq).
  apply StepMsg_eqb_eq in Heq. now subst.
Qed.

Lemma last_cons_default {A : Type} (l : list A) (a d : A) :
  last (a :: l) d = last l a.
Proof.
  revert a d. induction l as [|b l IH]; intros a d; [reflexivity|].
  change (last (a :: b :: l) d) with (last (b :: l) d).
  now rewrite (IH b d), (IH b a).
Qed.

(** The progress data after a sequence of calls none of whose steps was
    completed before or is announced twice. *)
Lemma replay_calls (calls : list (string * Event)) :
  forall d,
    NoDup (App.completed_steps d ++ steps_of (map snd calls)) ->
    App.completed_steps (App.replay calls d)
      = App.completed_steps d ++ steps_of (map snd calls) /\
    App.current_step (App.replay calls d)
      = last (map App.Current (steps_of (map snd calls))) (App.current_step d) /\
    App.progress (App.replay calls d)
      = last (progress_values (map snd calls)) (App.progress d) /\
    map snd (App.piece_status (App.replay calls d))
      = map snd (App.piece_status d) ++ infos_of (map snd calls).
Proof.
  induction calls as [|[now e] calls IH]; intros d Hnd.
  - cbn. now rewrite !app_nil_r.
  - unfold App.replay in *. cbn [fold_left fst snd map].
    destruct e as [step percent|info].
    + assert (Hnew : ~ In step (App.completed_steps d)).
      { intros Hin. cbn in Hnd. apply NoDup_remove_2 in Hnd.
        apply Hnd. apply in_or_app. now left. }
      cbn [App.progress_callback].
      rewrite (step_not_completed step _ Hnew). cbn [negb].
      cbn [App.current_step App.completed_steps App.piece_status App.progress].
      set (d' := App.mkProgressData _ _ _ _).
      destruct (IH d') as (Hc & Hs & Hp & Hi).
      { unfold d'. cbn [App.completed_steps]. rewrite <- app_assoc. exact Hnd. }
      rewrite Hc, Hs, Hp, Hi. unfold d'.
      cbn [App.current_step App.completed_steps App.piece_status App.progress].
      unfold steps_of, progress_values, announcements, infos_of.
      cbn [flat_map announcement map fst snd app].
      rewrite <- app_assoc. cbn [app].
      now rewrite !last_cons_default.
    + cbn [App.progress_callback].
      set (d' := App.mkProgressData _ _ _ _).
      destruct (IH d') as (Hc & Hs & Hp & Hi).
      { unfold d'. cbn [App.completed_steps]. exact Hnd. }
      rewrite Hc, Hs, Hp, Hi. unfold d'.
      cbn [App.current_step App.completed_steps App.piece_status App.progress].
      unfold infos_of. cbn [flat_map map snd app].
      rewrite map_app, <- app_assoc. repeat split.
Qed.

(** The percentage shown after each call never decreases when the
    percentages announced do not. *)
Lemma history_progress (calls : list (string * Event)) :
  forall d,
    nondecreasing (App.progress d :: progress_values (map snd calls)) ->
    nondecreasing (App.progress d :: map App.progress (App.history calls d)).
Proof.
  induction calls as [|[now e] calls IH]; intros d Hnd; [exact I|].
  cbn [App.history map]. destruct e as [step percent|info].
  - unfold progress_values, announcements in Hnd.
    cbn [map snd flat_map announcement app] in Hnd.
    cbn [nondecreasing] in Hnd. destruct Hnd as (Hle & Hnd).
    set (d' := App.progress_callback now d (Step step percent)).
    assert (Hd' : App.progress d' = percent).
    { unfold d'. cbn. reflexivity. }
    cbn [nondecreasing]. split; [now rewrite Hd'|].
    apply IH. now rewrite Hd'.
  - set (d' := App.progress_callback now d (PieceInfo info)).
    assert (Hd' : App.progress d' = App.progress d) by reflexivity.
    cbn [nondecreasing]. split; [rewrite Hd'; apply Qle_refl|].
    apply IH. now rewrite Hd'.
Qed.

Lemma history_bounds (lo hi : Q) (calls : list (string * Event)) :
  forall d,
    (lo <= App.progress d <= hi)%Q ->
    Forall (fun q => (lo <= q <= hi)%Q) (progress_values (map snd calls)) ->
    Forall (fun d' => (lo <= App.progress d' <= hi)%Q) (App.history calls d).
Proof.
  induction calls as [|[now e] calls IH]; intros d Hd Hall; [constructor|].
  cbn [App.history]. destruct e as [step percent|info].
  - unfold progress_values, announcements in Hall.
    cbn [map snd flat_map announcement app] in Hall.
    inversion Hall as [|? ? Hq Hall']; subst.
    constructor; [exact Hq|]. apply IH; [exact Hq|exact Hall'].
  - constructor; [exact Hd|]. apply IH; [exact Hd|exact Hall].
Qed.

Lemma bar_width_unclamped (d : App.ProgressData) :
  (App.progress d <= 100)%Q -> App.bar_width d = App.progress d.
Proof.
  intros H. unfold App.bar_width. apply Qle_bool_iff in H. now rewrite H.
Qed.

Lemma nondecreasing_tail (x : Q) (l : list Q) :
  nondecreasing (x :: l) -> nondecreasing l.
Proof. destruct l as [|y l]; [intros _; exact I|]. now intros (_ & H). Qed.

Lemma expected_steps_last (hole : StepMsg) (nx ny nz c : Z) :
  exists l, expected_steps hole nx ny nz c = l ++ [FinalizingOutput].
Proof.
  unfold expected_steps. eexists. rewrite !app_assoc. reflexivity.
Qed.

(** X10 — app.py's [progress_callback], driven by the calls of a returned
    run from the progress data of lines 181-187: every step of the run is
    listed once under "Completed Steps", in the order announced (the
    [not in] test never drops one); the run ends with the current step
    "Finalizing output" and the percentage 100; ['piece_status'] holds the
    [piece_info] messages in order; and after every call the percentage
    shown is between 0 and 100, is not clamped by [min(progress, 100)] and
    is not below the one shown before. *)
Theorem app_progress_of_a_returned_run
    `{TM : Trimesh} `{RNG : PyRandom} `{PLT : @Pyplot TM} `{FS : OS}
    (p : Params) (g0 : Gen) (r : Run) (calls : list (string * Event)) :
  generate_puzzle_from_stl p g0 = Ok r ->
  map snd calls = run_log r ->
  let d := App.replay calls App.initial in
  App.completed_steps d = steps_of (run_log r) /\
  App.current_step d = App.Current FinalizingOutput /\
  App.progress d = 100%Q /\
  map snd (App.piece_status d) = infos_of (run_log r) /\
  nondecreasing (map App.progress (App.history calls App.initial)) /\
  Forall (fun d' => (0 <= App.progress d' <= 100)%Q /\
                    App.bar_width d' = App.progress d')
         (App.history calls App.initial).
Proof.
  intros Hr Hcalls. cbn zeta.
  destruct (divisions p) as [[nx ny] nz] eqn:Hd.
  destruct (run_steps p g0 r nx ny nz Hr Hd) as ((hole & _ & Hsteps) & Hnd).
  destruct (run_progress p g0 r Hr) as (Hmono & Hall & (middle & Hpv) & _).
  destruct (replay_calls calls App.initial) as (Hc & Hs & Hp & Hi).
  { cbn [App.initial App.completed_steps app]. now rewrite Hcalls. }
  rewrite Hcalls in Hc, Hs, Hp, Hi.
  cbn [App.initial App.completed_steps App.current_step App.progress
       App.piece_status map app] in Hc, Hs, Hp, Hi.
  split; [exact Hc|]. split; [|split; [|split; [exact Hi|split]]].
  - rewrite Hs, Hsteps.
    destruct (expected_steps_last hole nx ny nz
                (piece_count (mesh_info (report r)))) as (l & ->).
    rewrite map_app. cbn [map]. apply last_last.
  - rewrite Hp, Hpv, app_comm_cons. apply last_last.
  - apply (nondecreasing_tail 0).
    apply (history_progress calls App.initial).
    rewrite Hcalls. cbn [App.initial App.progress]. rewrite Hpv in *.
    cbn [nondecreasing]. split; [lra|exact Hmono].
  - assert (Hb : Forall (fun d' => (0 <= App.progress d' <= 100)%Q)
                        (App.history calls App.initial)).
    { apply history_bounds.
      - cbn. lra.
      - rewrite Hcalls. eapply Forall_impl; [|exact Hall].
        cbn. intros q Hq. lra. }
    eapply Forall_impl; [|exact Hb]. cbn. intros d' Hd'.
    split; [exact Hd'|]. apply bar_width_unclamped. apply Hd'.
Qed.

Lemma app_progress_of_a_returned_run_witness :
  exists r,
    Symbolic.run Symbolic.no_faults (Symbolic.default_params (2, 1, 1)) 0 = Ok r /\
    App.progress
      (App.replay (map (pair "12:00:00"%string) (run_log r)) App.initial)
    = 100%Q.
Proof.
  eexists. split; [vm_compute; reflexivity|].
  refine (proj1 (proj2 (proj2
            (@app_progress_of_a_returned_run
               (Symbolic.trimesh Symbolic.no_faults) Symbolic.lcg
               (Symbolic.pyplot Symbolic.no_faults) Symbolic.os
               (Symbolic.default_params (2, 1, 1)) 0 _ _ _ _)))).
  - vm_compute. reflexivity.
  - vm_compute. reflexivity.
Defined.

(** ** The ZIP of the pieces *)













(** ** backend2.py builds the same interlocks *)

Lemma interlock_hybrid_same `{TM : Trimesh}
    (center : Vec3) (axis : string) (cyl_radius cyl_height sphere_radius : Q)
    (socket : bool) (tolerance : Q) (flip_dir : bool) :
  Backend2.make_interlock_hybrid center axis cyl_radius cyl_height
                                 sphere_radius socket tolerance flip_dir
  = make_interlock_hybrid center axis cyl_radius cyl_height sphere_radius
                          socket tolerance flip_dir.
Proof. reflexivity. Qed.

(** Two loops whose bodies keep a relation between their states keep
    it. *)
Lemma fold_left_both {A S T : Type} (R : S -> T -> Prop)
    (f : S -> A -> S) (g : T -> A -> T) (l : list A) :
  (forall s t a, R s t -> R (f s a) (g t a)) ->
  forall s t, R s t -> R (fold_left f l s) (fold_left g l t).
Proof.
  intros Hstep. induction l as [|a l IH]; intros s t Hst; cbn; auto.
Qed.

Section SameInterlocks.
Context `{TM : Trimesh} `{RNG : PyRandom}.
Variable p : Params.
Variables i j k : Z.
Variables x0 x1 y0 y1 z0 z1 : Q.

Ltac same_step :=
  intros [piece s] [piece2 s2] n (Hp & Hg & Hc); cbn [fst snd] in *;
  subst piece2; destruct s, s2; cbn [st_rng st_centers Pipeline2.st_rng
                                     Pipeline2.st_centers] in *; subst;
  cbn [set_rng record_center st_rng Pipeline2.placed Pipeline2.st_rng
       Pipeline2.st_piece_meshes Pipeline2.st_piece_paths
       Pipeline2.st_piece_count Pipeline2.st_centers];
  unfold uniform;
  repeat match goal with
         | |- context [random ?g] =>
             let u := fresh "u" in let g' := fresh "g" in
             destruct (random g) as [u g']
         end;
  rewrite ?interlock_hybrid_same;
  destruct (xorb _ _);
  (destruct (boolean_union _) || destruct (boolean_difference _));
  repeat split.

Lemma x_interlock_same :
  forall acc acc2 n,
    same_progress acc acc2 ->
    same_progress (x_interlock p i j k x1 y0 y1 z0 z1 acc n)
                  (Pipeline2.x_interlock p i j k x1 y0 y1 z0 z1 acc2 n).
Proof. unfold x_interlock, Pipeline2.x_interlock, same_progress, same_placements. same_step. Qed.

Lemma y_interlock_same :
  forall acc acc2 n,
    same_progress acc acc2 ->
    same_progress (y_interlock p i j k x0 x1 y1 z0 z1 acc n)
                  (Pipeline2.y_interlock p i j k x0 x1 y1 z0 z1 acc2 n).
Proof. unfold y_interlock, Pipeline2.y_interlock, same_progress, same_placements. same_step. Qed.

Lemma z_interlock_same :
  forall acc acc2 n,
    same_progress acc acc2 ->
    same_progress (z_interlock p i j k x0 x1 y0 y1 z1 acc n)
                  (Pipeline2.z_interlock p i j k x0 x1 y0 y1 z1 acc2 n).
Proof. unfold z_interlock, Pipeline2.z_interlock, same_progress, same_placements. same_step. Qed.

End SameInterlocks.

Section SameCells.
Context `{TM : Trimesh} `{RNG : PyRandom}.
Variable p : Params.
Variable mesh : Solid.
Variables nx ny nz total_pieces : Z.
Variables x_cuts y_cuts z_cuts : list Q.

Lemma export_piece_same (i j k : Z) (acc : Solid * State)
    (acc2 : Solid * Pipeline2.State) :
  same_progress acc acc2 ->
  same_placements (export_piece p i j k acc)
                  (Pipeline2.export_piece p i j k acc2).
Proof.
  destruct acc as [piece s], acc2 as [piece2 s2].
  intros (_ & Hg & Hc). cbn [snd] in Hg, Hc.
  pose proof (export_piece_cases p i j k piece s) as (Hc' & Hg' & _).
  cbn zeta in Hc', Hg'. unfold same_placements. rewrite Hc', Hg'.
  unfold Pipeline2.export_piece. destruct (export piece2 _); cbn; auto.
Qed.

Lemma process_cell_same (s : State) (s2 : Pipeline2.State) (i j k : Z) :
  same_placements s s2 ->
  same_placements
    (process_cell p mesh nx ny nz total_pieces x_cuts y_cuts z_cuts s i j k)
    (Pipeline2.process_cell p mesh nx ny nz x_cuts y_cuts z_cuts s2 i j k).
Proof.
  intros Hs. unfold process_cell, Pipeline2.process_cell.
  destruct (intersection mesh _) as [piece|]; [|exact Hs].
  destruct (is_empty piece); [exact Hs|].
  set (s1 := update_progress s _).
  assert (H0 : same_progress (piece, s1) (piece, s2)).
  { split; [reflexivity|exact Hs]. }
  apply export_piece_same.
  unfold x_face, y_face, z_face, Pipeline2.x_face, Pipeline2.y_face,
    Pipeline2.z_face.
  assert (Hx : same_progress
                 (if i <? nx - 1
                  then fold_left (x_interlock p i j k (getitem x_cuts (i + 1))
                                    (getitem y_cuts j) (getitem y_cuts (j + 1))
                                    (getitem z_cuts k) (getitem z_cuts (k + 1)))
                                 (range (locks_per_face p)) (piece, s1)
                  else (piece, s1))
                 (if i <? nx - 1
                  then fold_left (Pipeline2.x_interlock p i j k
                                    (getitem x_cuts (i + 1))
                                    (getitem y_cuts j) (getitem y_cuts (j + 1))
                                    (getitem z_cuts k) (getitem z_cuts (k + 1)))
                                 (range (locks_per_face p)) (piece, s2)
                  else (piece, s2))).
  { destruct (i <? nx - 1); [|exact H0].
    apply (fold_left_both same_progress); [|exact H0].
    intros a b n. apply x_interlock_same. }
  revert Hx. generalize (if i <? nx - 1
                  then fold_left (x_interlock p i j k (getitem x_cuts (i + 1))
                                    (getitem y_cuts j) (getitem y_cuts (j + 1))
                                    (getitem z_cuts k) (getitem z_cuts (k + 1)))
                                 (range (locks_per_face p)) (piece, s1)
                  else (piece, s1)).
  generalize (if i <? nx - 1
                  then fold_left (Pipeline2.x_interlock p i j k
                                    (getitem x_cuts (i + 1))
                                    (getitem y_cuts j) (getitem y_cuts (j + 1))
                                    (getitem z_cuts k) (getitem z_cuts (k + 1)))
                                 (range (locks_per_face p)) (piece, s2)
                  else (piece, s2)).
  intros ax2 ax Hx.
  destruct (k <? nz - 1), (j <? ny - 1);
    repeat (apply (fold_left_both same_progress);
            [intros a b n; (apply y_interlock_same || apply z_interlock_same)|]);
    exact Hx.
Qed.

Lemma piece_loop_same (s : State) (s2 : Pipeline2.State) :
  same_placements s s2 ->
  same_placements
    (piece_loop p mesh nx ny nz total_pieces x_cuts y_cuts z_cuts s)
    (Pipeline2.piece_loop p mesh nx ny nz x_cuts y_cuts z_cuts s2).
Proof.
  unfold piece_loop, Pipeline2.piece_loop.
  apply (fold_left_both same_placements). intros a b i.
  apply (fold_left_both same_placements). intros a' b' j.
  apply (fold_left_both same_placements). intros a'' b'' k.
  apply process_cell_same.
Qed.

End SameCells.

(** X12 — backend2.py's [generate_puzzle_from_stl] places the same
    interlocks as backend.py's: when both return for the same parameters
    and collaborators, they have built the same centers (same cells,
    faces, instances, coordinates and roles, in the same order) and left
    the generator of [random] in the same state, whatever state it was in
    before either call, and they report the same bounds, watertightness
    and cleaned input file. *)
Theorem backend2_builds_the_same_interlocks
    `{TM : Trimesh} `{RNG : PyRandom} `{PLT : @Pyplot TM} `{FS : OS}
    (p : Params) (g0 g0' : Gen) (r : Run) (r2 : Pipeline2.Run) :
  generate_puzzle_from_stl p g0 = Ok r ->
  Pipeline2.generate_puzzle_from_stl p g0' = Ok r2 ->
  Pipeline2.run_centers r2 = run_centers r /\
  Pipeline2.final_rng r2 = final_rng r /\
  Pipeline2.bounds (Pipeline2.mesh_info (Pipeline2.report r2))
    = bounds (mesh_info (report r)) /\
  Pipeline2.watertight (Pipeline2.mesh_info (Pipeline2.report r2))
    = watertight (mesh_info (report r)) /\
  Pipeline2.filled_mesh_file (Pipeline2.mesh_info (Pipeline2.report r2))
    = filled_mesh_file (mesh_info (report r)).
Proof.
  intros Hr Hr2.
  destruct (generate_ok_inv p g0 r Hr)
    as (bnds & mesh & file & lg & xc & yc & zc & rendered
        & Hbnds & Hload & Hgrid & Hseed & _ & ->).
  destruct rendered as [[views fig] lg2].
  unfold Pipeline2.generate_puzzle_from_stl in Hr2.
  rewrite Hload in Hr2. cbn [bind] in Hr2.
  rewrite Hbnds in Hr2. cbn [orRaise bind] in Hr2.
  unfold loop_state, finish. 
  destruct (divisions p) as [[nx ny] nz] eqn:Hd.
  rewrite Hgrid in Hr2. cbn [bind] in Hr2.
  rewrite Hseed in Hr2. cbn [check bind] in Hr2.
  set (s0 := mkState _ _ _ _ _ _ _).
  set (t0 := Pipeline2.mkState _ _ _ _ _) in Hr2.
  pose proof (piece_loop_same p mesh nx ny nz (nx * ny * nz) xc yc zc s0 t0)
    as (Hg & Hc); [split; reflexivity|].
  destruct (render p _ []) as [[[views2 fig2] lg3]|e]; [|discriminate].
  cbn [bind] in Hr2. injection Hr2 as <-.
  cbn. rewrite Hg, Hc. repeat split.
Qed.

Lemma backend2_builds_the_same_interlocks_witness :
  exists r r2,
    Symbolic.run Symbolic.cleanup_raises (Symbolic.default_params (2, 1, 1)) 0
      = Ok r /\
    @Pipeline2.generate_puzzle_from_stl
      (Symbolic.trimesh Symbolic.cleanup_raises) Symbolic.lcg
      (Symbolic.pyplot Symbolic.cleanup_raises) Symbolic.os
      (Symbolic.default_params (2, 1, 1)) 7 = Ok r2 /\
    piece_count (mesh_info (report r)) = 0 /\
    Pipeline2.piece_count (Pipeline2.mesh_info (Pipeline2.report r2)) = 2 /\
    Pipeline2.run_centers r2 = run_centers r.
Proof.
  eexists. eexists.
  split; [vm_compute; reflexivity|].
  split; [vm_compute; reflexivity|].
  split; [vm_compute; reflexivity|].
  split; [vm_compute; reflexivity|].
  refine (proj1 (@backend2_builds_the_same_interlocks
                   (Symbolic.trimesh Symbolic.cleanup_raises) Symbolic.lcg
                   (Symbolic.pyplot Symbolic.cleanup_raises) Symbolic.os
                   (Symbolic.default_params (2, 1, 1)) 0 7 _ _ _ _)).
  - vm_compute. reflexivity.
  - vm_compute. reflexivity.
Defined.

(** ** The roles an interior face receives *)

Section CellInstances.
Context `{TM : Trimesh} `{RNG : PyRandom}.
Variable p : Params.
Variable mesh : Solid.
Variables nx ny nz total_pieces : Z.
Variables x_cuts y_cuts z_cuts : list Q.





End CellInstances.




(** ** A mesh without faces *)

(** When cleaning leaves the input mesh without faces, [bounds[0]] at line
    118 raises, after the cleaned mesh has been exported and before any
    piece is generated, whatever the parameters. *)
Lemma emptied_mesh_raises
    `{TM : Trimesh} `{RNG : PyRandom} `{PLT : @Pyplot TM} `{FS : OS}
    (p : Params) (g0 : Gen) (mesh : Solid) (file : string) (lg : list Event) :
  load_and_clean p = Ok (mesh, file, lg) ->
  mesh_bounds mesh = None ->
  generate_puzzle_from_stl p g0 = Raise TypeError.
Proof.
  intros Hload Hnone. unfold generate_puzzle_from_stl.
  rewrite Hload. cbn [bind]. now rewrite Hnone.
Qed.

Lemma emptied_mesh_run :
  Symbolic.run emptied_mesh (Symbolic.default_params (2, 2, 2)) 0
  = Raise TypeError.
Proof. vm_compute. reflexivity. Qed.
